(** * Banker's algorithm and deadlock detection of [project.py]

    A shallow embedding of the algorithmic core of [src/project.py]
    ([is_safe_state], [detect_deadlock], [validate_input] and the
    resource totals of [simulate]) together with the properties the
    specification states about it.

    Conventions.
    - Process and resource names are Python strings: [string].
    - The matrices arrive as nested Python lists of integers and are turned
      into numpy arrays by [np.array].  For integers that fit 64 bits numpy
      stores them with dtype int64, whose arithmetic wraps around silently;
      the embedding keeps the entries as [Z] and writes the wrap-around out
      ([wrap64]).  Entries outside the int64 range make numpy choose another
      dtype and are outside the model ([int64_input]).
    - [np.array] on a ragged nested list raises [ValueError] (numpy 1.24 and
      later).  An array without entries has dtype float64; having no entry,
      it never changes a result, and it changes the exception of one
      operation, the in-place addition [iadd].
    - A Python exception is the [Raise] outcome; the bound of the [while]
      loop is the [OutOfFuel] outcome, which is proved unreachable.
    - Two library functions are parameters: the text [str(e)] of a numpy
      exception ([exn_message]) and [networkx.find_cycle] ([find_cycle]). *)

From Stdlib Require Import List ZArith Bool Arith Lia String Ascii.
From Stdlib Require Import Permutation DecimalString.
Import ListNotations.

Open Scope string_scope.
Open Scope list_scope.
Open Scope Z_scope.

(** ** Outcomes of a computation *)

Inductive exn : Type :=
| IndexError
| ValueError
| TypeError
| NetworkXNoCycle.

Inductive outcome (A : Type) : Type :=
| Ret (a : A)
| Raise (e : exn)
| OutOfFuel.

Arguments Ret {A} a.
Arguments Raise {A} e.
Arguments OutOfFuel {A}.

Definition bind {A B : Type} (c : outcome A) (k : A -> outcome B) : outcome B :=
  match c with
  | Ret a => k a
  | Raise e => Raise e
  | OutOfFuel => OutOfFuel
  end.

Notation "x <- c ;; k" := (bind c (fun x => k))
  (at level 61, c at next level, right associativity).
Notation "' pat <- c ;; k" := (bind c (fun x => match x with pat => k end))
  (at level 61, pat pattern, c at next level, right associativity).

(** [try: c except Exception as e: h e] *)
Definition try_except {A : Type} (c : outcome A) (h : exn -> outcome A) : outcome A :=
  match c with
  | Raise e => h e
  | _ => c
  end.

(** ** int64 arithmetic *)

Definition int64_min : Z := - 2 ^ 63.
Definition int64_max : Z := 2 ^ 63 - 1.

Definition wrap64 (z : Z) : Z := (z + 2 ^ 63) mod 2 ^ 64 - 2 ^ 63.

Definition in_int64 (z : Z) : Prop := int64_min <= z <= int64_max.

Definition add64 (a b : Z) : Z := wrap64 (a + b).
Definition sub64 (a b : Z) : Z := wrap64 (a - b).

(** ** numpy arrays

    A one-dimensional array is the list of its entries.  [np.array] applied
    to a nested list gives either the empty one-dimensional array (for [[]],
    shape (0,)) or a two-dimensional array with at least one row. *)

Inductive ndarray2 : Type :=
| Empty1
| Mat (rows : list (list Z)).

Definition same_length (c : nat) (row : list Z) : bool := Nat.eqb (List.length row) c.

(** [np.array(l)] of a nested list whose entries fit int64: a ragged list is
    refused, a list without rows is the one-dimensional array without
    entries. *)
Definition np_array2 (l : list (list Z)) : outcome ndarray2 :=
  match l with
  | [] => Ret Empty1
  | r :: rest =>
      if forallb (same_length (List.length r)) rest then Ret (Mat l) else Raise ValueError
  end.

(** [len(a)] *)
Definition len2 (a : ndarray2) : nat :=
  match a with
  | Empty1 => 0%nat
  | Mat rows => List.length rows
  end.

(** [a[i]] for a list or a one-dimensional array *)
Definition getitem {A : Type} (l : list A) (i : nat) : outcome A :=
  match nth_error l i with
  | Some x => Ret x
  | None => Raise IndexError
  end.

(** [a[i]] for a two-dimensional array: the row [i] *)
Definition getrow (a : ndarray2) (i : nat) : outcome (list Z) :=
  match a with
  | Empty1 => Raise IndexError
  | Mat rows => getitem rows i
  end.

(** [a[i][j]] and [a[i, j]] *)
Definition getitem2 (a : ndarray2) (i j : nat) : outcome Z :=
  row <- getrow a i ;; getitem row j.

(** *** Broadcasting *)

Fixpoint zip_with {A B C : Type} (f : A -> B -> outcome C) (xs : list A) (ys : list B)
  : outcome (list C) :=
  match xs, ys with
  | x :: xs', y :: ys' =>
      z <- f x y ;; zs <- zip_with f xs' ys' ;; Ret (z :: zs)
  | _, _ => Ret []
  end.

Fixpoint map_out {A C : Type} (f : A -> outcome C) (xs : list A) : outcome (list C) :=
  match xs with
  | [] => Ret []
  | x :: xs' => z <- f x ;; zs <- map_out f xs' ;; Ret (z :: zs)
  end.

(** One axis of numpy's broadcasting rule: equal lengths pair up, an axis of
    length one is stretched, anything else is a [ValueError]. *)
Definition broadcast {A C : Type} (f : A -> A -> outcome C) (xs ys : list A)
  : outcome (list C) :=
  if Nat.eqb (List.length xs) (List.length ys) then zip_with f xs ys
  else match xs, ys with
       | [x], _ => map_out (f x) ys
       | _, [y] => map_out (fun x => f x y) xs
       | _, _ => Raise ValueError
       end.

Definition broadcast1 (f : Z -> Z -> Z) (xs ys : list Z) : outcome (list Z) :=
  broadcast (fun x y => Ret (f x y)) xs ys.

(** The rows of an array seen as two-dimensional: shape (k,) becomes (1,k). *)
Definition as_rows (a : ndarray2) : list (list Z) :=
  match a with
  | Empty1 => [[]]
  | Mat rows => rows
  end.

Definition broadcast2 (f : Z -> Z -> Z) (a b : ndarray2) : outcome ndarray2 :=
  match a, b with
  | Empty1, Empty1 => Ret Empty1
  | _, _ => rows <- broadcast (broadcast1 f) (as_rows a) (as_rows b) ;; Ret (Mat rows)
  end.

(** [a - b] on int64 matrices *)
Definition np_sub (a b : ndarray2) : outcome ndarray2 := broadcast2 sub64 a b.

(** [w += row]: the result must have the shape of [w].  A row without
    entries has dtype float64 and cannot be added in place to a non-empty
    int64 vector: numpy raises a [TypeError] before it compares the
    shapes. *)
Definition iadd (w row : list Z) : outcome (list Z) :=
  if Nat.eqb (List.length row) (List.length w) then zip_with (fun x y => Ret (add64 x y)) w row
  else match row with
       | [] => Raise TypeError
       | [y] => Ret (map (fun x => add64 x y) w)
       | _ => Raise ValueError
       end.

(** [np.all(v == 0)] *)
Definition np_all_zero (v : list Z) : bool := forallb (Z.eqb 0) v.

(** [l[i] = x] for a list [l] and an index in range *)
Fixpoint list_set {A : Type} (l : list A) (i : nat) (x : A) : list A :=
  match l, i with
  | [], _ => []
  | _ :: l', O => x :: l'
  | y :: l', S i' => y :: list_set l' i' x
  end.

(** ** The safety engine: [is_safe_state] *)

(** The mutable locals of the [while] loop. *)
Record safe_st : Type := mk_safe_st {
  work : list Z;
  finish : list bool;
  safe_sequence : list string;
  allocated : bool
}.

(** [all(need[i, j] <= work[j] for j in range(len(resources)))]; the
    generator stops at the first [False]. *)
Fixpoint all_need_le (need : ndarray2) (w : list Z) (i : nat) (js : list nat) : outcome bool :=
  match js with
  | [] => Ret true
  | j :: js' =>
      n_ij <- getitem2 need i j ;;
      w_j <- getitem w j ;;
      if n_ij <=? w_j then all_need_le need w i js' else Ret false
  end.

(** The body of [for i in range(len(processes))]. *)
Definition grant_step (processes : list string) (m : nat) (allocation need : ndarray2)
  (st : safe_st) (i : nat) : outcome safe_st :=
  f_i <- getitem (finish st) i ;;
  if f_i then Ret st
  else
    ok <- all_need_le need (work st) i (seq 0 m) ;;
    if ok then
      a_i <- getrow allocation i ;;
      w' <- iadd (work st) a_i ;;
      p_i <- getitem processes i ;;
      Ret (mk_safe_st w' (list_set (finish st) i true) (safe_sequence st ++ [p_i]) true)
    else Ret st.

Fixpoint for_each {S : Type} (body : S -> nat -> outcome S) (st : S) (idx : list nat)
  : outcome S :=
  match idx with
  | [] => Ret st
  | i :: idx' => st' <- body st i ;; for_each body st' idx'
  end.

(** The [while len(safe_sequence) < len(processes)] loop. *)
Fixpoint safe_loop (fuel : nat) (processes : list string) (m : nat)
  (allocation need : ndarray2) (st : safe_st) : outcome (bool * list string) :=
  if Nat.ltb (List.length (safe_sequence st)) (List.length processes) then
    match fuel with
    | O => OutOfFuel
    | S fuel' =>
        let st0 := mk_safe_st (work st) (finish st) (safe_sequence st) false in
        st' <- for_each (grant_step processes m allocation need) st0
                 (seq 0 (List.length processes)) ;;
        if allocated st' then safe_loop fuel' processes m allocation need st'
        else Ret (false, [])
    end
  else Ret (true, safe_sequence st).

Definition is_safe_state_fuel (fuel : nat) (processes resources : list string)
  (allocation max_demand : list (list Z)) (available : list Z)
  : outcome (bool * list string) :=
  allocation <- np_array2 allocation ;;
  max_demand <- np_array2 max_demand ;;
  need <- np_sub max_demand allocation ;;
  let work := available in
  let finish := repeat false (List.length processes) in
  safe_loop fuel processes (List.length resources) allocation need
    (mk_safe_st work finish [] false).

(** Every pass that does not leave the loop appends a process, so
    [len(processes)] passes are enough. *)
Definition is_safe_state (processes resources : list string)
  (allocation max_demand : list (list Z)) (available : list Z)
  : outcome (bool * list string) :=
  is_safe_state_fuel (List.length processes) processes resources
    allocation max_demand available.

(** ** The deadlock detector: [detect_deadlock] *)

(** A reported edge: the pair [(p, "Resources")] of the fast path, or the
    triple [(u, v, direction)] that [find_cycle] yields. *)
Inductive edge : Type :=
| Pair (u v : string)
| Triple (u v dir : string).

(** *** The part of [networkx.DiGraph] the detector uses

    Nodes are Python strings compared by value, so a process and a resource
    of the same name are one node.  [_node] and [_adj] are dictionaries,
    which iterate in insertion order: association lists. *)

Record DiGraph : Type := mk_graph {
  g_node : list (string * list (string * string));
  g_adj : list (string * list string)
}.

Definition empty_graph : DiGraph := mk_graph [] [].

(** [d[k] = f(d.get(k, dflt))]: an existing key keeps its position, a new one
    goes last. *)
Fixpoint assoc_upd {V : Type} (k : string) (dflt : V) (f : V -> V) (d : list (string * V))
  : list (string * V) :=
  match d with
  | [] => [(k, f dflt)]
  | (k', v) :: d' =>
      if String.eqb k k' then (k', f v) :: d' else (k', v) :: assoc_upd k dflt f d'
  end.

Definition add_node (G : DiGraph) (n : string) (attr : list (string * string)) : DiGraph :=
  mk_graph
    (assoc_upd n []
       (fun old => fold_left (fun d kv => assoc_upd (fst kv) "" (fun _ => snd kv) d) attr old)
       (g_node G))
    (assoc_upd n [] (fun succ => succ) (g_adj G)).

Definition list_add (v : string) (l : list string) : list string :=
  if existsb (String.eqb v) l then l else l ++ [v].

Definition add_edge (G : DiGraph) (u v : string) : DiGraph :=
  let G1 := add_node (add_node G u []) v [] in
  mk_graph (g_node G1) (assoc_upd u [] (list_add v) (g_adj G1)).

(** The fast-path loop: [for i ...: if np.all(need[i] == 0): ... break]. *)
Fixpoint all_processes_need (need : ndarray2) (idx : list nat) : outcome bool :=
  match idx with
  | [] => Ret true
  | i :: idx' =>
      row <- getrow need i ;;
      if np_all_zero row then Ret false else all_processes_need need idx'
  end.

(** The body of the inner loop [for j, res in enumerate(resources)]. *)
Definition edge_step (allocation need : ndarray2) (available : list Z)
  (i : nat) (process : string) (G : DiGraph) (jres : nat * string) : outcome DiGraph :=
  let (j, res) := jres in
  n_ij <- getitem2 need i j ;;
  waits <- (if 0 <? n_ij then
              a_ij <- getitem2 allocation i j ;;
              if a_ij =? 0 then av_j <- getitem available j ;; Ret (av_j =? 0)
              else Ret false
            else Ret false) ;;
  let G1 := if waits then add_edge G process res else G in
  a_ij <- getitem2 allocation i j ;;
  Ret (if 0 <? a_ij then add_edge G1 res process else G1).

Fixpoint fold_out {S X : Type} (body : S -> X -> outcome S) (st : S) (xs : list X)
  : outcome S :=
  match xs with
  | [] => Ret st
  | x :: xs' => st' <- body st x ;; fold_out body st' xs'
  end.

(** [enumerate(l)] *)
Definition enumerate {X : Type} (l : list X) : list (nat * X) :=
  combine (seq 0 (List.length l)) l.

Definition build_graph (processes resources : list string)
  (allocation need : ndarray2) (available : list Z) : outcome DiGraph :=
  let G := empty_graph in
  let G := fold_left (fun G p => add_node G p [("color", "blue")]) processes G in
  let G := fold_left (fun G r => add_node G r [("color", "red")]) resources G in
  fold_out (fun G ip =>
              fold_out (edge_step allocation need available (fst ip) (snd ip)) G
                (enumerate resources))
    G (enumerate processes).

Section Detector.

(** [networkx.find_cycle(G, orientation='original')]: library code outside
    the repository, a function of the graph that yields the edges of one
    cycle or raises [NetworkXNoCycle]. *)
Variable find_cycle : DiGraph -> outcome (list edge).

Definition detect_deadlock (processes resources : list string)
  (allocation max_demand : list (list Z)) (available : list Z)
  : outcome (bool * list edge) :=
  allocation <- np_array2 allocation ;;
  max_demand <- np_array2 max_demand ;;
  need <- np_sub max_demand allocation ;;
  starved <- (if np_all_zero available
              then all_processes_need need (seq 0 (List.length processes))
              else Ret false) ;;
  if starved then Ret (true, map (fun p => Pair p "Resources") processes)
  else
    G <- build_graph processes resources allocation need available ;;
    match find_cycle G with
    | Ret cycle => Ret (true, cycle)
    | Raise NetworkXNoCycle => Ret (false, [])
    | Raise e => Raise e
    | OutOfFuel => OutOfFuel
    end.

End Detector.

(** ** The validator: [validate_input] *)

(** [str(n)] for a Python int and for a numpy int64 *)
Definition str_nat (n : nat) : string := NilZero.string_of_uint (Nat.to_uint n).
Definition str_Z (z : Z) : string := NilZero.string_of_int (Z.to_int z).

Definition msg_rows (n_processes rows : nat) : string :=
  ("Number of processes (" ++ str_nat n_processes
   ++ ") doesn't match allocation matrix rows (" ++ str_nat rows ++ ")")%string.

Definition msg_cols (n_resources cols : nat) : string :=
  ("Number of resources (" ++ str_nat n_resources
   ++ ") doesn't match allocation matrix columns (" ++ str_nat cols ++ ")")%string.

Definition msg_max_rows : string :=
  "Max demand matrix dimensions don't match allocation matrix".

Definition msg_exceeds (process : string) (a : Z) (resource : string) (mx : Z) : string :=
  ("Invalid: Process " ++ process ++ " is allocated " ++ str_Z a
   ++ " units of resource " ++ resource ++ ", but declared max need is " ++ str_Z mx)%string.

Definition msg_negative : string := "Available resources cannot be negative".

(** [np.sum(a, axis=0)]: the column sums; the sum of the empty
    one-dimensional array is a scalar, which broadcasts like shape (1,). *)
Definition np_sum_axis0 (a : ndarray2) : list Z :=
  match a with
  | Empty1 => [0]
  | Mat rows =>
      fold_left (fun acc row => map (fun p => add64 (fst p) (snd p)) (combine acc row))
        rows (repeat 0 (List.length (hd [] rows)))
  end.

(** The inner loop of the [allocation <= max_demand] check; [Some msg] is the
    early [return False, msg]. *)
Fixpoint check_row (processes resources : list string) (allocation max_demand : ndarray2)
  (i : nat) (js : list nat) : outcome (option string) :=
  match js with
  | [] => Ret None
  | j :: js' =>
      a_ij <- getitem2 allocation i j ;;
      m_ij <- getitem2 max_demand i j ;;
      if m_ij <? a_ij then
        p_i <- getitem processes i ;;
        r_j <- getitem resources j ;;
        Ret (Some (msg_exceeds p_i a_ij r_j m_ij))
      else check_row processes resources allocation max_demand i js'
  end.

Fixpoint check_rows (processes resources : list string) (allocation max_demand : ndarray2)
  (idx : list nat) : outcome (option string) :=
  match idx with
  | [] => Ret None
  | i :: idx' =>
      r <- check_row processes resources allocation max_demand i
             (seq 0 (List.length resources)) ;;
      match r with
      | Some msg => Ret (Some msg)
      | None => check_rows processes resources allocation max_demand idx'
      end
  end.

(** [all(available[j] >= 0 for j in range(len(resources)))] *)
Fixpoint all_available_nonneg (available : list Z) (js : list nat) : outcome bool :=
  match js with
  | [] => Ret true
  | j :: js' =>
      av_j <- getitem available j ;;
      if 0 <=? av_j then all_available_nonneg available js' else Ret false
  end.

Section Validator.

(** [str(e)] for an exception raised inside numpy: the text is numpy's. *)
Variable exn_message : exn -> string.

Definition validate_input (processes resources : list string)
  (allocation max_demand : list (list Z)) (available : list Z)
  : outcome (bool * string) :=
  try_except
    (allocation <- np_array2 allocation ;;
     max_demand <- np_array2 max_demand ;;
     if negb (Nat.eqb (List.length processes) (len2 allocation)) then
       Ret (false, msg_rows (List.length processes) (len2 allocation))
     else
       row0 <- getrow allocation 0 ;;
       if negb (Nat.eqb (List.length resources) (List.length row0)) then
         Ret (false, msg_cols (List.length resources) (List.length row0))
       else if negb (Nat.eqb (len2 max_demand) (len2 allocation)) then
         Ret (false, msg_max_rows)
       else
         violation <- check_rows processes resources allocation max_demand
                        (seq 0 (List.length processes)) ;;
         match violation with
         | Some msg => Ret (false, msg)
         | None =>
             let total_allocated := np_sum_axis0 allocation in
             nonneg <- all_available_nonneg available (seq 0 (List.length resources)) ;;
             if negb nonneg then Ret (false, msg_negative)
             else Ret (true, "")
         end)
    (fun e => Ret (false, ("Invalid input format: " ++ exn_message e)%string)).

(** The resource totals of [simulate] (lines 121-139): [None] is the 400
    response for a rejected input, [Some (total_allocated, total_resources)]
    the two vectors; [total_resources] is the divisor of the utilization. *)
Definition simulate_totals (processes resources : list string)
  (allocation max_demand : list (list Z)) (available : list Z)
  : outcome (option (list Z * list Z)) :=
  '(is_valid, error_message) <-
     validate_input processes resources allocation max_demand available ;;
  if negb is_valid then Ret None
  else
    allocation_np <- np_array2 allocation ;;
    max_demand_np <- np_array2 max_demand ;;
    let available_np := available in
    let total_allocated := np_sum_axis0 allocation_np in
    let total_available := available_np in
    total_resources <- broadcast1 add64 total_allocated total_available ;;
    Ret (Some (total_allocated, total_resources)).

End Validator.


(** ** The request handler: [simulate]

    The handler from line 120 on, for a request whose five fields were
    read.  The utilization is a float64 quotient; the response carries its
    two integer operands, [total_allocated] and [total_resources], in its
    place.  On int64 arrays the division raises nothing, not even for a zero
    divisor. *)

Record metrics : Type := mk_metrics {
  m_process_states : list string;
  m_total_resources : list Z;
  m_total_allocated : list Z;
  m_total_available : list Z
}.

Inductive response : Type :=
| Rejected (error : string)
| Report (safe_state : bool) (safe_sequence : list string)
    (deadlock_detected : bool) (deadlock_cycle : list edge) (m : metrics)
| ServerError (error : string).

(** [np.any(v > 0)] *)
Definition np_any_positive (v : list Z) : bool := existsb (Z.ltb 0) v.

(** The loop that classifies the processes. *)
Fixpoint classify (need allocation : ndarray2) (idx : list nat) : outcome (list string) :=
  match idx with
  | [] => Ret []
  | i :: idx' =>
      need_i <- getrow need i ;;
      state <- (if np_all_zero need_i then Ret "Complete"
                else
                  a_i <- getrow allocation i ;;
                  if np_any_positive a_i then Ret "Running" else Ret "Waiting") ;;
      states <- classify need allocation idx' ;;
      Ret (state :: states)
  end.

Section Handler.

Variable exn_message : exn -> string.
Variable find_cycle : DiGraph -> outcome (list edge).

Definition simulate (processes resources : list string)
  (allocation max_demand : list (list Z)) (available : list Z) : outcome response :=
  try_except
    ('(is_valid, error_message) <-
       validate_input exn_message processes resources allocation max_demand available ;;
     if negb is_valid then Ret (Rejected error_message)
     else
       allocation_np <- np_array2 allocation ;;
       max_demand_np <- np_array2 max_demand ;;
       let available_np := available in
       let total_allocated := np_sum_axis0 allocation_np in
       let total_available := available_np in
       total_resources <- broadcast1 add64 total_allocated total_available ;;
       need <- np_sub max_demand_np allocation_np ;;
       process_states <- classify need allocation_np (seq 0 (List.length processes)) ;;
       '(safe, sequence) <-
          is_safe_state processes resources allocation max_demand available ;;
       '(deadlock, cycle) <-
          detect_deadlock find_cycle processes resources allocation max_demand available ;;
       Ret (Report safe (if safe then sequence else [])
              deadlock (if deadlock then cycle else [])
              (mk_metrics process_states total_resources total_allocated total_available)))
    (fun e => Ret (ServerError ("Server error: " ++ exn_message e)%string)).

End Handler.
(** * Notions used by the properties *)

(** The processes not yet finished, in index order. *)
Fixpoint pending (ps : list string) (fin : list bool) : list string :=
  match ps, fin with
  | p :: ps', f :: fin' => if f then pending ps' fin' else p :: pending ps' fin'
  | _, _ => []
  end.

(** What the loop of [is_safe_state] keeps true: every process is either in
    the sequence or still pending, exactly once. *)
Definition seq_inv (ps : list string) (st : safe_st) : Prop :=
  List.length (finish st) = List.length ps /\
  Permutation (safe_sequence st ++ pending ps (finish st)) ps.

Definition terminates {A : Type} (c : outcome A) : Prop := c <> OutOfFuel.


(** Every row of a matrix has [c] entries. *)
Definition rectangular (c : nat) (rows : list (list Z)) : Prop :=
  Forall (fun r => List.length r = c) rows.

(** The entry [rows[i][j]]. *)
Definition entry (rows : list (list Z)) (i j : nat) : Z := nth j (nth i rows []) 0.

Definition vec_add64 (w row : list Z) : list Z :=
  map (fun p => add64 (fst p) (snd p)) (combine w row).

Definition vec_sub64 (x y : list Z) : list Z :=
  map (fun p => sub64 (fst p) (snd p)) (combine x y).

(** [max_demand - allocation] for two matrices of one shape. *)
Definition mat_sub64 (M A : list (list Z)) : list (list Z) :=
  map (fun p => vec_sub64 (fst p) (snd p)) (combine M A).

(** Process [i] can be granted its whole need from [w]. *)
Definition grantable (N : list (list Z)) (w : list Z) (i m : nat) : bool :=
  forallb (fun j => entry N i j <=? nth j w 0) (seq 0 m).

(** The loop body of [is_safe_state] on arrays of the right shape. *)
Definition grant_pure (ps : list string) (m : nat) (A N : list (list Z))
  (st : safe_st) (i : nat) : safe_st :=
  if nth i (finish st) true then st
  else if grantable N (work st) i m then
    mk_safe_st (vec_add64 (work st) (nth i A [])) (list_set (finish st) i true)
      (safe_sequence st ++ [nth i ps ""]) true
  else st.

(** The entries the model covers: those numpy stores as int64. *)
Definition int64_input (A M : list (list Z)) (Av : list Z) : Prop :=
  Forall (Forall in_int64) A /\ Forall (Forall in_int64) M /\ Forall in_int64 Av.

(** [sum_over f g]: the sum of [f i] for [i] in [g]. *)
Definition sum_over (f : nat -> Z) (g : list nat) : Z :=
  fold_right (fun i acc => f i + acc) 0 g.

(** The units of resource [j] held by the processes in [g]. *)
Definition held (A : list (list Z)) (g : list nat) (j : nat) : Z :=
  sum_over (fun i => entry A i j) g.

(** The state of the loop after the processes [g] were granted, in that
    order, starting from the available vector [Av]. *)
Record granted (ps : list string) (m : nat) (A : list (list Z)) (Av : list Z)
  (st : safe_st) (g : list nat) : Prop := mk_granted {
  gr_nodup : NoDup g;
  gr_bound : forall i, In i g -> (i < List.length ps)%nat;
  gr_finish_len : List.length (finish st) = List.length ps;
  gr_finish : forall i, (i < List.length ps)%nat ->
                (nth i (finish st) true = true <-> In i g);
  gr_work_len : List.length (work st) = m;
  gr_work : forall j, (j < m)%nat -> nth j (work st) 0 = nth j Av 0 + held A g j;
  gr_seq : safe_sequence st = map (fun i => nth i ps "") g
}.

(** A completion order in the sense of the Banker's algorithm: each process
    finds its need covered by [Av] plus what its predecessors held. *)
Inductive safe_order (m : nat) (A N : list (list Z)) (Av : list Z) : list nat -> Prop :=
| safe_nil : safe_order m A N Av []
| safe_snoc (g : list nat) (i : nat) :
    safe_order m A N Av g -> ~ In i g ->
    (forall j, (j < m)%nat -> entry N i j <= nth j Av 0 + held A g j) ->
    safe_order m A N Av (g ++ [i]).

(** No column total leaves the int64 range. *)
Definition no_overflow (n m : nat) (A : list (list Z)) (Av : list Z) : Prop :=
  forall j, (j < m)%nat ->
    int64_min <= nth j Av 0 /\ nth j Av 0 + held A (seq 0 n) j <= int64_max.

Definition nonneg_matrix (A : list (list Z)) : Prop :=
  Forall (Forall (fun a => 0 <= a)) A.

(** [Av] with [d] more units of resource [j]. *)
Definition bump (Av : list Z) (j : nat) (d : Z) : list Z :=
  list_set Av j (nth j Av 0 + d).

(** The need matrix [N = M - A] as both engines compute it from their
    arguments. *)
Definition need_matrix (allocation max_demand : list (list Z)) : outcome ndarray2 :=
  allocation <- np_array2 allocation ;;
  max_demand <- np_array2 max_demand ;;
  np_sub max_demand allocation.

(** The two end points of a reported edge. *)
Definition edge_nodes (e : edge) : list string :=
  match e with
  | Pair u v => [u; v]
  | Triple u v _ => [u; v]
  end.

(** Process [p] occurs on some edge of [cycle]. *)
Definition cycle_mentions (p : string) (cycle : list edge) : Prop :=
  exists e, In e cycle /\ In p (edge_nodes e).

(** The synthetic cycle of the fast path. *)
Definition starvation_cycle (processes : list string) : list edge :=
  map (fun p => Pair p "Resources") processes.

(** A row of the allocation matrix of a two-resource system in which the
    process holds one unit of resource [h] and nothing else. *)
Definition holds_only (row : list Z) (h : nat) : Prop :=
  (h < 2)%nat /\ row = [if Nat.eqb h 0 then 1 else 0; if Nat.eqb h 1 then 1 else 0].

(** [needle] occurs in [hay]. *)
Definition mentions (needle hay : string) : bool :=
  match String.index 0 needle hay with
  | Some _ => true
  | None => false
  end.

(** The row-major list of the index pairs [(i, process), (j, resource)]. *)
Definition row_major (processes resources : list string)
  : list ((nat * string) * (nat * string)) :=
  list_prod (enumerate processes) (enumerate resources).

(** The graph before the edge loops: one node per process, then one per
    resource. *)
Definition nodes_only (processes resources : list string) : DiGraph :=
  fold_left (fun G r => add_node G r [("color", "red")]) resources
    (fold_left (fun G p => add_node G p [("color", "blue")]) processes empty_graph).

(** The textbook example. *)
Definition textbook_allocation : list (list Z) :=
  [[0;1;0]; [2;0;0]; [3;0;2]; [2;1;1]; [0;0;2]].
Definition textbook_max_demand : list (list Z) :=
  [[7;5;3]; [3;2;2]; [9;0;2]; [2;2;2]; [4;3;3]].
Definition textbook_available : list Z := [3;3;2].

(** Stand-ins for the two library functions, for closed examples: a message
    text for each exception class, and a [find_cycle] that finds nothing. *)
Definition exn_class_name (e : exn) : string :=
  match e with
  | IndexError => "IndexError"
  | ValueError => "ValueError"
  | TypeError => "TypeError"
  | NetworkXNoCycle => "NetworkXNoCycle"
  end.

Definition find_no_cycle (G : DiGraph) : outcome (list edge) := Raise NetworkXNoCycle.

(** What the validator accepts, said on the nested lists themselves. *)
Definition acceptable (ps rs : list string) (A M : list (list Z)) (Av : list Z) : Prop :=
  A <> [] /\
  List.length A = List.length ps /\
  rectangular (List.length rs) A /\
  List.length M = List.length ps /\
  (exists c, rectangular c M) /\
  (forall i j, (i < List.length ps)%nat -> (j < List.length rs)%nat ->
     (j < List.length (nth i M []))%nat /\ entry A i j <= entry M i j) /\
  (forall j, (j < List.length rs)%nat ->
     (j < List.length Av)%nat /\ 0 <= nth j Av 0).

(** Position [(i, j)] comes before [(i', j')] in row-major order. *)
Definition before (i j i' j' : nat) : Prop :=
  (i < i')%nat \/ (i = i' /\ (j < j')%nat).

(** A nested list whose rows do not all have one length. *)
Definition ragged (l : list (list Z)) : Prop :=
  exists r1 r2, In r1 l /\ In r2 l /\ List.length r1 <> List.length r2.

(** An input of the shape the data model describes: one row per process and
    one column per resource in both matrices, one available entry per
    resource, non-negative allocations, column totals within int64. *)
Definition banker_input (ps rs : list string) (A M : list (list Z)) (Av : list Z) : Prop :=
  List.length A = List.length ps /\ rectangular (List.length rs) A /\
  List.length M = List.length ps /\ rectangular (List.length rs) M /\
  List.length Av = List.length rs /\
  nonneg_matrix A /\
  no_overflow (List.length ps) (List.length rs) A Av.

(** [g] lists every process exactly once in an order in which each one finds
    its need [N = M - A] covered by the available units plus the allocations
    of its predecessors. *)
Definition completion_order (ps rs : list string) (A M : list (list Z)) (Av : list Z)
  (g : list nat) : Prop :=
  safe_order (List.length rs) A (mat_sub64 M A) Av g /\
  forall i, (i < List.length ps)%nat <-> In i g.

(** The names of the processes [g]. *)
Definition names_of (ps : list string) (g : list nat) : list string :=
  map (fun i => nth i ps "") g.

(** ** The resource-allocation graph *)

(** [G] has the edge [u -> v]. *)
Definition has_edge (G : DiGraph) (u v : string) : Prop :=
  exists succ, In (u, succ) (g_adj G) /\ In v succ.

(** [G] has the node [u]. *)
Definition has_node (G : DiGraph) (u : string) : Prop :=
  exists succ, In (u, succ) (g_adj G).

(** Process [i] waits for resource [j]: it needs it, holds none of it, and
    none is available. *)
Definition waits_for (A N : list (list Z)) (Av : list Z) (i j : nat) : Prop :=
  0 < entry N i j /\ entry A i j = 0 /\ nth j Av 0 = 0.

(** Process [i] holds units of resource [j]. *)
Definition holds (A : list (list Z)) (i j : nat) : Prop := 0 < entry A i j.

(** The two end points of an edge, as a pair. *)
Definition edge_ends (e : edge) : string * string :=
  match e with
  | Pair u v => (u, v)
  | Triple u v _ => (u, v)
  end.

(** Each edge starts where the previous one ends. *)
Fixpoint chained (es : list edge) : Prop :=
  match es with
  | e1 :: ((e2 :: _) as rest) => snd (edge_ends e1) = fst (edge_ends e2) /\ chained rest
  | _ => True
  end.

(** A cycle of edges: non-empty, each edge starting where the previous one
    ends, and the last one ending where the first one starts. *)
Definition edge_cycle (c : list edge) : Prop :=
  c <> [] /\
  chained c /\
  (forall e1 en, hd_error c = Some e1 -> hd_error (rev c) = Some en ->
     snd (edge_ends en) = fst (edge_ends e1)).

(** A non-empty closed walk along edges of [G]. *)
Definition closed_walk (G : DiGraph) (c : list edge) : Prop :=
  c <> [] /\
  (forall e, In e c -> has_edge G (fst (edge_ends e)) (snd (edge_ends e))) /\
  chained c /\
  (forall e1 en, hd_error c = Some e1 -> hd_error (rev c) = Some en ->
     snd (edge_ends en) = fst (edge_ends e1)).

(** What the detector relies on from [networkx.find_cycle]: it either yields
    a closed walk of the graph or raises [NetworkXNoCycle]. *)
Definition find_cycle_contract (find_cycle : DiGraph -> outcome (list edge)) : Prop :=
  forall G,
    (exists c, find_cycle G = Ret c /\ closed_walk G c) \/
    find_cycle G = Raise NetworkXNoCycle.

(** The sum of column [j] of a matrix. *)
Definition col_sum (rows : list (list Z)) (j : nat) : Z :=
  fold_right (fun row acc => nth j row 0 + acc) 0 rows.
(** * Properties *)

Lemma bind_ret_inv {A B : Type} (c : outcome A) (k : A -> outcome B) (b : B) :
  bind c k = Ret b -> exists a, c = Ret a /\ k a = Ret b.
Proof.
  destruct c as [a | e |]; simpl; intros H; try discriminate.
  exists a; split; [reflexivity | exact H].
Qed.

Lemma bind_terminates {A B : Type} (c : outcome A) (k : A -> outcome B) :
  terminates c -> (forall a, c = Ret a -> terminates (k a)) -> terminates (bind c k).
Proof.
  unfold terminates. destruct c as [a | e |]; simpl; intros Hc Hk.
  - apply Hk; reflexivity.
  - discriminate.
  - exfalso; apply Hc; reflexivity.
Qed.

Ltac inv_bind H :=
  let a := fresh "a" in
  let E := fresh "E" in
  apply bind_ret_inv in H; destruct H as (a & E & H).

Lemma getitem_terminates {A : Type} (l : list A) (i : nat) : terminates (getitem l i).
Proof. unfold terminates, getitem. destruct (nth_error l i); discriminate. Qed.

Lemma getrow_terminates (a : ndarray2) (i : nat) : terminates (getrow a i).
Proof. destruct a; simpl; [discriminate | apply getitem_terminates]. Qed.

Lemma getitem2_terminates (a : ndarray2) (i j : nat) : terminates (getitem2 a i j).
Proof.
  unfold getitem2. apply bind_terminates; [apply getrow_terminates |].
  intros; apply getitem_terminates.
Qed.

Lemma zip_with_pure {A B C : Type} (f : A -> B -> C) (xs : list A) (ys : list B) :
  zip_with (fun x y => Ret (f x y)) xs ys
  = Ret (map (fun p => f (fst p) (snd p)) (combine xs ys)).
Proof.
  revert ys; induction xs as [| x xs IH]; intros [| y ys]; simpl; try reflexivity.
  rewrite IH. reflexivity.
Qed.

Lemma iadd_terminates (w row : list Z) : terminates (iadd w row).
Proof.
  unfold iadd. destruct (Nat.eqb _ _).
  - rewrite zip_with_pure. discriminate.
  - destruct row as [| y [| z row]]; discriminate.
Qed.

Lemma all_need_le_terminates (need : ndarray2) (w : list Z) (i : nat) (js : list nat) :
  terminates (all_need_le need w i js).
Proof.
  induction js as [| j js IH]; simpl; [discriminate |].
  apply bind_terminates; [apply getitem2_terminates | intros n_ij _].
  apply bind_terminates; [apply getitem_terminates | intros w_j _].
  destruct (n_ij <=? w_j); [exact IH | discriminate].
Qed.

Lemma grant_step_terminates ps m al nd st i : terminates (grant_step ps m al nd st i).
Proof.
  unfold grant_step.
  apply bind_terminates; [apply getitem_terminates | intros f_i _].
  destruct f_i; [discriminate |].
  apply bind_terminates; [apply all_need_le_terminates | intros ok _].
  destruct ok; [| discriminate].
  apply bind_terminates; [apply getrow_terminates | intros a_i _].
  apply bind_terminates; [apply iadd_terminates | intros w' _].
  apply bind_terminates; [apply getitem_terminates | intros p_i _].
  discriminate.
Qed.

Lemma for_each_terminates {S : Type} (body : S -> nat -> outcome S) :
  (forall st i, terminates (body st i)) ->
  forall idx st, terminates (for_each body st idx).
Proof.
  intros Hb idx; induction idx as [| i idx IH]; intros st; simpl; [discriminate |].
  apply bind_terminates; [apply Hb | intros; apply IH].
Qed.

(** One loop body either leaves the state alone or grants process [i]. *)
Lemma grant_step_inv ps m al nd st i st' :
  grant_step ps m al nd st i = Ret st' ->
  st' = st \/
  exists p w', nth_error (finish st) i = Some false /\ nth_error ps i = Some p /\
    st' = mk_safe_st w' (list_set (finish st) i true) (safe_sequence st ++ [p]) true.
Proof.
  unfold grant_step; intros H.
  inv_bind H. destruct a as [|].
  - left; congruence.
  - inv_bind H. destruct a as [|]; [| left; congruence].
    inv_bind H. inv_bind H. inv_bind H.
    right. exists a1, a0. unfold getitem in E, E3.
    destruct (nth_error (finish st) i) eqn:Ef; [| discriminate].
    destruct (nth_error ps i) eqn:Ep; [| discriminate].
    repeat split; congruence.
Qed.

Lemma list_set_length {A : Type} (l : list A) (i : nat) (x : A) :
  List.length (list_set l i x) = List.length l.
Proof.
  revert i; induction l as [| y l IH]; intros [| i]; simpl; auto.
Qed.

Lemma pending_grant ps fin i p :
  nth_error fin i = Some false -> nth_error ps i = Some p ->
  Permutation (pending ps fin) (p :: pending ps (list_set fin i true)).
Proof.
  revert fin i; induction ps as [| q ps IH]; intros [| f fin] [| i]; simpl;
    try discriminate.
  - intros Hf Hp. injection Hf as ->. injection Hp as ->. reflexivity.
  - intros Hf Hp. destruct f.
    + apply IH; assumption.
    + rewrite perm_swap. apply perm_skip. apply IH; assumption.
Qed.

Lemma pending_length ps fin : (List.length (pending ps fin) <= List.length ps)%nat.
Proof.
  revert fin; induction ps as [| p ps IH]; intros [| f fin]; simpl; try lia.
  specialize (IH fin). destruct f; simpl; lia.
Qed.

Lemma grant_step_seq_inv ps m al nd st i st' :
  grant_step ps m al nd st i = Ret st' -> seq_inv ps st ->
  seq_inv ps st' /\
  (List.length (safe_sequence st) <= List.length (safe_sequence st'))%nat /\
  (allocated st' = true ->
   allocated st = true \/
   (List.length (safe_sequence st) < List.length (safe_sequence st'))%nat).
Proof.
  intros H [Hlen Hperm]. apply grant_step_inv in H.
  destruct H as [-> | (p & w' & Hf & Hp & ->)].
  - repeat split; auto.
  - split; [split |]; simpl.
    + rewrite list_set_length; exact Hlen.
    + rewrite <- app_assoc. simpl.
      rewrite <- Hperm at 2. apply Permutation_app_head.
      symmetry. apply pending_grant; assumption.
    + rewrite length_app; simpl. split; [lia |].
      intros _. right. lia.
Qed.

Lemma for_each_seq_inv ps m al nd idx : forall st st',
  for_each (grant_step ps m al nd) st idx = Ret st' -> seq_inv ps st ->
  seq_inv ps st' /\
  (List.length (safe_sequence st) <= List.length (safe_sequence st'))%nat /\
  (allocated st' = true ->
   allocated st = true \/
   (List.length (safe_sequence st) < List.length (safe_sequence st'))%nat).
Proof.
  induction idx as [| i idx IH]; intros st st' H Hinv; simpl in H.
  - injection H as <-. repeat split; auto; apply Hinv.
  - inv_bind H.
    destruct (grant_step_seq_inv _ _ _ _ _ _ _ E Hinv) as (Hinv1 & Hle1 & Hal1).
    destruct (IH _ _ H Hinv1) as (Hinv2 & Hle2 & Hal2).
    repeat split; try apply Hinv2; try lia.
    intros Ha. destruct (Hal2 Ha) as [Ha1 | Hlt]; [| right; lia].
    destruct (Hal1 Ha1) as [Ha0 | Hlt]; [left; exact Ha0 | right; lia].
Qed.

(** The loop returns either [True] with a permutation of the processes or
    [False] with the empty list. *)
Lemma safe_loop_result ps m al nd : forall fuel st b sq,
  seq_inv ps st ->
  safe_loop fuel ps m al nd st = Ret (b, sq) ->
  (b = true /\ Permutation sq ps) \/ (b = false /\ sq = []).
Proof.
  induction fuel as [| fuel IH]; intros st b sq Hinv H; simpl in H.
  - destruct (Nat.ltb_spec (List.length (safe_sequence st)) (List.length ps)) as [Hlt | Hge];
      [discriminate |].
    injection H as <- <-. left; split; [reflexivity |].
    destruct Hinv as [_ Hperm].
    pose proof (Permutation_length Hperm) as Hl. rewrite length_app in Hl.
    assert (Hp : pending ps (finish st) = []) by (apply length_zero_iff_nil; lia).
    rewrite Hp, app_nil_r in Hperm. exact Hperm.
  - destruct (Nat.ltb_spec (List.length (safe_sequence st)) (List.length ps)) as [Hlt | Hge].
    + inv_bind H.
      assert (Hinv0 : seq_inv ps (mk_safe_st (work st) (finish st) (safe_sequence st) false))
        by exact Hinv.
      destruct (for_each_seq_inv _ _ _ _ _ _ _ E Hinv0) as (Hinv1 & _ & _).
      destruct (allocated a).
      * eapply IH; eassumption.
      * injection H as <- <-. right; split; reflexivity.
    + injection H as <- <-. left; split; [reflexivity |].
      destruct Hinv as [_ Hperm].
      pose proof (Permutation_length Hperm) as Hl. rewrite length_app in Hl.
      assert (Hp : pending ps (finish st) = []) by (apply length_zero_iff_nil; lia).
      rewrite Hp, app_nil_r in Hperm. exact Hperm.
Qed.

(** [len(processes)] passes are enough: the loop never runs out of fuel. *)
Lemma safe_loop_terminates ps m al nd : forall fuel st,
  seq_inv ps st ->
  (List.length ps <= fuel + List.length (safe_sequence st))%nat ->
  terminates (safe_loop fuel ps m al nd st).
Proof.
  induction fuel as [| fuel IH]; intros st Hinv Hfuel; simpl.
  - destruct (Nat.ltb_spec (List.length (safe_sequence st)) (List.length ps)) as [Hlt | Hge];
      [lia | discriminate].
  - destruct (Nat.ltb_spec (List.length (safe_sequence st)) (List.length ps)) as [Hlt | Hge];
      [| discriminate].
    apply bind_terminates.
    + apply for_each_terminates. intros; apply grant_step_terminates.
    + intros st' E.
      assert (Hinv0 : seq_inv ps (mk_safe_st (work st) (finish st) (safe_sequence st) false))
        by exact Hinv.
      destruct (for_each_seq_inv _ _ _ _ _ _ _ E Hinv0) as (Hinv1 & Hle & Hal).
      destruct (allocated st') eqn:Ea; [| discriminate].
      apply IH; [exact Hinv1 |].
      destruct (Hal eq_refl) as [Hf | Hlt']; [discriminate | simpl in Hlt'; lia].
Qed.

Lemma pending_all_false ps : pending ps (repeat false (List.length ps)) = ps.
Proof. induction ps as [| p ps IH]; simpl; [reflexivity | now rewrite IH]. Qed.

Lemma seq_inv_init ps w :
  seq_inv ps (mk_safe_st w (repeat false (List.length ps)) [] false).
Proof.
  split; simpl; [apply repeat_length | rewrite pending_all_false; reflexivity].
Qed.
Lemma np_array2_Mat l rows :
  np_array2 l = Ret (Mat rows) ->
  rows = l /\ l <> [] /\ rectangular (List.length (hd [] l)) l.
Proof.
  destruct l as [| r rest]; simpl; [discriminate |].
  destruct (forallb _ rest) eqn:E; [| discriminate].
  intros H; injection H as <-. split; [reflexivity | split; [discriminate |]].
  constructor; [reflexivity |].
  apply Forall_forall. intros x Hx.
  rewrite forallb_forall in E. apply E in Hx. apply Nat.eqb_eq in Hx. exact Hx.
Qed.

Lemma np_array2_rect c l :
  l <> [] -> rectangular c l -> np_array2 l = Ret (Mat l).
Proof.
  destruct l as [| r rest]; [congruence |]. intros _ H. simpl.
  inversion H as [| ? ? Hr Hrest]; subst.
  replace (forallb _ rest) with true; [reflexivity |].
  symmetry. apply forallb_forall. intros x Hx.
  unfold rectangular in Hrest. rewrite Forall_forall in Hrest.
  apply Nat.eqb_eq. apply Hrest; exact Hx.
Qed.

Lemma getitem_nth {A : Type} (l : list A) (i : nat) (d : A) :
  (i < List.length l)%nat -> getitem l i = Ret (nth i l d).
Proof.
  intros H. unfold getitem. rewrite (nth_error_nth' l d H). reflexivity.
Qed.

Lemma rectangular_nth c rows i :
  rectangular c rows -> (i < List.length rows)%nat -> List.length (nth i rows []) = c.
Proof.
  unfold rectangular; rewrite Forall_forall. intros H Hi. apply H. apply nth_In; exact Hi.
Qed.

Lemma getitem2_entry c rows i j :
  rectangular c rows -> (i < List.length rows)%nat -> (j < c)%nat ->
  getitem2 (Mat rows) i j = Ret (entry rows i j).
Proof.
  intros Hr Hi Hj. unfold getitem2; simpl.
  rewrite (getitem_nth rows i [] Hi); simpl.
  apply getitem_nth. rewrite (rectangular_nth c); assumption.
Qed.

Lemma vec_sub64_length x y :
  List.length x = List.length y -> List.length (vec_sub64 x y) = List.length x.
Proof.
  intros H. unfold vec_sub64. rewrite length_map, length_combine. lia.
Qed.

Lemma vec_add64_length w row :
  List.length row = List.length w -> List.length (vec_add64 w row) = List.length w.
Proof.
  intros H. unfold vec_add64. rewrite length_map, length_combine. lia.
Qed.

Lemma broadcast1_same f x y :
  List.length x = List.length y ->
  broadcast1 f x y = Ret (map (fun p => f (fst p) (snd p)) (combine x y)).
Proof.
  intros H. unfold broadcast1, broadcast. rewrite H, Nat.eqb_refl.
  apply zip_with_pure.
Qed.

Lemma zip_rows_sub c : forall M A,
  rectangular c M -> rectangular c A ->
  zip_with (broadcast1 sub64) M A = Ret (mat_sub64 M A).
Proof.
  induction M as [| x M IH]; intros [| y A] HM HA; simpl; try reflexivity.
  inversion HM; inversion HA; subst.
  rewrite broadcast1_same by congruence. simpl.
  rewrite IH by assumption. reflexivity.
Qed.

(** On two matrices of one shape [np_sub] is the entrywise difference. *)
Lemma np_sub_shaped c M A :
  rectangular c M -> rectangular c A -> List.length M = List.length A ->
  np_sub (Mat M) (Mat A) = Ret (Mat (mat_sub64 M A)).
Proof.
  intros HM HA Hlen. unfold np_sub, broadcast2, broadcast; simpl.
  rewrite Hlen, Nat.eqb_refl. rewrite (zip_rows_sub c) by assumption. reflexivity.
Qed.

Lemma mat_sub64_length M A :
  List.length M = List.length A -> List.length (mat_sub64 M A) = List.length A.
Proof. intros H. unfold mat_sub64. rewrite length_map, length_combine. lia. Qed.

Lemma mat_sub64_rect c : forall M A,
  rectangular c M -> rectangular c A -> rectangular c (mat_sub64 M A).
Proof.
  induction M as [| x M IH]; intros [| y A] HM HA; simpl; try constructor.
  - inversion HM; inversion HA; subst. simpl.
    rewrite vec_sub64_length; congruence.
  - inversion HM; inversion HA; subst. apply IH; assumption.
Qed.

Lemma grantable_spec N w i m :
  grantable N w i m = true <-> forall j, (j < m)%nat -> entry N i j <= nth j w 0.
Proof.
  unfold grantable. rewrite forallb_forall. split.
  - intros H j Hj. apply Z.leb_le. apply H. apply in_seq. lia.
  - intros H j Hj. apply Z.leb_le. apply H. apply in_seq in Hj. lia.
Qed.

Lemma all_need_le_pure c N w i : forall js,
  rectangular c N -> (i < List.length N)%nat ->
  (forall j, In j js -> (j < c)%nat /\ (j < List.length w)%nat) ->
  all_need_le (Mat N) w i js
  = Ret (forallb (fun j => entry N i j <=? nth j w 0) js).
Proof.
  induction js as [| j js IH]; intros HN Hi Hjs; simpl; [reflexivity |].
  destruct (Hjs j (or_introl eq_refl)) as [Hjc Hjw].
  rewrite (getitem2_entry c) by assumption. simpl.
  rewrite (getitem_nth w j 0 Hjw). simpl.
  destruct (entry N i j <=? nth j w 0); simpl; [| reflexivity].
  apply IH; auto. intros k Hk. apply Hjs. right; exact Hk.
Qed.

Lemma iadd_same w row :
  List.length row = List.length w -> iadd w row = Ret (vec_add64 w row).
Proof.
  intros H. unfold iadd. rewrite H, Nat.eqb_refl. apply zip_with_pure.
Qed.

(** On arrays of the right shape the loop body raises nothing. *)
Lemma grant_step_pure ps m A N st i :
  rectangular m A -> rectangular m N ->
  List.length A = List.length ps -> List.length N = List.length ps ->
  List.length (work st) = m -> List.length (finish st) = List.length ps ->
  (i < List.length ps)%nat ->
  grant_step ps m (Mat A) (Mat N) st i = Ret (grant_pure ps m A N st i).
Proof.
  intros HA HN HlA HlN Hw Hf Hi. unfold grant_step, grant_pure.
  rewrite (getitem_nth (finish st) i true) by lia. simpl.
  destruct (nth i (finish st) true); [reflexivity |].
  rewrite (all_need_le_pure m) by
    (try assumption; try lia; intros j Hj; apply in_seq in Hj; lia).
  simpl. fold (grantable N (work st) i m).
  destruct (grantable N (work st) i m); [| reflexivity].
  simpl. rewrite (getitem_nth A i []) by lia. simpl.
  rewrite iadd_same by (rewrite (rectangular_nth m); auto; lia). simpl.
  rewrite (getitem_nth ps i "") by lia. reflexivity.
Qed.

Lemma grant_pure_shape ps m A N st i :
  rectangular m A -> (i < List.length A)%nat ->
  List.length (work st) = m -> 
  List.length (work (grant_pure ps m A N st i)) = m /\
  List.length (finish (grant_pure ps m A N st i)) = List.length (finish st).
Proof.
  intros HA Hi Hw. unfold grant_pure.
  destruct (nth i (finish st) true); [auto |].
  destruct (grantable N (work st) i m); [| auto].
  simpl. rewrite list_set_length. split; [| reflexivity].
  rewrite vec_add64_length; [exact Hw |].
  rewrite (rectangular_nth m); auto.
Qed.

Lemma for_each_pure ps m A N : forall idx st,
  rectangular m A -> rectangular m N ->
  List.length A = List.length ps -> List.length N = List.length ps ->
  List.length (work st) = m -> List.length (finish st) = List.length ps ->
  (forall i, In i idx -> (i < List.length ps)%nat) ->
  for_each (grant_step ps m (Mat A) (Mat N)) st idx
  = Ret (fold_left (grant_pure ps m A N) idx st).
Proof.
  induction idx as [| i idx IH]; intros st HA HN HlA HlN Hw Hf Hidx; simpl;
    [reflexivity |].
  rewrite grant_step_pure by (auto; apply Hidx; left; reflexivity).
  simpl.
  destruct (grant_pure_shape ps m A N st i HA) as [Hw' Hf'];
    [rewrite HlA; apply Hidx; left; reflexivity | exact Hw |].
  apply IH; auto; try congruence.
  intros k Hk; apply Hidx; right; exact Hk.
Qed.

(** ** What an accepted input looks like *)

Lemma try_except_true {A : Type} (c : outcome (bool * A)) (h : exn -> A) (s : A) :
  try_except c (fun e => Ret (false, h e)) = Ret (true, s) -> c = Ret (true, s).
Proof. destruct c; simpl; intros H; try assumption; discriminate. Qed.

Lemma validate_input_accepts emsg ps rs A M Av s :
  validate_input emsg ps rs A M Av = Ret (true, s) ->
  s = "" /\ A <> [] /\
  rectangular (List.length rs) A /\ List.length A = List.length ps /\
  (exists c, rectangular c M) /\ List.length M = List.length ps /\
  check_rows ps rs (Mat A) (Mat M) (seq 0 (List.length ps)) = Ret None /\
  all_available_nonneg Av (seq 0 (List.length rs)) = Ret true.
Proof.
  unfold validate_input. intros H. apply try_except_true in H.
  inv_bind H. inv_bind H.
  destruct (Nat.eqb_spec (List.length ps) (len2 a)) as [Hn |]; simpl in H;
    [| discriminate].
  inv_bind H.
  destruct (Nat.eqb_spec (List.length rs) (List.length a1)) as [Hm |]; simpl in H;
    [| discriminate].
  destruct (Nat.eqb_spec (len2 a0) (len2 a)) as [Hn' |]; simpl in H;
    [| discriminate].
  inv_bind H. destruct a2 as [msg |]; [discriminate |].
  inv_bind H. destruct a2; simpl in H; [| discriminate].
  injection H as <-.
  destruct a as [| rowsA]; [discriminate |].
  apply np_array2_Mat in E. destruct E as (-> & HAne & HArect).
  simpl in E1. unfold getitem in E1.
  destruct A as [| r0 A']; [congruence |]. simpl in E1. injection E1 as <-.
  simpl in HArect. rewrite <- Hm in HArect.
  destruct a0 as [| rowsM]; [simpl in Hn'; discriminate |].
  apply np_array2_Mat in E0. destruct E0 as (-> & HMne & HMrect).
  simpl in Hn, Hn'.
  split; [reflexivity |]. split; [exact HAne |]. split; [exact HArect |].
  split; [simpl; congruence |]. split; [eexists; exact HMrect |].
  split; [congruence |]. split; assumption.
Qed.

Lemma is_safe_state_fuel_result fuel ps rs A M Av b sq :
  is_safe_state_fuel fuel ps rs A M Av = Ret (b, sq) ->
  (b = true /\ Permutation sq ps) \/ (b = false /\ sq = []).
Proof.
  unfold is_safe_state_fuel. intros H.
  inv_bind H. inv_bind H. inv_bind H.
  eapply safe_loop_result; [| exact H]. apply seq_inv_init.
Qed.

Lemma zip_with_terminates {A B C : Type} (f : A -> B -> outcome C) :
  (forall x y, terminates (f x y)) -> forall xs ys, terminates (zip_with f xs ys).
Proof.
  intros Hf; induction xs as [| x xs IH]; intros [| y ys]; simpl; try discriminate.
  apply bind_terminates; [apply Hf | intros z _].
  apply bind_terminates; [apply IH | intros zs _; discriminate].
Qed.

Lemma map_out_terminates {A C : Type} (f : A -> outcome C) :
  (forall x, terminates (f x)) -> forall xs, terminates (map_out f xs).
Proof.
  intros Hf; induction xs as [| x xs IH]; simpl; [discriminate |].
  apply bind_terminates; [apply Hf | intros z _].
  apply bind_terminates; [apply IH | intros zs _; discriminate].
Qed.

Lemma broadcast_terminates {A C : Type} (f : A -> A -> outcome C) :
  (forall x y, terminates (f x y)) -> forall xs ys, terminates (broadcast f xs ys).
Proof.
  intros Hf xs ys. unfold broadcast.
  destruct (Nat.eqb _ _); [apply zip_with_terminates; exact Hf |].
  destruct xs as [| x [| x' xs]]; destruct ys as [| y [| y' ys]];
    try discriminate; try (apply map_out_terminates; intros; apply Hf).
Qed.

Lemma np_array2_terminates l : terminates (np_array2 l).
Proof.
  unfold terminates, np_array2. destruct l; [discriminate |].
  destruct (forallb _ _); discriminate.
Qed.

Lemma np_sub_terminates a b : terminates (np_sub a b).
Proof.
  assert (H1 : forall x y, terminates (broadcast1 sub64 x y)).
  { intros x y. apply broadcast_terminates. intros; discriminate. }
  unfold np_sub, broadcast2.
  destruct a, b; try discriminate;
    (apply bind_terminates; [apply broadcast_terminates; exact H1 | intros; discriminate]).
Qed.

(** The loop bound of [is_safe_state] is never reached. *)
Lemma is_safe_state_terminates ps rs A M Av :
  terminates (is_safe_state ps rs A M Av).
Proof.
  unfold is_safe_state, is_safe_state_fuel.
  apply bind_terminates; [apply np_array2_terminates | intros a _].
  apply bind_terminates; [apply np_array2_terminates | intros mx _].
  apply bind_terminates; [apply np_sub_terminates | intros need _].
  apply safe_loop_terminates; [apply seq_inv_init | simpl; lia].
Qed.

Lemma fold_grant_shape ps m A N : forall idx st,
  rectangular m A -> (forall i, In i idx -> (i < List.length A)%nat) ->
  List.length (work st) = m ->
  List.length (work (fold_left (grant_pure ps m A N) idx st)) = m /\
  List.length (finish (fold_left (grant_pure ps m A N) idx st)) = List.length (finish st).
Proof.
  induction idx as [| i idx IH]; intros st HA Hidx Hw; simpl; [auto |].
  destruct (grant_pure_shape ps m A N st i HA) as [Hw' Hf'];
    [apply Hidx; left; reflexivity | exact Hw |].
  destruct (IH (grant_pure ps m A N st i) HA) as [Hw2 Hf2];
    [intros k Hk; apply Hidx; right; exact Hk | exact Hw' |].
  split; congruence.
Qed.

(** On arrays of the right shape the loop raises nothing. *)
Lemma safe_loop_no_raise ps m A N : forall fuel st e,
  rectangular m A -> rectangular m N ->
  List.length A = List.length ps -> List.length N = List.length ps ->
  List.length (work st) = m -> List.length (finish st) = List.length ps ->
  safe_loop fuel ps m (Mat A) (Mat N) st <> Raise e.
Proof.
  induction fuel as [| fuel IH]; intros st e HA HN HlA HlN Hw Hf; simpl.
  - destruct (Nat.ltb _ _); discriminate.
  - destruct (Nat.ltb _ _); [| discriminate].
    rewrite for_each_pure; auto; [| intros i Hi; apply in_seq in Hi; lia].
    simpl.
    match goal with |- context [fold_left ?f ?l ?s] => set (st' := fold_left f l s) end.
    destruct (fold_grant_shape ps m A N (seq 0 (List.length ps))
                (mk_safe_st (work st) (finish st) (safe_sequence st) false) HA)
      as [Hw' Hf']; [intros i Hi; apply in_seq in Hi; lia | exact Hw |].
    fold st' in Hw', Hf'. simpl in Hf'.
    destruct (allocated st'); [| discriminate].
    apply IH; auto. congruence.
Qed.

Lemma outcome_cases {A : Type} (c : outcome A) :
  terminates c -> (forall e, c <> Raise e) -> exists a, c = Ret a.
Proof.
  destruct c as [a | e |]; intros Ht Hr.
  - exists a; reflexivity.
  - exfalso; apply (Hr e); reflexivity.
  - exfalso; apply Ht; reflexivity.
Qed.

(** ** C1 *)

(** C1.  For every input that [validate_input] accepts, whatever
    [is_safe_state] returns is either [True] with a non-empty sequence that
    is a permutation of all process identifiers, or [False] with the empty
    sequence; the loop bound is never reached, and a result is returned
    whenever the max-demand matrix and the available vector have one column
    per resource (the two shapes the validator does not check). *)
Theorem C1_safe_sequence_iff_safe (emsg : exn -> string) (ps rs : list string)
  (A M : list (list Z)) (Av : list Z) :
  int64_input A M Av ->
  validate_input emsg ps rs A M Av = Ret (true, "") ->
  (forall safe sq, is_safe_state ps rs A M Av = Ret (safe, sq) ->
     (sq <> [] <-> safe = true) /\
     (safe = true -> Permutation sq ps) /\
     (safe = false -> sq = [])) /\
  is_safe_state ps rs A M Av <> OutOfFuel /\
  (rectangular (List.length rs) M -> List.length Av = List.length rs ->
   exists safe sq, is_safe_state ps rs A M Av = Ret (safe, sq)).
Proof.
  intros _ Hv. apply validate_input_accepts in Hv.
  destruct Hv as (_ & HAne & HArect & HlA & _ & HlM & _ & _).
  assert (Hps : ps <> []).
  { intros ->. destruct A; [congruence | discriminate]. }
  split; [| split].
  - intros safe sq H. apply is_safe_state_fuel_result in H.
    destruct H as [[-> Hperm] | [-> ->]].
    + split; [split; [reflexivity |] | split; [intros _; exact Hperm | discriminate]].
      intros _ ->. apply Permutation_nil in Hperm. congruence.
    + split; [split; [congruence | discriminate] | split; [discriminate | reflexivity]].
  - apply is_safe_state_terminates.
  - intros HMrect HlAv.
    destruct (outcome_cases (is_safe_state ps rs A M Av)) as [[safe sq] H].
    + apply is_safe_state_terminates.
    + intros e. unfold is_safe_state, is_safe_state_fuel.
      assert (HMne : M <> []) by (intros ->; destruct ps; [congruence | discriminate]).
      rewrite (np_array2_rect (List.length rs) A HAne HArect).
      rewrite (np_array2_rect (List.length rs) M HMne HMrect). cbn [bind].
      rewrite (np_sub_shaped (List.length rs)) by (auto; congruence). cbn [bind].
      apply safe_loop_no_raise; auto.
      * apply mat_sub64_rect; assumption.
      * rewrite mat_sub64_length; congruence.
      * simpl. apply repeat_length.
    + exists safe, sq; exact H.
Qed.

(** ** Sums over sets of processes *)

Lemma sum_over_app f g h : sum_over f (g ++ h) = sum_over f g + sum_over f h.
Proof. induction g as [| x g IH]; simpl; [reflexivity | rewrite IH; lia]. Qed.

Lemma sum_over_nonneg f g : (forall i, In i g -> 0 <= f i) -> 0 <= sum_over f g.
Proof.
  induction g as [| x g IH]; simpl; intros H; [lia |].
  assert (0 <= f x) by (apply H; left; reflexivity).
  assert (0 <= sum_over f g) by (apply IH; intros; apply H; right; assumption).
  lia.
Qed.

Lemma sum_over_subset f : forall g h,
  NoDup g -> incl g h -> (forall i, In i h -> 0 <= f i) ->
  sum_over f g <= sum_over f h.
Proof.
  induction g as [| x g IH]; intros h Hnd Hincl Hpos; simpl.
  - apply sum_over_nonneg; exact Hpos.
  - inversion Hnd as [| ? ? Hx Hnd']; subst.
    assert (Hin : In x h) by (apply Hincl; left; reflexivity).
    apply in_split in Hin. destruct Hin as (h1 & h2 & ->).
    rewrite sum_over_app; simpl.
    assert (IH' : sum_over f g <= sum_over f (h1 ++ h2)).
    { apply IH; [exact Hnd' | |].
      - intros y Hy. assert (Hy' : In y (h1 ++ x :: h2)) by (apply Hincl; right; exact Hy).
        apply in_app_or in Hy'. apply in_or_app.
        destruct Hy' as [? | [-> | ?]]; auto. contradiction.
      - intros i Hi. apply Hpos. apply in_app_or in Hi. apply in_or_app.
        destruct Hi; [left | right; right]; assumption. }
    rewrite sum_over_app in IH'. lia.
Qed.

Lemma entry_nonneg A i j : nonneg_matrix A -> 0 <= entry A i j.
Proof.
  intros H. unfold entry.
  destruct (Nat.lt_ge_cases i (List.length A)) as [Hi | Hi].
  - assert (Hr : Forall (fun a => 0 <= a) (nth i A [])).
    { unfold nonneg_matrix in H. rewrite Forall_forall in H. apply H. apply nth_In; exact Hi. }
    destruct (Nat.lt_ge_cases j (List.length (nth i A []))) as [Hj | Hj].
    + rewrite Forall_forall in Hr. apply Hr. apply nth_In; exact Hj.
    + rewrite nth_overflow by exact Hj. lia.
  - rewrite (nth_overflow A) by exact Hi. destruct j; simpl; lia.
Qed.

Lemma held_nonneg A g j : nonneg_matrix A -> 0 <= held A g j.
Proof. intros H. apply sum_over_nonneg. intros; apply entry_nonneg; exact H. Qed.

Lemma held_subset A g h j :
  nonneg_matrix A -> NoDup g -> incl g h -> held A g j <= held A h j.
Proof.
  intros HA Hnd Hincl. apply sum_over_subset; auto.
  intros; apply entry_nonneg; exact HA.
Qed.

Lemma held_snoc A g i j : held A (g ++ [i]) j = held A g j + entry A i j.
Proof. unfold held. rewrite sum_over_app. simpl. lia. Qed.

Lemma wrap64_in_range z : in_int64 z -> wrap64 z = z.
Proof.
  unfold in_int64, int64_min, int64_max, wrap64. intros H.
  rewrite Z.mod_small; lia.
Qed.

Lemma nth_vec_add64 w row j :
  List.length row = List.length w -> (j < List.length w)%nat ->
  nth j (vec_add64 w row) 0 = add64 (nth j w 0) (nth j row 0).
Proof.
  revert row j; induction w as [| x w IH]; intros [| y row] [| j] Hl Hj;
    simpl in *; try lia; try reflexivity.
  apply IH; lia.
Qed.

Lemma nth_list_set {X : Type} (l : list X) (i k : nat) (x d : X) :
  (i < List.length l)%nat ->
  nth k (list_set l i x) d = if Nat.eqb k i then x else nth k l d.
Proof.
  revert i k; induction l as [| y l IH]; intros [| i] [| k] Hi; simpl in *;
    try lia; try reflexivity.
  apply IH; lia.
Qed.

(** ** The loop on well-shaped, non-negative, non-overflowing inputs *)

Section Banker.

Variables (ps : list string) (m : nat) (A N : list (list Z)) (Av : list Z).

Hypothesis A_rect : rectangular m A.
Hypothesis A_rows : List.length A = List.length ps.
Hypothesis A_nonneg : nonneg_matrix A.
Hypothesis A_fits : no_overflow (List.length ps) m A Av.
Hypothesis N_rect : rectangular m N.
Hypothesis N_rows : List.length N = List.length ps.

Lemma held_total g j :
  NoDup g -> (forall i, In i g -> (i < List.length ps)%nat) ->
  held A g j <= held A (seq 0 (List.length ps)) j.
Proof.
  intros Hnd Hb. apply held_subset; auto.
  intros i Hi. apply in_seq. specialize (Hb i Hi). lia.
Qed.

Lemma grant_pure_skip st g i :
  granted ps m A Av st g -> (i < List.length ps)%nat -> In i g ->
  grant_pure ps m A N st i = st.
Proof.
  intros G Hi Hin. unfold grant_pure.
  apply (gr_finish _ _ _ _ _ _ G i Hi) in Hin. rewrite Hin. reflexivity.
Qed.

Lemma grant_pure_deny st g i :
  granted ps m A Av st g -> grantable N (work st) i m = false ->
  grant_pure ps m A N st i = st.
Proof.
  intros G Hg. unfold grant_pure. rewrite Hg.
  destruct (nth i (finish st) true); reflexivity.
Qed.

Lemma grant_pure_grant st g i :
  granted ps m A Av st g -> (i < List.length ps)%nat -> ~ In i g ->
  grantable N (work st) i m = true ->
  granted ps m A Av (grant_pure ps m A N st i) (g ++ [i]) /\
  allocated (grant_pure ps m A N st i) = true /\
  (forall j, (j < m)%nat ->
     nth j (work st) 0 <= nth j (work (grant_pure ps m A N st i)) 0).
Proof.
  intros G Hi Hnin Hg. unfold grant_pure.
  destruct (nth i (finish st) true) eqn:Hf.
  { exfalso. apply Hnin. apply (gr_finish _ _ _ _ _ _ G i Hi). exact Hf. }
  rewrite Hg.
  assert (Hnd : NoDup (g ++ [i])).
  { apply (Permutation_NoDup (Permutation_cons_append g i)).
    constructor; [exact Hnin | apply (gr_nodup _ _ _ _ _ _ G)]. }
  assert (Hb : forall k, In k (g ++ [i]) -> (k < List.length ps)%nat).
  { intros k Hk. apply in_app_or in Hk. destruct Hk as [Hk | [<- | []]];
      [apply (gr_bound _ _ _ _ _ _ G); exact Hk | exact Hi]. }
  assert (Hrow : List.length (nth i A []) = List.length (work st)).
  { rewrite (rectangular_nth m) by (auto; lia).
    symmetry; apply (gr_work_len _ _ _ _ _ _ G). }
  assert (Hwork : forall j, (j < m)%nat ->
            nth j (vec_add64 (work st) (nth i A [])) 0
            = nth j (work st) 0 + entry A i j).
  { intros j Hj.
    rewrite nth_vec_add64 by (auto; rewrite (gr_work_len _ _ _ _ _ _ G); exact Hj).
    fold (entry A i j). unfold add64. apply wrap64_in_range.
    rewrite (gr_work _ _ _ _ _ _ G j Hj).
    destruct (A_fits j Hj) as [Hlo Hhi].
    pose proof (held_total (g ++ [i]) j Hnd Hb) as Htot.
    rewrite held_snoc in Htot.
    pose proof (held_nonneg A g j A_nonneg).
    pose proof (entry_nonneg A i j A_nonneg).
    unfold in_int64. lia. }
  split; [| split].
  - constructor; simpl.
    + exact Hnd.
    + exact Hb.
    + rewrite list_set_length. apply (gr_finish_len _ _ _ _ _ _ G).
    + intros k Hk.
      rewrite nth_list_set by (rewrite (gr_finish_len _ _ _ _ _ _ G); exact Hi).
      destruct (Nat.eqb_spec k i) as [-> | Hne].
      * split; [intros _; apply in_or_app; right; left; reflexivity | reflexivity].
      * rewrite (gr_finish _ _ _ _ _ _ G k Hk). split.
        -- intros H; apply in_or_app; left; exact H.
        -- intros H; apply in_app_or in H. destruct H as [H | [H | []]];
             [exact H | congruence].
    + rewrite vec_add64_length by exact Hrow. apply (gr_work_len _ _ _ _ _ _ G).
    + intros j Hj. rewrite Hwork by exact Hj.
      rewrite (gr_work _ _ _ _ _ _ G j Hj), held_snoc. lia.
    + rewrite map_app. simpl. rewrite (gr_seq _ _ _ _ _ _ G). reflexivity.
  - reflexivity.
  - intros j Hj. simpl. rewrite Hwork by exact Hj.
    pose proof (entry_nonneg A i j A_nonneg). lia.
Qed.

(** Every loop body keeps the representation and never decreases [work]. *)
Lemma grant_pure_granted st g i :
  granted ps m A Av st g -> (i < List.length ps)%nat ->
  exists g',
    granted ps m A Av (grant_pure ps m A N st i) g' /\
    (g' = g \/ (g' = g ++ [i] /\ ~ In i g /\ grantable N (work st) i m = true)) /\
    (g' = g -> grant_pure ps m A N st i = st) /\
    (g' <> g -> allocated (grant_pure ps m A N st i) = true) /\
    (forall j, (j < m)%nat ->
       nth j (work st) 0 <= nth j (work (grant_pure ps m A N st i)) 0).
Proof.
  intros G Hi.
  destruct (in_dec Nat.eq_dec i g) as [Hin | Hnin].
  - exists g. rewrite (grant_pure_skip st g i G Hi Hin).
    split; [exact G |]. split; [left; reflexivity |].
    split; [reflexivity |]. split; [congruence | intros; lia].
  - destruct (grantable N (work st) i m) eqn:Hg.
    + destruct (grant_pure_grant st g i G Hi Hnin Hg) as (G' & Ha & Hw).
      exists (g ++ [i]). split; [exact G' |].
      split; [right; auto |]. split; [| split; [intros _; exact Ha | exact Hw]].
      intros E. exfalso. apply (f_equal (@List.length nat)) in E.
      rewrite length_app in E; simpl in E; lia.
    + exists g. rewrite (grant_pure_deny st g i G Hg).
      split; [exact G |]. split; [left; reflexivity |].
      split; [reflexivity |]. split; [congruence | intros; lia].
Qed.

Lemma grantable_mono w w' i :
  grantable N w i m = true ->
  (forall j, (j < m)%nat -> nth j w 0 <= nth j w' 0) ->
  grantable N w' i m = true.
Proof.
  rewrite !grantable_spec. intros H Hw j Hj.
  specialize (H j Hj). specialize (Hw j Hj). lia.
Qed.

(** One pass over the processes [idx]. *)
Lemma fold_granted : forall idx st g,
  granted ps m A Av st g -> safe_order m A N Av g ->
  (forall i, In i idx -> (i < List.length ps)%nat) ->
  exists g',
    granted ps m A Av (fold_left (grant_pure ps m A N) idx st) g' /\
    safe_order m A N Av g' /\
    (List.length g <= List.length g')%nat /\
    (allocated st = true ->
     allocated (fold_left (grant_pure ps m A N) idx st) = true) /\
    (allocated (fold_left (grant_pure ps m A N) idx st) = true ->
     allocated st = true \/ (List.length g < List.length g')%nat).
Proof.
  induction idx as [| i idx IH]; intros st g G S Hidx; simpl.
  - exists g. split; [exact G |]. split; [exact S |]. split; [lia |].
    split; [intros H; exact H | intros H; left; exact H].
  - assert (Hi : (i < List.length ps)%nat) by (apply Hidx; left; reflexivity).
    destruct (grant_pure_granted st g i G Hi) as (g1 & G1 & Hg1 & Hsame & Hnew & _).
    assert (S1 : safe_order m A N Av g1).
    { destruct Hg1 as [-> | (-> & Hnin & Hgr)]; [exact S |].
      apply safe_snoc; [exact S | exact Hnin |].
      intros j Hj. rewrite grantable_spec in Hgr. specialize (Hgr j Hj).
      rewrite (gr_work _ _ _ _ _ _ G j Hj) in Hgr. exact Hgr. }
    destruct (IH _ g1 G1 S1) as (g' & G' & S' & Hle & Hmono & Hal).
    { intros k Hk; apply Hidx; right; exact Hk. }
    exists g'. split; [exact G' |]. split; [exact S' |].
    assert (Hlen1 : (List.length g <= List.length g1)%nat).
    { destruct Hg1 as [-> | (-> & _)]; [lia | rewrite length_app; simpl; lia]. }
    split; [lia |]. split.
    + intros Ha. apply Hmono.
      destruct Hg1 as [E | (E & _)].
      * rewrite (Hsame E). exact Ha.
      * apply Hnew. rewrite E. intros E'.
        apply (f_equal (@List.length nat)) in E'.
        rewrite length_app in E'; simpl in E'; lia.
    + intros Ha. destruct (Hal Ha) as [Ha1 | Hlt]; [| right; lia].
      destruct Hg1 as [E | (E & _)].
      * left. rewrite (Hsame E) in Ha1. exact Ha1.
      * right. rewrite E, length_app in Hle. simpl in Hle. lia.
Qed.

(** A process that could be granted at the start of a pass makes the pass
    grant something. *)
Lemma pass_progress : forall idx st g i,
  granted ps m A Av st g -> safe_order m A N Av g ->
  (forall k, In k idx -> (k < List.length ps)%nat) ->
  In i idx -> ~ In i g -> grantable N (work st) i m = true ->
  allocated (fold_left (grant_pure ps m A N) idx st) = true.
Proof.
  induction idx as [| k idx IH]; intros st g i G S Hidx Hin Hnin Hgr; simpl;
    [destruct Hin |].
  assert (Hk : (k < List.length ps)%nat) by (apply Hidx; left; reflexivity).
  assert (Hidx' : forall k', In k' idx -> (k' < List.length ps)%nat)
    by (intros k' Hk'; apply Hidx; right; exact Hk').
  destruct (Nat.eq_dec k i) as [-> | Hne].
  - destruct (grant_pure_grant st g i G Hk Hnin Hgr) as (G1 & Ha & _).
    assert (S1 : safe_order m A N Av (g ++ [i])).
    { apply safe_snoc; [exact S | exact Hnin |].
      intros j Hj. rewrite grantable_spec in Hgr. specialize (Hgr j Hj).
      rewrite (gr_work _ _ _ _ _ _ G j Hj) in Hgr. exact Hgr. }
    destruct (fold_granted idx _ _ G1 S1 Hidx') as (_ & _ & _ & _ & Hmono & _).
    apply Hmono. exact Ha.
  - destruct Hin as [E | Hin]; [congruence |].
    destruct (grant_pure_granted st g k G Hk) as (g1 & G1 & Hg1 & _ & _ & Hw).
    assert (S1 : safe_order m A N Av g1).
    { destruct Hg1 as [-> | (-> & Hnk & Hgk)]; [exact S |].
      apply safe_snoc; [exact S | exact Hnk |].
      intros j Hj. rewrite grantable_spec in Hgk. specialize (Hgk j Hj).
      rewrite (gr_work _ _ _ _ _ _ G j Hj) in Hgk. exact Hgk. }
    apply (IH _ g1 i G1 S1 Hidx' Hin).
    + destruct Hg1 as [-> | (-> & _)]; [exact Hnin |].
      intros H; apply in_app_or in H. destruct H as [H | [H | []]]; auto.
    + apply (grantable_mono (work st)); assumption.
Qed.

Lemma granted_reset st g :
  granted ps m A Av st g ->
  granted ps m A Av (mk_safe_st (work st) (finish st) (safe_sequence st) false) g.
Proof. intros G. destruct G. constructor; assumption. Qed.

Lemma granted_seq_length st g :
  granted ps m A Av st g -> List.length (safe_sequence st) = List.length g.
Proof. intros G. rewrite (gr_seq _ _ _ _ _ _ G). apply length_map. Qed.

Lemma pass_pure st g :
  granted ps m A Av st g ->
  for_each (grant_step ps m (Mat A) (Mat N))
    (mk_safe_st (work st) (finish st) (safe_sequence st) false)
    (seq 0 (List.length ps))
  = Ret (fold_left (grant_pure ps m A N) (seq 0 (List.length ps))
           (mk_safe_st (work st) (finish st) (safe_sequence st) false)).
Proof.
  intros G. apply for_each_pure; auto; simpl.
  - apply (gr_work_len _ _ _ _ _ _ G).
  - apply (gr_finish_len _ _ _ _ _ _ G).
  - intros i Hi. apply in_seq in Hi. lia.
Qed.

(** Soundness: a [True] verdict comes with a completion order of all
    processes. *)
Lemma safe_loop_sound : forall fuel st g sq,
  granted ps m A Av st g -> safe_order m A N Av g ->
  safe_loop fuel ps m (Mat A) (Mat N) st = Ret (true, sq) ->
  exists g', safe_order m A N Av g' /\
             forall i, (i < List.length ps)%nat <-> In i g'.
Proof.
  assert (Hexit : forall st g,
            granted ps m A Av st g -> safe_order m A N Av g ->
            (List.length ps <= List.length (safe_sequence st))%nat ->
            exists g', safe_order m A N Av g' /\
                       forall i, (i < List.length ps)%nat <-> In i g').
  { intros st g G S Hge. exists g. split; [exact S |].
    rewrite (granted_seq_length st g G) in Hge.
    assert (Hincl : incl (seq 0 (List.length ps)) g).
    { apply NoDup_length_incl.
      - apply (gr_nodup _ _ _ _ _ _ G).
      - rewrite length_seq. exact Hge.
      - intros i Hi. apply in_seq. pose proof (gr_bound _ _ _ _ _ _ G i Hi). lia. }
    intros i. split; [intros Hi; apply Hincl; apply in_seq; lia |].
    apply (gr_bound _ _ _ _ _ _ G). }
  induction fuel as [| fuel IH]; intros st g sq G S H; simpl in H.
  - destruct (Nat.ltb_spec (List.length (safe_sequence st)) (List.length ps));
      [discriminate | eapply Hexit; eauto].
  - destruct (Nat.ltb_spec (List.length (safe_sequence st)) (List.length ps));
      [| eapply Hexit; eauto].
    rewrite (pass_pure st g G) in H. cbn [bind] in H.
    destruct (fold_granted (seq 0 (List.length ps)) _ g (granted_reset st g G) S)
      as (g' & G' & S' & _).
    { intros i Hi. apply in_seq in Hi. lia. }
    destruct (allocated _); [| discriminate].
    eapply IH; eassumption.
Qed.

(** Completeness: as long as some unfinished process can be granted, the
    loop ends with [True]. *)
Lemma safe_loop_complete :
  (forall st h, granted ps m A Av st h -> (List.length h < List.length ps)%nat ->
     exists i, (i < List.length ps)%nat /\ ~ In i h /\
               grantable N (work st) i m = true) ->
  forall fuel st h,
    granted ps m A Av st h -> safe_order m A N Av h ->
    (List.length ps <= fuel + List.length h)%nat ->
    exists sq, safe_loop fuel ps m (Mat A) (Mat N) st = Ret (true, sq).
Proof.
  intros Hprog.
  induction fuel as [| fuel IH]; intros st h G S Hfuel; simpl.
  - rewrite (granted_seq_length st h G).
    destruct (Nat.ltb_spec (List.length h) (List.length ps)); [lia |].
    eexists; reflexivity.
  - rewrite (granted_seq_length st h G).
    destruct (Nat.ltb_spec (List.length h) (List.length ps)) as [Hlt |];
      [| eexists; reflexivity].
    rewrite (pass_pure st h G). cbn [bind].
    pose proof (granted_reset st h G) as G0.
    destruct (Hprog _ h G0 Hlt) as (i & Hi & Hnin & Hgr).
    assert (Hidx : forall k, In k (seq 0 (List.length ps)) -> (k < List.length ps)%nat)
      by (intros k Hk; apply in_seq in Hk; lia).
    assert (Ha : allocated (fold_left (grant_pure ps m A N) (seq 0 (List.length ps))
                    (mk_safe_st (work st) (finish st) (safe_sequence st) false)) = true).
    { apply (pass_progress _ _ h i G0 S Hidx); auto. apply in_seq. lia. }
    destruct (fold_granted _ _ h G0 S Hidx) as (h' & G' & S' & Hle & _ & Hal).
    rewrite Ha. apply (IH _ h' G' S').
    destruct (Hal Ha) as [Hf | Hlt']; [discriminate | lia].
Qed.

End Banker.

Lemma nth_repeat_false i k : nth i (repeat false k) true = true -> (k <= i)%nat.
Proof.
  revert i; induction k as [| k IH]; intros [| i]; simpl; intros H;
    try lia; try discriminate.
  apply IH in H. lia.
Qed.

Lemma granted_init ps m A Av :
  List.length Av = m ->
  granted ps m A Av (mk_safe_st Av (repeat false (List.length ps)) [] false) [].
Proof.
  intros HAv. constructor; simpl.
  - constructor.
  - intros i [].
  - apply repeat_length.
  - intros i Hi. split; [| intros []].
    intros H. apply nth_repeat_false in H. lia.
  - exact HAv.
  - intros j _. unfold held; simpl. lia.
  - reflexivity.
Qed.


(** ** Monotonicity in the available vector *)

Lemma safe_order_nodup m A N Av g : safe_order m A N Av g -> NoDup g.
Proof.
  induction 1 as [| g i _ IH Hnin _]; [constructor |].
  apply (Permutation_NoDup (Permutation_cons_append g i)).
  constructor; assumption.
Qed.

Lemma incl_or_missing (g h : list nat) :
  incl g h \/ exists i, In i g /\ ~ In i h.
Proof.
  induction g as [| x g IH].
  - left. intros i [].
  - destruct (in_dec Nat.eq_dec x h) as [Hx | Hx].
    + destruct IH as [Hincl | (i & Hi & Hni)].
      * left. intros i [<- | Hi]; auto.
      * right. exists i. split; [right; exact Hi | exact Hni].
    + right. exists x. split; [left; reflexivity | exact Hx].
Qed.

(** The first process of a completion order that is missing from [h] finds
    its need covered by what the processes of [h] held. *)
Lemma first_missing m A N Av h : forall g,
  nonneg_matrix A -> safe_order m A N Av g ->
  (exists i, In i g /\ ~ In i h) ->
  exists i, In i g /\ ~ In i h /\
    forall j, (j < m)%nat -> entry N i j <= nth j Av 0 + held A h j.
Proof.
  intros g HA S. induction S as [| g i S IH Hnin Hneed]; intros (x & Hx & Hnx).
  - destruct Hx.
  - destruct (incl_or_missing g h) as [Hincl | Hmiss].
    + exists i. split; [apply in_or_app; right; left; reflexivity |].
      split.
      * intros Hi. apply Hnx. apply in_app_or in Hx.
        destruct Hx as [Hx | [<- | []]]; [apply Hincl; exact Hx | exact Hi].
      * intros j Hj. specialize (Hneed j Hj).
        pose proof (held_subset A g h j HA (safe_order_nodup _ _ _ _ _ S) Hincl). lia.
    + destruct (IH Hmiss) as (k & Hk & Hnk & Hkneed).
      exists k. split; [apply in_or_app; left; exact Hk | split; assumption].
Qed.

Lemma missing_index n h :
  NoDup h -> (List.length h < n)%nat -> exists i, (i < n)%nat /\ ~ In i h.
Proof.
  intros Hnd Hlt. destruct (incl_or_missing (seq 0 n) h) as [Hincl | (i & Hi & Hni)].
  - pose proof (NoDup_incl_length (seq_NoDup n 0) Hincl) as H.
    rewrite length_seq in H. lia.
  - exists i. split; [apply in_seq in Hi; lia | exact Hni].
Qed.

Lemma safe_loop_monotone ps m A N Av Av' fuel sq :
  rectangular m A -> List.length A = List.length ps -> nonneg_matrix A ->
  rectangular m N -> List.length N = List.length ps ->
  List.length Av = m -> List.length Av' = m ->
  (forall j, (j < m)%nat -> int64_min <= nth j Av 0 <= nth j Av' 0) ->
  no_overflow (List.length ps) m A Av' ->
  safe_loop fuel ps m (Mat A) (Mat N)
    (mk_safe_st Av (repeat false (List.length ps)) [] false) = Ret (true, sq) ->
  exists sq',
    safe_loop (List.length ps) ps m (Mat A) (Mat N)
      (mk_safe_st Av' (repeat false (List.length ps)) [] false) = Ret (true, sq').
Proof.
  intros HA HlA HAnn HN HlN HAv HAv' Hle Hov' Hsafe.
  assert (Hov : no_overflow (List.length ps) m A Av).
  { intros j Hj. destruct (Hov' j Hj) as [_ Hhi]. specialize (Hle j Hj). lia. }
  destruct (safe_loop_sound ps m A N Av HA HlA HAnn Hov HN HlN fuel
              (mk_safe_st Av (repeat false (List.length ps)) [] false) [] sq)
    as (g & Sg & Hall).
  { apply granted_init; exact HAv. }
  { apply safe_nil. }
  { exact Hsafe. }
  apply (safe_loop_complete ps m A N Av' HA HlA HAnn Hov' HN HlN) with (h := []).
  - intros st h G Hlt.
    destruct (missing_index (List.length ps) h (gr_nodup _ _ _ _ _ _ G) Hlt)
      as (x & Hx & Hnx).
    destruct (first_missing m A N Av h g HAnn Sg) as (i & Hi & Hni & Hneed).
    { exists x. split; [apply Hall; exact Hx | exact Hnx]. }
    exists i. split; [apply Hall; exact Hi |]. split; [exact Hni |].
    apply grantable_spec. intros j Hj.
    rewrite (gr_work _ _ _ _ _ _ G j Hj).
    specialize (Hneed j Hj). specialize (Hle j Hj). lia.
  - apply granted_init; exact HAv'.
  - apply safe_nil.
  - simpl. lia.
Qed.

Lemma is_safe_state_shaped ps rs A M Av :
  A <> [] -> rectangular (List.length rs) A -> rectangular (List.length rs) M ->
  List.length M = List.length A ->
  is_safe_state ps rs A M Av
  = safe_loop (List.length ps) ps (List.length rs) (Mat A) (Mat (mat_sub64 M A))
      (mk_safe_st Av (repeat false (List.length ps)) [] false).
Proof.
  intros HAne HA HM Hlen. unfold is_safe_state, is_safe_state_fuel.
  assert (HMne : M <> []) by (intros ->; destruct A; [congruence | discriminate]).
  rewrite (np_array2_rect _ A HAne HA), (np_array2_rect _ M HMne HM). cbn [bind].
  rewrite (np_sub_shaped (List.length rs)) by assumption. reflexivity.
Qed.

Lemma all_available_nonneg_true Av : forall js,
  all_available_nonneg Av js = Ret true ->
  forall j, In j js -> 0 <= nth j Av 0.
Proof.
  induction js as [| k js IH]; simpl; intros H j Hj; [destruct Hj |].
  inv_bind H. unfold getitem in E.
  destruct (nth_error Av k) eqn:Ek; [| discriminate]. injection E as ->.
  destruct (Z.leb_spec 0 a) as [Ha |]; [| discriminate].
  destruct Hj as [<- | Hj]; [| apply IH; assumption].
  rewrite (nth_error_nth _ _ _ Ek). exact Ha.
Qed.

Lemma list_set_beyond {X : Type} (l : list X) (i : nat) (x : X) :
  (List.length l <= i)%nat -> list_set l i x = l.
Proof.
  revert i; induction l as [| y l IH]; intros [| i] Hi; simpl in *;
    try reflexivity; try lia.
  f_equal. apply IH. lia.
Qed.

Lemma bump_length Av j d : List.length (bump Av j d) = List.length Av.
Proof. apply list_set_length. Qed.

Lemma bump_ge Av j d k : 0 <= d -> nth k Av 0 <= nth k (bump Av j d) 0.
Proof.
  intros Hd. unfold bump.
  destruct (Nat.lt_ge_cases j (List.length Av)) as [Hj | Hj].
  - rewrite nth_list_set by exact Hj.
    destruct (Nat.eqb_spec k j) as [-> |]; lia.
  - rewrite list_set_beyond by exact Hj. lia.
Qed.

(** ** C5 *)

(** C5 (as amended).  Take an input that [validate_input] accepts, whose
    max-demand matrix and available vector have one column per resource and
    whose allocations are non-negative, and on which [is_safe_state] returns
    [True].  Increasing [Av[j]] by [d >= 0] keeps the verdict [True],
    provided that for every resource the increased available units plus the
    column total of the allocations still fit a signed 64-bit integer. *)
Theorem C5_monotone_within_int64 (emsg : exn -> string) (ps rs : list string)
  (A M : list (list Z)) (Av : list Z) (j : nat) (d : Z) (sq : list string) :
  validate_input emsg ps rs A M Av = Ret (true, "") ->
  rectangular (List.length rs) M ->
  List.length Av = List.length rs ->
  nonneg_matrix A ->
  int64_input A M (bump Av j d) ->
  0 <= d ->
  no_overflow (List.length ps) (List.length rs) A (bump Av j d) ->
  is_safe_state ps rs A M Av = Ret (true, sq) ->
  exists sq', is_safe_state ps rs A M (bump Av j d) = Ret (true, sq').
Proof.
  intros Hv HM HAv HAnn _ Hd Hov Hsafe.
  apply validate_input_accepts in Hv.
  destruct Hv as (_ & HAne & HA & HlA & _ & HlM & _ & Hnonneg).
  rewrite is_safe_state_shaped in Hsafe by (auto; congruence).
  rewrite is_safe_state_shaped by (auto; congruence).
  eapply safe_loop_monotone; try eassumption.
  - apply mat_sub64_rect; assumption.
  - rewrite mat_sub64_length; congruence.
  - rewrite bump_length; exact HAv.
  - intros k Hk. split; [| apply bump_ge; exact Hd].
    assert (0 <= nth k Av 0).
    { eapply all_available_nonneg_true; [exact Hnonneg |]. apply in_seq. lia. }
    unfold int64_min. lia.
Qed.

(** ** The fast path of the deadlock detector *)

Lemma all_processes_need_true need : forall idx,
  (forall i, In i idx -> exists row, getrow need i = Ret row /\ np_all_zero row = false) ->
  all_processes_need need idx = Ret true.
Proof.
  induction idx as [| i idx IH]; intros H; simpl; [reflexivity |].
  destruct (H i (or_introl eq_refl)) as (row & -> & Hz). cbn [bind]. rewrite Hz.
  apply IH. intros k Hk. apply H. right; exact Hk.
Qed.

Lemma need_matrix_inv A M N :
  need_matrix A M = Ret N ->
  exists a mx, np_array2 A = Ret a /\ np_array2 M = Ret mx /\ np_sub mx a = Ret N.
Proof.
  unfold need_matrix. intros H. inv_bind H. inv_bind H.
  exists a, a0. auto.
Qed.

Lemma np_all_zero_spec v : np_all_zero v = true <-> Forall (fun a => a = 0) v.
Proof.
  unfold np_all_zero. rewrite forallb_forall, Forall_forall. split.
  - intros H x Hx. apply H in Hx. apply Z.eqb_eq in Hx. congruence.
  - intros H x Hx. apply Z.eqb_eq. symmetry. apply H; exact Hx.
Qed.

Lemma detect_deadlock_fast_path find_cycle ps rs A M Av N :
  need_matrix A M = Ret N ->
  Forall (fun a => a = 0) Av ->
  (forall i, (i < List.length ps)%nat ->
     exists row, getrow N i = Ret row /\ np_all_zero row = false) ->
  detect_deadlock find_cycle ps rs A M Av = Ret (true, starvation_cycle ps).
Proof.
  intros HN HAv Hneed. apply need_matrix_inv in HN.
  destruct HN as (a & mx & Ea & Em & En).
  unfold detect_deadlock. rewrite Ea, Em. cbn [bind]. rewrite En. cbn [bind].
  apply np_all_zero_spec in HAv. rewrite HAv.
  rewrite all_processes_need_true; [reflexivity |].
  intros i Hi. apply Hneed. apply in_seq in Hi. lia.
Qed.

(** ** C3 *)

(** C3.  When every entry of the available vector is zero and no process has
    an all-zero row in the need matrix [N = M - A], [detect_deadlock] returns
    [True] with the synthetic cycle that pairs every process, in index
    order, with the node "Resources"; the answer is the same whatever
    [find_cycle] does, so the resource-allocation graph is not consulted. *)
Theorem C3_total_starvation_fast_path (find_cycle : DiGraph -> outcome (list edge))
  (ps rs : list string) (A M : list (list Z)) (Av : list Z) (N : ndarray2) :
  int64_input A M Av ->
  need_matrix A M = Ret N ->
  Forall (fun a => a = 0) Av ->
  (forall i, (i < List.length ps)%nat ->
     exists row, getrow N i = Ret row /\ np_all_zero row = false) ->
  detect_deadlock find_cycle ps rs A M Av
  = Ret (true, map (fun p => Pair p "Resources") ps).
Proof.
  intros _ HN HAv Hneed.
  apply (detect_deadlock_fast_path find_cycle ps rs A M Av N); assumption.
Qed.

(** ** C4 *)

Lemma sub64_exact a b :
  in_int64 a -> in_int64 b -> 0 <= b -> b <= a -> sub64 a b = a - b.
Proof.
  intros Ha Hb H0 Hle. unfold sub64. apply wrap64_in_range.
  unfold in_int64, int64_min, int64_max in *. lia.
Qed.

Lemma cyclic_wait_fast_path (find_cycle : DiGraph -> outcome (list edge))
  (p0 p1 r0 r1 : string) (a0 a1 m0 m1 : list Z) (h0 h1 : nat) :
  int64_input [a0; a1] [m0; m1] [0; 0] ->
  holds_only a0 h0 -> holds_only a1 h1 ->
  List.length m0 = 2%nat -> List.length m1 = 2%nat ->
  (forall i j, (i < 2)%nat -> (j < 2)%nat ->
     entry [a0; a1] i j <= entry [m0; m1] i j) ->
  0 < entry [m0; m1] 0 h1 - entry [a0; a1] 0 h1 ->
  0 < entry [m0; m1] 1 h0 - entry [a0; a1] 1 h0 ->
  detect_deadlock find_cycle [p0; p1] [r0; r1] [a0; a1] [m0; m1] [0; 0]
  = Ret (true, [Pair p0 "Resources"; Pair p1 "Resources"]).
Proof.
  intros (HA & HM & _) [Hh0 ->] [Hh1 ->] Hl0 Hl1 Hle Hn0 Hn1.
  destruct m0 as [| x0 [| y0 [| ? ?]]]; try discriminate.
  destruct m1 as [| x1 [| y1 [| ? ?]]]; try discriminate.
  - change [Pair p0 "Resources"; Pair p1 "Resources"]
      with (starvation_cycle [p0; p1]).
    apply (detect_deadlock_fast_path find_cycle _ _ _ _ _
             (Mat (mat_sub64 [[x0; y0]; [x1; y1]]
                     [[if Nat.eqb h0 0 then 1 else 0; if Nat.eqb h0 1 then 1 else 0];
                      [if Nat.eqb h1 0 then 1 else 0; if Nat.eqb h1 1 then 1 else 0]]))).
    + unfold need_matrix. simpl np_array2. cbn [bind].
      apply (np_sub_shaped 2); repeat constructor.
    + repeat constructor.
    + assert (Hx0 : in_int64 x0 /\ in_int64 y0 /\ in_int64 x1 /\ in_int64 y1).
      { inversion HM as [| ? ? Hr0 HM']; subst. inversion HM' as [| ? ? Hr1 _]; subst.
        inversion Hr0 as [| ? ? ? Hr0']; subst. inversion Hr0'; subst.
        inversion Hr1 as [| ? ? ? Hr1']; subst. inversion Hr1'; subst. auto. }
      destruct Hx0 as (Ix0 & Iy0 & Ix1 & Iy1).
      pose proof (Hle 0%nat 0%nat) as L00. pose proof (Hle 0%nat 1%nat) as L01.
      pose proof (Hle 1%nat 0%nat) as L10. pose proof (Hle 1%nat 1%nat) as L11.
      assert (I0 : in_int64 0) by (unfold in_int64, int64_min, int64_max; lia).
      assert (I1 : in_int64 1) by (unfold in_int64, int64_min, int64_max; lia).
      intros i Hi. simpl in Hi.
      destruct h0 as [| [| ?]]; try lia; destruct h1 as [| [| ?]]; try lia;
        unfold entry in *; cbn [nth Nat.eqb] in *;
        destruct i as [| [| ?]]; try lia;
        (eexists; split; [reflexivity |]);
        cbn [mat_sub64 vec_sub64 map combine fst snd nth np_all_zero forallb];
        rewrite ?sub64_exact by (auto; lia);
        repeat match goal with
               | |- context [0 =? ?a - ?b] => destruct (Z.eqb_spec 0 (a - b)); try lia
               end; cbn [andb]; reflexivity.
Qed.

(** C4.  On every two-process, two-resource input in which each process
    holds one unit of one resource and needs the resource held by the other,
    with nothing available and no allocation above the declared maximum,
    [detect_deadlock] returns [True] with the two entries of the fast path,
    [(p0, "Resources")] and [(p1, "Resources")].  Both processes occur in
    it, but the two entries do not form a cycle of edges, whatever the
    process names, unless both processes are called "Resources": the search
    for a cycle of hold and wait edges is never reached. *)
Theorem C4_cyclic_wait_returns_synthetic_cycle
  (find_cycle : DiGraph -> outcome (list edge))
  (p0 p1 r0 r1 : string) (a0 a1 m0 m1 : list Z) (h0 h1 : nat) :
  int64_input [a0; a1] [m0; m1] [0; 0] ->
  holds_only a0 h0 -> holds_only a1 h1 ->
  List.length m0 = 2%nat -> List.length m1 = 2%nat ->
  (forall i j, (i < 2)%nat -> (j < 2)%nat ->
     entry [a0; a1] i j <= entry [m0; m1] i j) ->
  0 < entry [m0; m1] 0 h1 - entry [a0; a1] 0 h1 ->
  0 < entry [m0; m1] 1 h0 - entry [a0; a1] 1 h0 ->
  detect_deadlock find_cycle [p0; p1] [r0; r1] [a0; a1] [m0; m1] [0; 0]
  = Ret (true, [Pair p0 "Resources"; Pair p1 "Resources"]) /\
  cycle_mentions p0 [Pair p0 "Resources"; Pair p1 "Resources"] /\
  cycle_mentions p1 [Pair p0 "Resources"; Pair p1 "Resources"] /\
  (edge_cycle [Pair p0 "Resources"; Pair p1 "Resources"] <->
   p0 = "Resources" /\ p1 = "Resources").
Proof.
  intros Hin Hh0 Hh1 Hl0 Hl1 Hle Hn0 Hn1.
  split; [exact (cyclic_wait_fast_path find_cycle p0 p1 r0 r1 a0 a1 m0 m1 h0 h1
                   Hin Hh0 Hh1 Hl0 Hl1 Hle Hn0 Hn1) |].
  split; [exists (Pair p0 "Resources"); simpl; auto |].
  split; [exists (Pair p1 "Resources"); simpl; auto |].
  unfold edge_cycle. split.
  - intros (_ & Hch & Hclose). cbn [chained edge_ends fst snd] in Hch.
    destruct Hch as [Hch _].
    specialize (Hclose (Pair p0 "Resources") (Pair p1 "Resources") eq_refl eq_refl).
    cbn [edge_ends fst snd] in Hclose. split; congruence.
  - intros [-> ->]. split; [discriminate |]. split.
    + cbn [chained edge_ends fst snd]. split; [reflexivity | exact I].
    + intros e1 en H1 Hn. cbn [hd_error rev app] in H1, Hn.
      injection H1 as <-. injection Hn as <-. reflexivity.
Qed.

(** ** C2 *)

(** C2.  On the input with no process and no resource [is_safe_state]
    returns [(True, [])], but [detect_deadlock] returns [True] (with an empty
    cycle): the fast path fires vacuously, although the graph the general
    path would search is empty.  ([validate_input] rejects this input, on
    the [IndexError] of [allocation[0]].) *)
Theorem C2_empty_input_reports_deadlock (emsg : exn -> string)
  (find_cycle : DiGraph -> outcome (list edge)) :
  is_safe_state [] [] [] [] [] = Ret (true, []) /\
  detect_deadlock find_cycle [] [] [] [] [] = Ret (true, []) /\
  build_graph [] [] Empty1 Empty1 [] = Ret empty_graph /\
  validate_input emsg [] [] [] [] []
  = Ret (false, ("Invalid input format: " ++ emsg IndexError)%string).
Proof. repeat split. Qed.

(** ** C6 *)

(** C6.  On the textbook example (five processes, three resources,
    [Av = [3,3,2]]) [is_safe_state] returns [True] with the sequence
    P1, P3, P4, P0, P2, which is a completion order consistent with the
    matrices; the input is one the validator accepts. *)
Theorem C6_textbook_example (emsg : exn -> string) (p0 p1 p2 p3 p4 r0 r1 r2 : string) :
  is_safe_state [p0; p1; p2; p3; p4] [r0; r1; r2]
    textbook_allocation textbook_max_demand textbook_available
  = Ret (true, [p1; p3; p4; p0; p2]) /\
  safe_order 3 textbook_allocation
    (mat_sub64 textbook_max_demand textbook_allocation) textbook_available
    [1; 3; 4; 0; 2]%nat /\
  validate_input emsg [p0; p1; p2; p3; p4] [r0; r1; r2]
    textbook_allocation textbook_max_demand textbook_available = Ret (true, "").
Proof.
  split; [vm_compute; reflexivity | split; [| vm_compute; reflexivity]].
  change [1; 3; 4; 0; 2]%nat with ((((([] ++ [1]) ++ [3]) ++ [4]) ++ [0]) ++ [2])%nat.
  repeat (apply safe_snoc;
          [ | simpl; intuition lia
            | intros j Hj; destruct j as [| [| [| ?]]]; try lia; vm_compute; discriminate ]).
  apply safe_nil.
Qed.

(** ** C7 *)

(** C7 (as amended).  Once both matrices are arrays, [validate_input] checks,
    in this order and stopping at the first failure: [len(processes)]
    against the rows of the allocation matrix, [len(resources)] against its
    columns, then the rows of the max-demand matrix against the rows of the
    allocation matrix, then [allocation <= max_demand], then
    [available >= 0].  The first two failures are reported with both counts;
    the third is reported with a fixed message without counts. *)
Theorem C7_dimension_checks_in_code_order (emsg : exn -> string) (ps rs : list string)
  (A M : list (list Z)) (Av : list Z) (a mx : ndarray2) :
  np_array2 A = Ret a -> np_array2 M = Ret mx ->
  (List.length ps <> len2 a ->
   validate_input emsg ps rs A M Av
   = Ret (false, msg_rows (List.length ps) (len2 a))) /\
  (forall row0, List.length ps = len2 a -> getrow a 0 = Ret row0 ->
     List.length rs <> List.length row0 ->
     validate_input emsg ps rs A M Av
     = Ret (false, msg_cols (List.length rs) (List.length row0))) /\
  (forall row0, List.length ps = len2 a -> getrow a 0 = Ret row0 ->
     List.length rs = List.length row0 -> len2 mx <> len2 a ->
     validate_input emsg ps rs A M Av
     = Ret (false, "Max demand matrix dimensions don't match allocation matrix")) /\
  (forall row0 violation,
     List.length ps = len2 a -> getrow a 0 = Ret row0 ->
     List.length rs = List.length row0 -> len2 mx = len2 a ->
     check_rows ps rs a mx (seq 0 (List.length ps)) = Ret violation ->
     match violation with
     | Some msg => validate_input emsg ps rs A M Av = Ret (false, msg)
     | None =>
         forall nonneg,
           all_available_nonneg Av (seq 0 (List.length rs)) = Ret nonneg ->
           validate_input emsg ps rs A M Av
           = Ret (if nonneg then (true, "")
                  else (false, "Available resources cannot be negative"))
     end).
Proof.
  intros Ea Em. unfold validate_input. rewrite Ea, Em. cbn [bind].
  split; [| split; [| split]].
  - intros Hne. apply Nat.eqb_neq in Hne. rewrite Hne. reflexivity.
  - intros row0 Hn E0 Hne. apply Nat.eqb_eq in Hn. rewrite Hn, E0. cbn [bind negb].
    apply Nat.eqb_neq in Hne. rewrite Hne. reflexivity.
  - intros row0 Hn E0 Hm Hne. apply Nat.eqb_eq in Hn. rewrite Hn, E0. cbn [bind negb].
    apply Nat.eqb_eq in Hm. rewrite Hm. cbn [negb].
    apply Nat.eqb_neq in Hne. rewrite Hne. reflexivity.
  - intros row0 violation Hn E0 Hm Hmx Hc.
    apply Nat.eqb_eq in Hn. rewrite Hn, E0. cbn [bind negb].
    apply Nat.eqb_eq in Hm. rewrite Hm. cbn [negb].
    apply Nat.eqb_eq in Hmx. rewrite Hmx. cbn [negb]. rewrite Hc. cbn [bind].
    destruct violation as [msg |]; [reflexivity |].
    intros nonneg Hav. rewrite Hav. cbn [bind]. destruct nonneg; reflexivity.
Qed.

(** The column check comes before the row check of the max-demand matrix. *)
Lemma validate_input_columns_before_max_rows :
  validate_input (fun _ => "") ["P0"] ["R0"] [[0; 0; 0]] [[0; 0; 0]; [0; 0; 0]] [0]
  = Ret (false, "Number of resources (1) doesn't match allocation matrix columns (3)").
Proof. vm_compute. reflexivity. Qed.

(** ** C8 *)

(** C8.  [validate_input] does not look at the column count of the
    max-demand matrix: there is an input with a rectangular max-demand matrix
    of the right number of rows and one column too many that it accepts,
    and on which neither engine can form [N = M - A]. *)
Theorem C8_max_demand_columns_unchecked (emsg : exn -> string)
  (find_cycle : DiGraph -> outcome (list edge)) :
  exists (ps rs : list string) (A M : list (list Z)) (Av : list Z),
    rectangular 3 M /\ List.length M = List.length ps /\
    List.length rs = 2%nat /\ rectangular 2 A /\
    validate_input emsg ps rs A M Av = Ret (true, "") /\
    need_matrix A M = Raise ValueError /\
    is_safe_state ps rs A M Av = Raise ValueError /\
    detect_deadlock find_cycle ps rs A M Av = Raise ValueError.
Proof.
  exists ["P0"], ["R0"; "R1"], [[0; 0]], [[0; 0; 0]], [0; 0].
  repeat split; repeat constructor.
Qed.

(** ** C9 *)

(** C9.  [validate_input] accepts an input whose only resource has no unit
    at all; [simulate] then divides by [total_resources = [0]]. *)
Theorem C9_zero_divisor_accepted (emsg : exn -> string) :
  validate_input emsg ["P0"] ["R0"] [[0]] [[0]] [0] = Ret (true, "") /\
  simulate_totals emsg ["P0"] ["R0"] [[0]] [[0]] [0] = Ret (Some ([0], [0])).
Proof. split; reflexivity. Qed.

(** ** The order of edge insertion *)

Lemma fold_out_app {S X : Type} (body : S -> X -> outcome S) : forall xs ys st,
  fold_out body st (xs ++ ys) = (st' <- fold_out body st xs ;; fold_out body st' ys).
Proof.
  induction xs as [| x xs IH]; intros ys st; simpl; [reflexivity |].
  destruct (body st x); simpl; auto.
Qed.

Lemma fold_out_map {S X Y : Type} (body : S -> Y -> outcome S) (f : X -> Y) :
  forall xs st, fold_out body st (map f xs) = fold_out (fun s x => body s (f x)) st xs.
Proof.
  induction xs as [| x xs IH]; intros st; simpl; [reflexivity |].
  destruct (body st (f x)); simpl; auto.
Qed.

(** The two nested [for] loops insert the edges in row-major order. *)
Lemma build_graph_row_major ps rs al nd av :
  build_graph ps rs al nd av
  = fold_out (fun G pr => edge_step al nd av (fst (fst pr)) (snd (fst pr)) G (snd pr))
      (nodes_only ps rs) (row_major ps rs).
Proof.
  unfold build_graph, row_major. fold (nodes_only ps rs).
  generalize (nodes_only ps rs) as G. generalize (enumerate ps) as ips.
  induction ips as [| ip ips IH]; intros G; simpl; [reflexivity |].
  rewrite fold_out_app, fold_out_map. simpl.
  destruct (fold_out _ G (enumerate rs)); simpl; auto.
Qed.


(** ** Concrete instances *)

Lemma in_int64_small z : -1000 <= z <= 1000 -> in_int64 z.
Proof. unfold in_int64, int64_min, int64_max. lia. Defined.

Lemma C1_witness :
  int64_input [[1]; [0]] [[1]; [1]] [0] /\
  validate_input exn_class_name ["P0"; "P1"] ["R0"] [[1]; [0]] [[1]; [1]] [0]
  = Ret (true, "") /\
  (forall safe sq,
     is_safe_state ["P0"; "P1"] ["R0"] [[1]; [0]] [[1]; [1]] [0] = Ret (safe, sq) ->
     (sq <> [] <-> safe = true) /\
     (safe = true -> Permutation sq ["P0"; "P1"]) /\
     (safe = false -> sq = [])) /\
  is_safe_state ["P0"; "P1"] ["R0"] [[1]; [0]] [[1]; [1]] [0] <> OutOfFuel /\
  (rectangular 1 [[1]; [1]] -> List.length [0] = 1%nat ->
   exists safe sq,
     is_safe_state ["P0"; "P1"] ["R0"] [[1]; [0]] [[1]; [1]] [0] = Ret (safe, sq)).
Proof.
  assert (H1 : int64_input [[1]; [0]] [[1]; [1]] [0])
    by (repeat split; repeat constructor; apply in_int64_small; lia).
  assert (H2 : validate_input exn_class_name ["P0"; "P1"] ["R0"] [[1]; [0]] [[1]; [1]] [0]
               = Ret (true, "")) by reflexivity.
  split; [exact H1 | split; [exact H2 |]].
  exact (C1_safe_sequence_iff_safe exn_class_name ["P0"; "P1"] ["R0"]
           [[1]; [0]] [[1]; [1]] [0] H1 H2).
Defined.

Lemma C3_witness :
  int64_input [[1; 0]; [0; 1]] [[1; 1]; [1; 1]] [0; 0] /\
  need_matrix [[1; 0]; [0; 1]] [[1; 1]; [1; 1]] = Ret (Mat [[0; 1]; [1; 0]]) /\
  Forall (fun a => a = 0) [0; 0] /\
  detect_deadlock find_no_cycle ["P0"; "P1"] ["R0"; "R1"]
    [[1; 0]; [0; 1]] [[1; 1]; [1; 1]] [0; 0]
  = Ret (true, [Pair "P0" "Resources"; Pair "P1" "Resources"]).
Proof.
  assert (H1 : int64_input [[1; 0]; [0; 1]] [[1; 1]; [1; 1]] [0; 0])
    by (repeat split; repeat constructor; apply in_int64_small; lia).
  assert (H2 : need_matrix [[1; 0]; [0; 1]] [[1; 1]; [1; 1]] = Ret (Mat [[0; 1]; [1; 0]]))
    by reflexivity.
  assert (H3 : Forall (fun a => a = 0) [0; 0]) by (repeat constructor).
  split; [exact H1 | split; [exact H2 | split; [exact H3 |]]].
  apply (C3_total_starvation_fast_path find_no_cycle ["P0"; "P1"] ["R0"; "R1"]
           [[1; 0]; [0; 1]] [[1; 1]; [1; 1]] [0; 0] (Mat [[0; 1]; [1; 0]]) H1 H2 H3).
  intros i Hi. destruct i as [| [| ?]].
  - exists [0; 1]. split; reflexivity.
  - exists [1; 0]. split; reflexivity.
  - simpl in Hi. lia.
Defined.

Lemma C4_witness :
  holds_only [1; 0] 0 /\ holds_only [0; 1] 1 /\
  detect_deadlock find_no_cycle ["P0"; "P1"] ["R0"; "R1"]
    [[1; 0]; [0; 1]] [[1; 1]; [1; 1]] [0; 0]
  = Ret (true, [Pair "P0" "Resources"; Pair "P1" "Resources"]) /\
  cycle_mentions "P0" [Pair "P0" "Resources"; Pair "P1" "Resources"] /\
  cycle_mentions "P1" [Pair "P0" "Resources"; Pair "P1" "Resources"] /\
  (edge_cycle [Pair "P0" "Resources"; Pair "P1" "Resources"] <->
   "P0" = "Resources" /\ "P1" = "Resources").
Proof.
  assert (H0 : holds_only [1; 0] 0) by (split; [lia | reflexivity]).
  assert (H1 : holds_only [0; 1] 1) by (split; [lia | reflexivity]).
  split; [exact H0 | split; [exact H1 |]].
  apply (C4_cyclic_wait_returns_synthetic_cycle find_no_cycle "P0" "P1" "R0" "R1"
           [1; 0] [0; 1] [1; 1] [1; 1] 0 1).
  - repeat split; repeat constructor; apply in_int64_small; lia.
  - exact H0.
  - exact H1.
  - reflexivity.
  - reflexivity.
  - intros i j Hi Hj. destruct i as [| [| ?]]; destruct j as [| [| ?]];
      try lia; vm_compute; discriminate.
  - vm_compute. reflexivity.
  - vm_compute. reflexivity.
Defined.

(** The cyclic-wait input of two processes: each holds one unit of one
    resource and needs the one held by the other.  What [detect_deadlock]
    returns has two entries and names both processes, but it is not a cycle
    of edges: both entries end in the node "Resources", where no entry
    starts. *)
Lemma C4_counterexample :
  ~ (exists cycle,
       detect_deadlock find_no_cycle ["P0"; "P1"] ["R0"; "R1"]
         [[1; 0]; [0; 1]] [[1; 1]; [1; 1]] [0; 0] = Ret (true, cycle) /\
       (List.length cycle = 2%nat \/ List.length cycle = 4%nat) /\
       edge_cycle cycle /\
       cycle_mentions "P0" cycle /\ cycle_mentions "P1" cycle).
Proof.
  intros (cycle & E & _ & (_ & Hch & _) & _).
  vm_compute in E. injection E as <-.
  cbn [chained edge_ends fst snd] in Hch. destruct Hch as [Hch _]. discriminate.
Defined.

Lemma C5_witness :
  validate_input exn_class_name ["P0"; "P1"] ["R0"] [[1]; [0]] [[1]; [1]] [0]
  = Ret (true, "") /\
  is_safe_state ["P0"; "P1"] ["R0"] [[1]; [0]] [[1]; [1]] [0]
  = Ret (true, ["P0"; "P1"]) /\
  exists sq',
    is_safe_state ["P0"; "P1"] ["R0"] [[1]; [0]] [[1]; [1]] (bump [0] 0 5)
    = Ret (true, sq').
Proof.
  assert (H1 : validate_input exn_class_name ["P0"; "P1"] ["R0"] [[1]; [0]] [[1]; [1]] [0]
               = Ret (true, "")) by reflexivity.
  assert (H2 : is_safe_state ["P0"; "P1"] ["R0"] [[1]; [0]] [[1]; [1]] [0]
               = Ret (true, ["P0"; "P1"])) by reflexivity.
  split; [exact H1 | split; [exact H2 |]].
  apply (C5_monotone_within_int64 exn_class_name ["P0"; "P1"] ["R0"]
           [[1]; [0]] [[1]; [1]] [0] 0 5 ["P0"; "P1"] H1).
  - repeat constructor.
  - reflexivity.
  - repeat constructor; lia.
  - repeat split; repeat constructor; apply in_int64_small; simpl; lia.
  - lia.
  - intros j Hj. destruct j as [| ?]; [| simpl in Hj; lia].
    vm_compute. split; discriminate.
  - exact H2.
Defined.

Lemma C7_witness :
  validate_input exn_class_name ["P0"] ["R0"] [[0]] [[0]; [0]] [0]
  = Ret (false, "Max demand matrix dimensions don't match allocation matrix") /\
  validate_input exn_class_name ["P0"; "P1"] ["R0"] [[0]] [[0]; [0]] [0]
  = Ret (false, "Number of processes (2) doesn't match allocation matrix rows (1)").
Proof.
  destruct (C7_dimension_checks_in_code_order exn_class_name ["P0"] ["R0"]
              [[0]] [[0]; [0]] [0] (Mat [[0]]) (Mat [[0]; [0]]) eq_refl eq_refl)
    as (_ & _ & H3 & _).
  destruct (C7_dimension_checks_in_code_order exn_class_name ["P0"; "P1"] ["R0"]
              [[0]] [[0]; [0]] [0] (Mat [[0]]) (Mat [[0]; [0]]) eq_refl eq_refl)
    as (H1 & _).
  split.
  - apply (H3 [0]); [reflexivity | reflexivity | reflexivity | simpl; lia].
  - apply H1. simpl. lia.
Defined.


(** ** Inputs on which a claim fails as stated *)

(** The validator accepts negative allocations, and numpy's int64 additions
    wrap around: in both cases more available units turn a safe state
    unsafe. *)
Lemma C5_counterexample :
  (validate_input exn_class_name ["P0"; "P1"] ["R0"] [[-10]; [2]] [[-5]; [5]] [3]
   = Ret (true, "") /\
   is_safe_state ["P0"; "P1"] ["R0"] [[-10]; [2]] [[-5]; [5]] [3]
   = Ret (true, ["P1"; "P0"]) /\
   is_safe_state ["P0"; "P1"] ["R0"] [[-10]; [2]] [[-5]; [5]] (bump [3] 0 2)
   = Ret (false, [])) /\
  (validate_input exn_class_name ["P0"; "P1"] ["R0"] [[1]; [0]] [[1]; [1]] [0]
   = Ret (true, "") /\
   is_safe_state ["P0"; "P1"] ["R0"] [[1]; [0]] [[1]; [1]] [0]
   = Ret (true, ["P0"; "P1"]) /\
   validate_input exn_class_name ["P0"; "P1"] ["R0"] [[1]; [0]] [[1]; [1]]
     (bump [0] 0 int64_max) = Ret (true, "") /\
   is_safe_state ["P0"; "P1"] ["R0"] [[1]; [0]] [[1]; [1]] (bump [0] 0 int64_max)
   = Ret (false, [])).
Proof. vm_compute. repeat split. Qed.

(** A row-count mismatch of the max-demand matrix is reported without the
    two counts. *)
Lemma C7_counterexample :
  ~ (exists msg,
       validate_input exn_class_name ["P0"] ["R0"] [[0]] [[0]; [0]] [0]
       = Ret (false, msg) /\
       mentions (str_nat 1) msg = true /\ mentions (str_nat 2) msg = true).
Proof.
  intros (msg & H & H1 & H2).
  vm_compute in H. injection H as <-. vm_compute in H1. discriminate.
Qed.

(** * Further properties of the validator *)

Lemma getitem2_nth rows i j :
  (i < List.length rows)%nat -> (j < List.length (nth i rows []))%nat ->
  getitem2 (Mat rows) i j = Ret (entry rows i j).
Proof.
  intros Hi Hj. unfold getitem2; simpl.
  rewrite (getitem_nth rows i [] Hi). cbn [bind].
  apply getitem_nth. exact Hj.
Qed.

Lemma getitem_beyond {X : Type} (l : list X) (i : nat) :
  (List.length l <= i)%nat -> getitem l i = Raise IndexError.
Proof.
  intros H. unfold getitem. apply nth_error_None in H. rewrite H. reflexivity.
Qed.

Lemma check_row_app ps rs a mx i : forall js1 js2,
  check_row ps rs a mx i (js1 ++ js2)
  = (r <- check_row ps rs a mx i js1 ;;
     match r with
     | Some msg => Ret (Some msg)
     | None => check_row ps rs a mx i js2
     end).
Proof.
  induction js1 as [| j js1 IH]; intros js2; simpl; [reflexivity |].
  destruct (getitem2 a i j) as [a_ij | |]; simpl; try reflexivity.
  destruct (getitem2 mx i j) as [m_ij | |]; simpl; try reflexivity.
  destruct (m_ij <? a_ij); [| apply IH].
  destruct (getitem ps i); simpl; try reflexivity.
  destruct (getitem rs j); reflexivity.
Qed.

Lemma check_rows_app ps rs a mx : forall idx1 idx2,
  check_rows ps rs a mx (idx1 ++ idx2)
  = (r <- check_rows ps rs a mx idx1 ;;
     match r with
     | Some msg => Ret (Some msg)
     | None => check_rows ps rs a mx idx2
     end).
Proof.
  induction idx1 as [| i idx1 IH]; intros idx2; simpl; [reflexivity |].
  destruct (check_row ps rs a mx i _) as [[msg |] | |]; simpl; try reflexivity.
  apply IH.
Qed.

(** A row without violation among the columns [js]. *)
Lemma check_row_clean ps rs A M i : forall js,
  rectangular (List.length rs) A -> (i < List.length A)%nat -> (i < List.length M)%nat ->
  (forall j, In j js ->
     (j < List.length rs)%nat /\ (j < List.length (nth i M []))%nat /\
     entry A i j <= entry M i j) ->
  check_row ps rs (Mat A) (Mat M) i js = Ret None.
Proof.
  induction js as [| j js IH]; intros HA Hi Hi' H; simpl; [reflexivity |].
  destruct (H j (or_introl eq_refl)) as (Hj & Hjm & Hle).
  rewrite (getitem2_entry (List.length rs)) by assumption. cbn [bind].
  rewrite getitem2_nth by assumption. cbn [bind].
  destruct (Z.ltb_spec (entry M i j) (entry A i j)); [lia |].
  apply IH; auto. intros k Hk; apply H; right; exact Hk.
Qed.

Lemma check_row_clean_inv ps rs A M i : forall js,
  rectangular (List.length rs) A -> (i < List.length A)%nat -> (i < List.length M)%nat ->
  (forall j, In j js -> (j < List.length rs)%nat) ->
  check_row ps rs (Mat A) (Mat M) i js = Ret None ->
  forall j, In j js ->
    (j < List.length (nth i M []))%nat /\ entry A i j <= entry M i j.
Proof.
  induction js as [| j js IH]; intros HA Hi Hi' Hjs H k Hk; [destruct Hk |].
  simpl in H.
  assert (Hj : (j < List.length rs)%nat) by (apply Hjs; left; reflexivity).
  rewrite (getitem2_entry (List.length rs)) in H by assumption. cbn [bind] in H.
  destruct (Nat.lt_ge_cases j (List.length (nth i M []))) as [Hjm | Hjm].
  - rewrite getitem2_nth in H by assumption. cbn [bind] in H.
    destruct (Z.ltb_spec (entry M i j) (entry A i j)) as [Hlt | Hge].
    + destruct (getitem ps i); simpl in H; try discriminate.
      destruct (getitem rs j); simpl in H; discriminate.
    + destruct Hk as [<- | Hk]; [split; assumption |].
      apply IH; auto. intros k' Hk'; apply Hjs; right; exact Hk'.
  - unfold getitem2 in H at 1. simpl in H.
    rewrite (getitem_nth M i [] Hi') in H. cbn [bind] in H.
    rewrite getitem_beyond in H by exact Hjm. discriminate.
Qed.

Lemma check_rows_clean ps rs A M : forall idx,
  rectangular (List.length rs) A ->
  (forall i, In i idx -> (i < List.length A)%nat /\ (i < List.length M)%nat) ->
  (forall i j, In i idx -> (j < List.length rs)%nat ->
     (j < List.length (nth i M []))%nat /\ entry A i j <= entry M i j) ->
  check_rows ps rs (Mat A) (Mat M) idx = Ret None.
Proof.
  induction idx as [| i idx IH]; intros HA Hidx H; simpl; [reflexivity |].
  destruct (Hidx i (or_introl eq_refl)) as [Hi Hi'].
  rewrite check_row_clean; auto.
  - cbn [bind]. apply IH; auto.
    + intros k Hk; apply Hidx; right; exact Hk.
    + intros k j Hk Hj; apply H; [right; exact Hk | exact Hj].
  - intros j Hj. apply in_seq in Hj.
    destruct (H i j (or_introl eq_refl)) as [Hjm Hle]; [lia |].
    repeat split; auto; lia.
Qed.

Lemma check_rows_clean_inv ps rs A M : forall idx,
  rectangular (List.length rs) A ->
  (forall i, In i idx -> (i < List.length A)%nat /\ (i < List.length M)%nat) ->
  check_rows ps rs (Mat A) (Mat M) idx = Ret None ->
  forall i j, In i idx -> (j < List.length rs)%nat ->
    (j < List.length (nth i M []))%nat /\ entry A i j <= entry M i j.
Proof.
  induction idx as [| i idx IH]; intros HA Hidx H k j Hk Hj; [destruct Hk |].
  simpl in H. destruct (Hidx i (or_introl eq_refl)) as [Hi Hi'].
  destruct (check_row ps rs (Mat A) (Mat M) i (seq 0 (List.length rs)))
    as [[msg |] | |] eqn:E; simpl in H; try discriminate.
  destruct Hk as [<- | Hk].
  - apply (check_row_clean_inv ps rs A M i (seq 0 (List.length rs))); auto.
    + intros j' Hj'. apply in_seq in Hj'. lia.
    + apply in_seq. lia.
  - apply IH; auto. intros k' Hk'; apply Hidx; right; exact Hk'.
Qed.

Lemma all_available_nonneg_clean Av : forall js,
  (forall j, In j js -> (j < List.length Av)%nat /\ 0 <= nth j Av 0) ->
  all_available_nonneg Av js = Ret true.
Proof.
  induction js as [| j js IH]; intros H; simpl; [reflexivity |].
  destruct (H j (or_introl eq_refl)) as [Hj Hle].
  rewrite (getitem_nth Av j 0 Hj). cbn [bind].
  destruct (Z.leb_spec 0 (nth j Av 0)); [| lia].
  apply IH. intros k Hk; apply H; right; exact Hk.
Qed.

Lemma all_available_nonneg_inv Av : forall js,
  all_available_nonneg Av js = Ret true ->
  forall j, In j js -> (j < List.length Av)%nat /\ 0 <= nth j Av 0.
Proof.
  intros js H j Hj. split; [| eapply all_available_nonneg_true; eassumption].
  revert H j Hj. induction js as [| k js IH]; intros H j Hj; [destruct Hj |].
  simpl in H. inv_bind H. unfold getitem in E.
  destruct (nth_error Av k) eqn:Ek; [| discriminate]. injection E as ->.
  destruct (0 <=? a); [| discriminate].
  destruct Hj as [<- | Hj]; [| apply IH; assumption].
  apply nth_error_Some. congruence.
Qed.

Lemma rectangular_unique_nonempty c rows :
  rows <> [] -> rectangular c rows -> c = List.length (hd [] rows).
Proof.
  destruct rows as [| r rows]; [congruence |]. intros _ H.
  inversion H; subst. reflexivity.
Qed.

Lemma validate_input_acceptable (emsg : exn -> string) (ps rs : list string)
  (A M : list (list Z)) (Av : list Z) :
  validate_input emsg ps rs A M Av = Ret (true, "") <-> acceptable ps rs A M Av.
Proof.
  split.
  - intros H. apply validate_input_accepts in H.
    destruct H as (_ & HAne & HA & HlA & HM & HlM & Hc & Hav).
    unfold acceptable. repeat (split; [assumption |]).
    split.
    + intros i j Hi Hj.
      apply (check_rows_clean_inv ps rs A M (seq 0 (List.length ps))); auto.
      * intros k Hk. apply in_seq in Hk. lia.
      * apply in_seq. lia.
    + intros j Hj. apply (all_available_nonneg_inv Av _ Hav). apply in_seq. lia.
  - intros (HAne & HlA & HA & HlM & (c & HM) & Hle & Hav).
    assert (HMne : M <> []).
    { intros ->. destruct A; [congruence |]. destruct ps; discriminate. }
    unfold validate_input.
    rewrite (np_array2_rect _ A HAne HA), (np_array2_rect _ M HMne HM). cbn [bind].
    simpl len2. rewrite HlA, Nat.eqb_refl. cbn [negb].
    destruct A as [| r0 A']; [congruence |]. simpl getrow. unfold getitem; simpl nth_error.
    cbn [bind].
    assert (Hr0 : List.length r0 = List.length rs) by (inversion HA; assumption).
    rewrite Hr0, Nat.eqb_refl. cbn [negb].
    rewrite HlM, Nat.eqb_refl. cbn [negb].
    rewrite check_rows_clean; auto.
    + cbn [bind]. rewrite all_available_nonneg_clean; [reflexivity |].
      intros j Hj. apply in_seq in Hj. apply Hav. lia.
    + intros i Hi. apply in_seq in Hi. lia.
    + intros i j Hi Hj. apply in_seq in Hi. apply Hle; [lia | exact Hj].
Qed.

Lemma check_row_terminates ps rs a mx i js : terminates (check_row ps rs a mx i js).
Proof.
  induction js as [| j js IH]; simpl; [discriminate |].
  apply bind_terminates; [apply getitem2_terminates | intros a_ij _].
  apply bind_terminates; [apply getitem2_terminates | intros m_ij _].
  destruct (m_ij <? a_ij); [| exact IH].
  apply bind_terminates; [apply getitem_terminates | intros p_i _].
  apply bind_terminates; [apply getitem_terminates | intros r_j _]. discriminate.
Qed.

Lemma check_rows_terminates ps rs a mx idx : terminates (check_rows ps rs a mx idx).
Proof.
  induction idx as [| i idx IH]; simpl; [discriminate |].
  apply bind_terminates; [apply check_row_terminates | intros [msg |] _];
    [discriminate | exact IH].
Qed.

Lemma all_available_nonneg_terminates Av js : terminates (all_available_nonneg Av js).
Proof.
  induction js as [| j js IH]; simpl; [discriminate |].
  apply bind_terminates; [apply getitem_terminates | intros av_j _].
  destruct (0 <=? av_j); [exact IH | discriminate].
Qed.

Lemma check_row_message ps rs a mx i : forall js msg,
  check_row ps rs a mx i js = Ret (Some msg) -> msg <> "".
Proof.
  induction js as [| j js IH]; intros msg H; simpl in H; [discriminate |].
  inv_bind H. inv_bind H. destruct (a1 <? a0); [| eapply IH; exact H].
  inv_bind H. inv_bind H. injection H as <-. unfold msg_exceeds. simpl. discriminate.
Qed.

Lemma check_rows_message ps rs a mx : forall idx msg,
  check_rows ps rs a mx idx = Ret (Some msg) -> msg <> "".
Proof.
  induction idx as [| i idx IH]; intros msg H; simpl in H; [discriminate |].
  inv_bind H. destruct a0 as [msg' |].
  - injection H as <-. eapply check_row_message; exact E.
  - eapply IH; exact H.
Qed.

Lemma validate_input_answers (emsg : exn -> string) (ps rs : list string)
  (A M : list (list Z)) (Av : list Z) :
  exists ok msg,
    validate_input emsg ps rs A M Av = Ret (ok, msg) /\ (ok = true <-> msg = "").
Proof.
  unfold validate_input.
  match goal with |- context [try_except ?c _] => set (body := c) end.
  assert (Hterm : terminates body).
  { unfold body.
    apply bind_terminates; [apply np_array2_terminates | intros a _].
    apply bind_terminates; [apply np_array2_terminates | intros mx _].
    destruct (negb _); [discriminate |].
    apply bind_terminates; [apply getrow_terminates | intros row0 _].
    destruct (negb _); [discriminate |]. destruct (negb _); [discriminate |].
    apply bind_terminates; [apply check_rows_terminates | intros [msg |] _];
      [discriminate |].
    apply bind_terminates; [apply all_available_nonneg_terminates | intros nonneg _].
    destruct (negb nonneg); discriminate. }
  assert (Hmsg : forall ok msg, body = Ret (ok, msg) -> (ok = true <-> msg = "")).
  { unfold body. intros ok msg H.
    inv_bind H. inv_bind H.
    destruct (negb _).
    { injection H as <- <-. unfold msg_rows; simpl. split; discriminate. }
    inv_bind H.
    destruct (negb _).
    { injection H as <- <-. unfold msg_cols; simpl. split; discriminate. }
    destruct (negb _).
    { injection H as <- <-. split; discriminate. }
    inv_bind H. destruct a2 as [msg' |].
    { injection H as <- <-. apply check_rows_message in E2.
      split; [discriminate | contradiction]. }
    inv_bind H. destruct a2; simpl in H; injection H as <- <-.
    - split; reflexivity.
    - split; discriminate. }
  destruct body as [[ok msg] | e |] eqn:E; simpl.
  - exists ok, msg. split; [reflexivity | apply Hmsg; reflexivity].
  - eexists false, _. split; [reflexivity |]. simpl. split; discriminate.
  - exfalso. apply Hterm. reflexivity.
Qed.

(** ** The allocation check *)

Lemma seq_split i n :
  (i < n)%nat -> seq 0 n = seq 0 i ++ i :: seq (S i) (n - S i).
Proof.
  intros H. replace n with (i + S (n - S i))%nat at 1 by lia.
  rewrite seq_app. reflexivity.
Qed.

Lemma first_excess_reported (emsg : exn -> string) (ps rs : list string)
  (A M : list (list Z)) (Av : list Z) (i j : nat) :
  List.length A = List.length ps -> rectangular (List.length rs) A ->
  List.length M = List.length ps -> (exists c, rectangular c M) ->
  (i < List.length ps)%nat -> (j < List.length rs)%nat ->
  (j < List.length (nth i M []))%nat ->
  entry M i j < entry A i j ->
  (forall i' j', (i' < List.length ps)%nat -> (j' < List.length rs)%nat ->
     before i' j' i j ->
     (j' < List.length (nth i' M []))%nat /\ entry A i' j' <= entry M i' j') ->
  validate_input emsg ps rs A M Av
  = Ret (false, msg_exceeds (nth i ps "") (entry A i j) (nth j rs "") (entry M i j)).
Proof.
  intros HlA HA HlM (c & HM) Hi Hj Hjm Hgt Hbefore.
  assert (HAne : A <> []) by (intros ->; simpl in HlA; lia).
  assert (HMne : M <> []) by (intros ->; simpl in HlM; lia).
  unfold validate_input.
  rewrite (np_array2_rect _ A HAne HA), (np_array2_rect _ M HMne HM). cbn [bind].
  simpl len2. rewrite HlA, Nat.eqb_refl. cbn [negb].
  destruct A as [| r0 A'] eqn:EA; [congruence |]. rewrite <- EA in *.
  assert (Hrow0 : getrow (Mat A) 0 = Ret r0) by (rewrite EA; reflexivity).
  rewrite Hrow0. cbn [bind].
  assert (Hr0 : List.length r0 = List.length rs).
  { rewrite EA in HA. inversion HA; assumption. }
  rewrite Hr0, Nat.eqb_refl. cbn [negb].
  rewrite HlM, Nat.eqb_refl. cbn [negb].
  rewrite (seq_split i (List.length ps) Hi), check_rows_app.
  rewrite check_rows_clean; auto.
  - cbn [bind]. simpl check_rows.
    rewrite (seq_split j (List.length rs) Hj), check_row_app.
    rewrite check_row_clean; auto; try lia.
    + cbn [bind]. simpl check_row.
      rewrite (getitem2_entry (List.length rs)) by (auto; lia). cbn [bind].
      rewrite getitem2_nth by (auto; lia). cbn [bind].
      destruct (Z.ltb_spec (entry M i j) (entry A i j)); [| lia].
      rewrite (getitem_nth ps i "" Hi), (getitem_nth rs j "" Hj). reflexivity.
    + intros j' Hj'. apply in_seq in Hj'.
      assert (Hb : before i j' i j) by (right; lia).
      assert (Hj'' : (j' < List.length rs)%nat) by lia.
      destruct (Hbefore i j' Hi Hj'' Hb) as [H1 H2].
      repeat split; auto.
  - intros i' Hi'. apply in_seq in Hi'. lia.
  - intros i' j' Hi' Hj'. apply in_seq in Hi'.
    apply Hbefore; [lia | exact Hj' | left; lia].
Qed.

(** ** The availability check *)

Lemma all_available_nonneg_negative Av j : forall len s,
  (s <= j < s + len)%nat -> (j < List.length Av)%nat -> nth j Av 0 < 0 ->
  all_available_nonneg Av (seq s len) = Ret false.
Proof.
  induction len as [| len IH]; intros s Hs Hj Hneg; [lia |].
  simpl. rewrite (getitem_nth Av s 0) by lia. cbn [bind].
  destruct (Z.leb_spec 0 (nth s Av 0)) as [Hge |]; [| reflexivity].
  apply IH; auto. destruct (Nat.eq_dec s j) as [-> |]; lia.
Qed.

(** X4.  When the dimensions agree and no allocation exceeds its maximum, a
    negative available entry of any resource makes the validator reject the
    input with the message "Available resources cannot be negative". *)
Theorem validate_input_rejects_negative_available (emsg : exn -> string)
  (ps rs : list string) (A M : list (list Z)) (Av : list Z) (j : nat) :
  A <> [] -> List.length A = List.length ps -> rectangular (List.length rs) A ->
  List.length M = List.length ps -> (exists c, rectangular c M) ->
  (forall i k, (i < List.length ps)%nat -> (k < List.length rs)%nat ->
     (k < List.length (nth i M []))%nat /\ entry A i k <= entry M i k) ->
  (j < List.length rs)%nat -> (j < List.length Av)%nat -> nth j Av 0 < 0 ->
  validate_input emsg ps rs A M Av = Ret (false, "Available resources cannot be negative").
Proof.
  intros HAne HlA HA HlM (c & HM) Hle Hj HjAv Hneg.
  assert (HMne : M <> []).
  { intros ->. destruct A; [congruence |]. destruct ps; discriminate. }
  unfold validate_input.
  rewrite (np_array2_rect _ A HAne HA), (np_array2_rect _ M HMne HM). cbn [bind].
  simpl len2. rewrite HlA, Nat.eqb_refl. cbn [negb].
  destruct A as [| r0 A'] eqn:EA; [congruence |]. rewrite <- EA in *.
  assert (Hrow0 : getrow (Mat A) 0 = Ret r0) by (rewrite EA; reflexivity).
  rewrite Hrow0. cbn [bind].
  assert (Hr0 : List.length r0 = List.length rs).
  { rewrite EA in HA. inversion HA; assumption. }
  rewrite Hr0, Nat.eqb_refl. cbn [negb].
  rewrite HlM, Nat.eqb_refl. cbn [negb].
  rewrite check_rows_clean; auto.
  - cbn [bind].
    rewrite (all_available_nonneg_negative Av j) by (auto; lia). reflexivity.
  - intros i Hi. apply in_seq in Hi. lia.
  - intros i k Hi Hk. apply in_seq in Hi. apply Hle; [lia | exact Hk].
Qed.

(** ** Ragged input *)

Lemma np_array2_ragged l : ragged l -> np_array2 l = Raise ValueError.
Proof.
  intros (r1 & r2 & H1 & H2 & Hne).
  destruct l as [| r rest]; [destruct H1 |]. simpl.
  destruct (forallb (same_length (List.length r)) rest) eqn:E; [| reflexivity].
  exfalso. rewrite forallb_forall in E.
  assert (Hall : forall x, In x (r :: rest) -> List.length x = List.length r).
  { intros x [<- | Hx]; [reflexivity |]. apply E in Hx. apply Nat.eqb_eq in Hx. exact Hx. }
  apply Hne. rewrite (Hall r1 H1), (Hall r2 H2). reflexivity.
Qed.

Lemma np_array2_cases l :
  (exists a, np_array2 l = Ret a) \/ np_array2 l = Raise ValueError.
Proof.
  destruct l as [| r rest]; simpl; [left; eexists; reflexivity |].
  destruct (forallb _ rest); [left; eexists; reflexivity | right; reflexivity].
Qed.

(** X5.  A ragged allocation or max-demand matrix is rejected as an input
    format error carrying numpy's message; the exception does not escape. *)
Theorem validate_input_rejects_ragged (emsg : exn -> string) (ps rs : list string)
  (A M : list (list Z)) (Av : list Z) :
  ragged A \/ ragged M ->
  validate_input emsg ps rs A M Av
  = Ret (false, ("Invalid input format: " ++ emsg ValueError)%string).
Proof.
  intros H. unfold validate_input.
  destruct (np_array2_cases A) as [[a Ea] | Ea]; rewrite Ea; [| reflexivity].
  destruct H as [H | H].
  - apply np_array2_ragged in H. congruence.
  - apply np_array2_ragged in H. rewrite H. reflexivity.
Qed.

(** * Further properties of the safety engine *)

Lemma safe_loop_order ps m A N Av :
  rectangular m A -> List.length A = List.length ps -> nonneg_matrix A ->
  no_overflow (List.length ps) m A Av ->
  rectangular m N -> List.length N = List.length ps ->
  forall fuel st g sq,
    granted ps m A Av st g -> safe_order m A N Av g ->
    safe_loop fuel ps m (Mat A) (Mat N) st = Ret (true, sq) ->
    exists g', safe_order m A N Av g' /\
               (forall i, (i < List.length ps)%nat <-> In i g') /\
               sq = names_of ps g'.
Proof.
  intros HA HlA HAnn Hov HN HlN.
  assert (Hexit : forall st g,
            granted ps m A Av st g -> safe_order m A N Av g ->
            (List.length ps <= List.length (safe_sequence st))%nat ->
            exists g', safe_order m A N Av g' /\
                       (forall i, (i < List.length ps)%nat <-> In i g') /\
                       safe_sequence st = names_of ps g').
  { intros st g G S Hge. exists g. split; [exact S |].
    split; [| apply (gr_seq _ _ _ _ _ _ G)].
    rewrite (granted_seq_length _ _ _ _ st g G) in Hge.
    assert (Hincl : incl (seq 0 (List.length ps)) g).
    { apply NoDup_length_incl.
      - apply (gr_nodup _ _ _ _ _ _ G).
      - rewrite length_seq. exact Hge.
      - intros i Hi. apply in_seq. pose proof (gr_bound _ _ _ _ _ _ G i Hi). lia. }
    intros i. split; [intros Hi; apply Hincl; apply in_seq; lia |].
    apply (gr_bound _ _ _ _ _ _ G). }
  induction fuel as [| fuel IH]; intros st g sq G S H; simpl in H.
  - destruct (Nat.ltb_spec (List.length (safe_sequence st)) (List.length ps));
      [discriminate |].
    injection H as <-. eapply Hexit; eauto.
  - destruct (Nat.ltb_spec (List.length (safe_sequence st)) (List.length ps));
      [| injection H as <-; eapply Hexit; eauto].
    rewrite (pass_pure ps m A N Av HA HlA HN HlN st g G) in H. cbn [bind] in H.
    destruct (fold_granted ps m A N Av HA HlA HAnn Hov HlN
                (seq 0 (List.length ps)) _ g (granted_reset _ _ _ _ st g G) S)
      as (g' & G' & S' & _).
    { intros i Hi. apply in_seq in Hi. lia. }
    destruct (allocated _); [| discriminate].
    eapply IH; eassumption.
Qed.

Lemma is_safe_state_no_process rs M Av :
  List.length M = 0%nat -> is_safe_state [] rs [] M Av = Ret (true, []).
Proof. intros H. destruct M; [reflexivity | discriminate]. Qed.

Lemma banker_input_loop ps rs A M Av :
  banker_input ps rs A M Av -> ps <> [] ->
  is_safe_state ps rs A M Av
  = safe_loop (List.length ps) ps (List.length rs) (Mat A) (Mat (mat_sub64 M A))
      (mk_safe_st Av (repeat false (List.length ps)) [] false).
Proof.
  intros (HlA & HA & HlM & HM & _) Hps.
  apply is_safe_state_shaped; auto; [| congruence].
  intros ->. destruct ps; [congruence | discriminate].
Qed.

Lemma sequence_completion_order (ps rs : list string)
  (A M : list (list Z)) (Av : list Z) (sq : list string) :
  banker_input ps rs A M Av ->
  is_safe_state ps rs A M Av = Ret (true, sq) ->
  exists g, completion_order ps rs A M Av g /\ sq = names_of ps g.
Proof.
  intros HB H.
  destruct ps as [| p ps'] eqn:Eps.
  - destruct HB as (HlA & _ & HlM & _).
    destruct A; [| discriminate]. rewrite is_safe_state_no_process in H by exact HlM.
    injection H as <-. exists []. split; [| reflexivity].
    split; [apply safe_nil |]. intros i. simpl. split; [lia | tauto].
  - rewrite <- Eps in *. assert (Hps : ps <> []) by (rewrite Eps; discriminate).
    rewrite (banker_input_loop ps rs A M Av HB Hps) in H.
    destruct HB as (HlA & HA & HlM & HM & HlAv & HAnn & Hov).
    destruct (safe_loop_order ps (List.length rs) A (mat_sub64 M A) Av HA HlA HAnn Hov)
      with (fuel := List.length ps)
           (st := mk_safe_st Av (repeat false (List.length ps)) [] false)
           (g := @nil nat) (sq := sq) as (g & S & Hall & Hsq).
    + apply mat_sub64_rect; assumption.
    + rewrite mat_sub64_length; congruence.
    + apply granted_init; exact HlAv.
    + apply safe_nil.
    + exact H.
    + exists g. split; [split; assumption | exact Hsq].
Qed.


(** ** Total starvation *)

Lemma nth_vec_sub64 x y j :
  List.length y = List.length x -> (j < List.length x)%nat ->
  nth j (vec_sub64 x y) 0 = sub64 (nth j x 0) (nth j y 0).
Proof.
  revert y j; induction x as [| a x IH]; intros [| b y] [| j] Hl Hj;
    simpl in *; try lia; try reflexivity.
  apply IH; lia.
Qed.

Lemma nth_mat_sub64 : forall M A i,
  List.length M = List.length A -> (i < List.length A)%nat ->
  nth i (mat_sub64 M A) [] = vec_sub64 (nth i M []) (nth i A []).
Proof.
  induction M as [| x M IH]; intros [| y A] [| i] Hl Hi;
    simpl in *; try lia; try reflexivity.
  apply IH; lia.
Qed.

Lemma entry_mat_sub64 m M A i j :
  rectangular m M -> rectangular m A -> List.length M = List.length A ->
  (i < List.length A)%nat -> (j < m)%nat ->
  entry (mat_sub64 M A) i j = sub64 (entry M i j) (entry A i j).
Proof.
  intros HM HA Hl Hi Hj. unfold entry. rewrite nth_mat_sub64 by assumption.
  apply nth_vec_sub64.
  - rewrite !(rectangular_nth m); auto; lia.
  - rewrite (rectangular_nth m); auto; lia.
Qed.

Lemma entry_in_int64 M i j :
  Forall (Forall in_int64) M ->
  (i < List.length M)%nat -> (j < List.length (nth i M []))%nat ->
  in_int64 (entry M i j).
Proof.
  intros H Hi Hj. rewrite Forall_forall in H.
  specialize (H (nth i M []) (nth_In M [] Hi)). rewrite Forall_forall in H.
  apply H. apply nth_In. exact Hj.
Qed.

Lemma np_all_zero_false row :
  np_all_zero row = false -> exists j, (j < List.length row)%nat /\ nth j row 0 <> 0.
Proof.
  induction row as [| x row IH]; simpl; [discriminate |].
  destruct (Z.eqb_spec 0 x) as [<- | Hx]; simpl.
  - intros H. destruct (IH H) as (j & Hj & Hne). exists (S j). split; [lia | exact Hne].
  - intros _. exists 0%nat. split; [lia | simpl; congruence].
Qed.

Lemma fold_no_grant ps m A N : forall idx st,
  (forall i, In i idx -> grantable N (work st) i m = false) ->
  fold_left (grant_pure ps m A N) idx st = st.
Proof.
  induction idx as [| i idx IH]; intros st H; simpl; [reflexivity |].
  assert (E : grant_pure ps m A N st i = st).
  { unfold grant_pure. rewrite (H i (or_introl eq_refl)).
    destruct (nth i (finish st) true); reflexivity. }
  rewrite E. apply IH. intros k Hk. apply H. right; exact Hk.
Qed.

(** X8.  The fast path never contradicts the safety engine: on an accepted
    input of the data model's shape with nothing available and no process
    whose need row is all zero, [detect_deadlock] reports the synthetic
    cycle and [is_safe_state] reports an unsafe state. *)
Theorem total_starvation_is_unsafe (emsg : exn -> string)
  (find_cycle : DiGraph -> outcome (list edge)) (ps rs : list string)
  (A M : list (list Z)) (Av : list Z) :
  validate_input emsg ps rs A M Av = Ret (true, "") ->
  rectangular (List.length rs) M -> List.length Av = List.length rs ->
  nonneg_matrix A -> int64_input A M Av ->
  Forall (fun a => a = 0) Av ->
  (forall i, (i < List.length ps)%nat ->
     np_all_zero (nth i (mat_sub64 M A) []) = false) ->
  detect_deadlock find_cycle ps rs A M Av = Ret (true, starvation_cycle ps) /\
  is_safe_state ps rs A M Av = Ret (false, []).
Proof.
  intros Hv HM HlAv HAnn (IA & IM & _) Hzero Hneed.
  apply validate_input_acceptable in Hv.
  destruct Hv as (HAne & HlA & HA & HlM & _ & Hle & _).
  assert (HMne : M <> []).
  { intros ->. destruct A; [congruence |]. destruct ps; discriminate. }
  assert (HlN : List.length (mat_sub64 M A) = List.length ps)
    by (rewrite mat_sub64_length; congruence).
  split.
  - apply (detect_deadlock_fast_path find_cycle ps rs A M Av (Mat (mat_sub64 M A))).
    + unfold need_matrix.
      rewrite (np_array2_rect _ A HAne HA), (np_array2_rect _ M HMne HM). cbn [bind].
      apply (np_sub_shaped (List.length rs)); auto; congruence.
    + exact Hzero.
    + intros i Hi. exists (nth i (mat_sub64 M A) []). split; [| apply Hneed; exact Hi].
      simpl. apply getitem_nth. lia.
  - rewrite is_safe_state_shaped by (auto; congruence).
    destruct ps as [| p ps'] eqn:Eps; [destruct A; [congruence | discriminate] |].
    rewrite <- Eps in *.
    assert (Hlen : List.length ps = S (List.length ps')) by (rewrite Eps; reflexivity).
    rewrite Hlen at 1. cbn [safe_loop safe_sequence List.length].
    replace (Nat.ltb 0 (List.length ps)) with true
      by (symmetry; apply Nat.ltb_lt; lia).
    cbn [work finish].
    rewrite for_each_pure; auto.
    + cbn [bind]. rewrite fold_no_grant; [reflexivity |].
      intros i Hi. apply in_seq in Hi. cbn [work].
      destruct (grantable (mat_sub64 M A) Av i (List.length rs)) eqn:Hg; [| reflexivity].
      exfalso. rewrite grantable_spec in Hg.
      destruct (np_all_zero_false _ (Hneed i ltac:(lia))) as (j & Hj & Hne).
      assert (Hjm : (j < List.length rs)%nat).
      { rewrite (rectangular_nth (List.length rs)) in Hj; auto; [| lia].
        apply mat_sub64_rect; assumption. }
      specialize (Hg j Hjm). fold (entry (mat_sub64 M A) i j) in Hne.
      rewrite (entry_mat_sub64 (List.length rs)) in Hg, Hne by (auto; congruence || lia).
      destruct (Hle i j ltac:(lia) Hjm) as [HjM HleA].
      rewrite sub64_exact in Hg, Hne.
      * rewrite Forall_forall in Hzero.
        assert (nth j Av 0 = 0) by (apply Hzero; apply nth_In; lia). lia.
      * apply entry_in_int64; auto; lia.
      * apply entry_in_int64; auto; [lia |].
        rewrite (rectangular_nth (List.length rs)); auto; lia.
      * apply entry_nonneg; exact HAnn.
      * exact HleA.
      * apply entry_in_int64; auto; lia.
      * apply entry_in_int64; auto; [lia |].
        rewrite (rectangular_nth (List.length rs)); auto; lia.
      * apply entry_nonneg; exact HAnn.
      * exact HleA.
    + apply mat_sub64_rect; assumption.
    + simpl. apply repeat_length.
    + intros i Hi. apply in_seq in Hi. lia.
Qed.

(** ** A state in which every process can be granted at once *)




(** * The resource-allocation graph *)

Lemma assoc_upd_in {V : Type} (k : string) (dflt : V) (f : V -> V) : forall d x s,
  In (x, s) (assoc_upd k dflt f d) ->
  In (x, s) d \/ (x = k /\ ((exists s0, In (k, s0) d /\ s = f s0) \/ s = f dflt)).
Proof.
  induction d as [| [k' v] d IH]; intros x s H; simpl in H.
  - destruct H as [H | []]. injection H as <- <-. right. split; [reflexivity | right; reflexivity].
  - destruct (String.eqb_spec k k') as [<- | Hne].
    + destruct H as [H | H].
      * injection H as <- <-. right. split; [reflexivity |].
        left. exists v. split; [left; reflexivity | reflexivity].
      * left. right. exact H.
    + destruct H as [H | H]; [left; left; exact H |].
      destruct (IH x s H) as [H' | (-> & [(s0 & Hs0 & ->) | ->])].
      * left. right. exact H'.
      * right. split; [reflexivity |]. left. exists s0. split; [right; exact Hs0 | reflexivity].
      * right. split; [reflexivity | right; reflexivity].
Qed.

Lemma assoc_upd_keep {V : Type} (k : string) (dflt : V) (f : V -> V) : forall d x s,
  In (x, s) d ->
  exists s', In (x, s') (assoc_upd k dflt f d) /\ (s' = s \/ (x = k /\ s' = f s)).
Proof.
  induction d as [| [k' v] d IH]; intros x s H; [destruct H |]. simpl.
  destruct (String.eqb_spec k k') as [<- | Hne].
  - destruct H as [H | H].
    + injection H as <- <-. exists (f v). split; [left; reflexivity | right; auto].
    + exists s. split; [right; exact H | left; reflexivity].
  - destruct H as [H | H].
    + exists s. split; [left; exact H | left; reflexivity].
    + destruct (IH x s H) as (s' & Hs' & Hcases).
      exists s'. split; [right; exact Hs' | exact Hcases].
Qed.

Lemma assoc_upd_key {V : Type} (k : string) (dflt : V) (f : V -> V) : forall d,
  exists s0, In (k, f s0) (assoc_upd k dflt f d).
Proof.
  induction d as [| [k' v] d IH]; simpl.
  - exists dflt. left; reflexivity.
  - destruct (String.eqb_spec k k') as [<- | Hne].
    + exists v. left; reflexivity.
    + destruct IH as (s0 & H). exists s0. right; exact H.
Qed.

Lemma add_node_has_edge G n attr u v :
  has_edge (add_node G n attr) u v <-> has_edge G u v.
Proof.
  unfold has_edge, add_node; simpl. split.
  - intros (s & Hs & Hv). apply assoc_upd_in in Hs.
    destruct Hs as [Hs | (-> & [(s0 & Hs0 & ->) | ->])].
    + exists s; auto.
    + exists s0; auto.
    + destruct Hv.
  - intros (s & Hs & Hv).
    destruct (assoc_upd_keep n [] (fun succ => succ) _ _ _ Hs) as (s' & Hs' & [-> | (_ & ->)]);
      exists s; auto.
Qed.

Lemma add_node_has_node G n attr u :
  has_node (add_node G n attr) u <-> u = n \/ has_node G u.
Proof.
  unfold has_node, add_node; simpl. split.
  - intros (s & Hs). apply assoc_upd_in in Hs.
    destruct Hs as [Hs | (-> & _)]; [right; exists s; exact Hs | left; reflexivity].
  - intros [-> | (s & Hs)].
    + destruct (assoc_upd_key n [] (fun succ : list string => succ) (g_adj G)) as (s0 & H).
      exists s0; exact H.
    + destruct (assoc_upd_keep n [] (fun succ => succ) _ _ _ Hs) as (s' & Hs' & _).
      exists s'; exact Hs'.
Qed.

Lemma list_add_in v l y : In y (list_add v l) <-> y = v \/ In y l.
Proof.
  unfold list_add. destruct (existsb (String.eqb v) l) eqn:E.
  - split; [intros H; right; exact H |]. intros [-> | H]; [| exact H].
    apply existsb_exists in E. destruct E as (x & Hx & Heq).
    apply String.eqb_eq in Heq. subst. exact Hx.
  - rewrite in_app_iff. simpl. split.
    + intros [H | [<- | []]]; auto.
    + intros [-> | H]; auto.
Qed.

(** [add_edge] adds the one edge and keeps the others. *)
Lemma add_edge_has_edge G u v x y :
  has_edge (add_edge G u v) x y <-> (x = u /\ y = v) \/ has_edge G x y.
Proof.
  unfold add_edge.
  set (G1 := add_node (add_node G u []) v []).
  assert (H1 : forall a b, has_edge G1 a b <-> has_edge G a b).
  { intros a b. unfold G1. rewrite !add_node_has_edge. reflexivity. }
  split.
  - intros (s & Hs & Hy). simpl in Hs. apply assoc_upd_in in Hs.
    destruct Hs as [Hs | (-> & [(s0 & Hs0 & ->) | ->])].
    + right. apply H1. exists s; auto.
    + apply list_add_in in Hy. destruct Hy as [-> | Hy]; [left; auto |].
      right. apply H1. exists s0; auto.
    + apply list_add_in in Hy. destruct Hy as [-> | []]. left; auto.
  - intros [[-> ->] | H].
    + destruct (assoc_upd_key u [] (list_add v) (g_adj G1)) as (s0 & H).
      exists (list_add v s0). split; [exact H | apply list_add_in; left; reflexivity].
    + apply H1 in H. destruct H as (s & Hs & Hy).
      destruct (assoc_upd_keep u [] (list_add v) _ _ _ Hs) as (s' & Hs' & [-> | (_ & ->)]).
      * exists s; auto.
      * exists (list_add v s). split; [exact Hs' | apply list_add_in; right; exact Hy].
Qed.

Lemma add_edge_has_node G u v x :
  has_node (add_edge G u v) x <-> x = u \/ x = v \/ has_node G x.
Proof.
  unfold add_edge.
  set (G1 := add_node (add_node G u []) v []).
  assert (H1 : has_node G1 x <-> x = u \/ x = v \/ has_node G x).
  { unfold G1. rewrite !add_node_has_node. tauto. }
  rewrite <- H1. unfold has_node at 1. simpl. split.
  - intros (s & Hs). apply assoc_upd_in in Hs.
    destruct Hs as [Hs | (-> & _)]; [exists s; exact Hs |].
    apply H1. left; reflexivity.
  - intros (s & Hs).
    destruct (assoc_upd_keep u [] (list_add v) _ _ _ Hs) as (s' & Hs' & _).
    exists s'; exact Hs'.
Qed.

Lemma fold_add_node_has_edge attr : forall l G u v,
  has_edge (fold_left (fun G p => add_node G p attr) l G) u v <-> has_edge G u v.
Proof.
  induction l as [| p l IH]; intros G u v; simpl; [reflexivity |].
  rewrite IH. apply add_node_has_edge.
Qed.

Lemma fold_add_node_has_node attr : forall l G u,
  has_node (fold_left (fun G p => add_node G p attr) l G) u <-> In u l \/ has_node G u.
Proof.
  induction l as [| p l IH]; intros G u; simpl; [tauto |].
  rewrite IH, add_node_has_node. split; intros H; intuition congruence.
Qed.

Lemma nodes_only_has_edge ps rs u v : ~ has_edge (nodes_only ps rs) u v.
Proof.
  unfold nodes_only. rewrite !fold_add_node_has_edge.
  intros (s & [] & _).
Qed.

Lemma nodes_only_has_node ps rs u :
  has_node (nodes_only ps rs) u <-> In u ps \/ In u rs.
Proof.
  unfold nodes_only. rewrite !fold_add_node_has_node.
  split; [intros [H | [H | (s & [])]]; auto | intros [H | H]; auto].
Qed.

Lemma in_enumerate_from {X : Type} (l : list X) : forall s i x,
  In (i, x) (combine (seq s (List.length l)) l) <->
  (s <= i)%nat /\ nth_error l (i - s) = Some x.
Proof.
  induction l as [| y l IH]; intros s i x; simpl.
  - split; [intros [] | intros [_ H]; destruct (i - s)%nat; discriminate].
  - rewrite IH. split.
    + intros [H | [Hs H]].
      * injection H as <- <-. rewrite Nat.sub_diag. split; [lia | reflexivity].
      * split; [lia |]. replace (i - s)%nat with (S (i - S s)) by lia. exact H.
    + intros [Hs H]. destruct (Nat.eq_dec i s) as [-> | Hne].
      * rewrite Nat.sub_diag in H. injection H as ->. left; reflexivity.
      * right. split; [lia |].
        replace (i - s)%nat with (S (i - S s)) in H by lia. exact H.
Qed.

Lemma in_enumerate {X : Type} (l : list X) i x :
  In (i, x) (enumerate l) <-> nth_error l i = Some x.
Proof.
  unfold enumerate. rewrite in_enumerate_from, Nat.sub_0_r.
  split; [intros [_ H]; exact H | intros H; split; [lia | exact H]].
Qed.

Lemma nth_error_Some_nth {X : Type} (l : list X) i x d :
  nth_error l i = Some x <-> (i < List.length l)%nat /\ nth i l d = x.
Proof.
  split.
  - intros H. split; [apply nth_error_Some; congruence |].
    apply nth_error_nth; exact H.
  - intros [Hi <-]. apply nth_error_nth'; exact Hi.
Qed.

(** One execution of the inner loop body. *)
Lemma edge_step_spec m A N Av i p G j r :
  rectangular m A -> rectangular m N ->
  (i < List.length A)%nat -> (i < List.length N)%nat ->
  (j < m)%nat -> (j < List.length Av)%nat ->
  exists G',
    edge_step (Mat A) (Mat N) Av i p G (j, r) = Ret G' /\
    (forall x y,
       has_edge G' x y <->
       has_edge G x y \/
       (x = p /\ y = r /\ waits_for A N Av i j) \/
       (x = r /\ y = p /\ holds A i j)) /\
    (forall x, has_node G x -> has_node G' x) /\
    (forall x, has_node G' x -> has_node G x \/ x = p \/ x = r).
Proof.
  intros HA HN Hi Hi' Hj Hj'. unfold edge_step.
  rewrite (getitem2_entry m N) by assumption. cbn [bind].
  rewrite !(getitem2_entry m A) by assumption.
  rewrite (getitem_nth Av j 0 Hj').
  set (w := if 0 <? entry N i j
            then a_ij <- Ret (entry A i j) ;;
                 (if a_ij =? 0 then av_j <- Ret (nth j Av 0) ;; Ret (av_j =? 0)
                  else Ret false)
            else Ret false).
  assert (Hw : exists b, w = Ret b /\ (b = true <-> waits_for A N Av i j)).
  { unfold w, waits_for.
    destruct (Z.ltb_spec 0 (entry N i j)); cbn [bind].
    - destruct (Z.eqb_spec (entry A i j) 0); cbn [bind].
      + destruct (Z.eqb_spec (nth j Av 0) 0).
        * exists true. split; [reflexivity | tauto].
        * exists false. split; [reflexivity |]. split; [discriminate | tauto].
      + exists false. split; [reflexivity |]. split; [discriminate | tauto].
    - exists false. split; [reflexivity |]. split; [discriminate | intros; lia]. }
  destruct Hw as (b & -> & Hb). cbn [bind].
  eexists. split; [reflexivity |].
  unfold holds.
  destruct b; destruct (Z.ltb_spec 0 (entry A i j)) as [Hh | Hh];
    repeat split; intros; 
    repeat (rewrite add_edge_has_edge in * || rewrite add_edge_has_node in * );
    try tauto;
    try (assert (~ waits_for A N Av i j) by (intros Hc; apply Hb in Hc; discriminate));
    try (assert (waits_for A N Av i j) by (apply Hb; reflexivity));
    intuition (try lia; try congruence).
Qed.

Lemma fold_edge_steps m A N Av :
  rectangular m A -> rectangular m N -> (m <= List.length Av)%nat ->
  forall l G,
    (forall i p j r, In ((i, p), (j, r)) l ->
       (i < List.length A)%nat /\ (i < List.length N)%nat /\ (j < m)%nat) ->
    exists G',
      fold_out (fun G pr => edge_step (Mat A) (Mat N) Av (fst (fst pr)) (snd (fst pr)) G (snd pr))
        G l = Ret G' /\
      (forall x y,
         has_edge G' x y <->
         has_edge G x y \/
         exists i p j r, In ((i, p), (j, r)) l /\
           ((x = p /\ y = r /\ waits_for A N Av i j) \/
            (x = r /\ y = p /\ holds A i j))) /\
      (forall x, has_node G x -> has_node G' x) /\
      (forall x, has_node G' x ->
         has_node G x \/ exists i p j r, In ((i, p), (j, r)) l /\ (x = p \/ x = r)).
Proof.
  intros HA HN HAv. induction l as [| [[i p] [j r]] l IH]; intros G Hl.
  - exists G. split; [reflexivity |]. split; [| split; auto].
    intros x y. split; [auto |]. intros [H | (? & ? & ? & ? & [] & _)]; exact H.
  - destruct (Hl i p j r (or_introl eq_refl)) as (Hi & Hi' & Hj).
    destruct (edge_step_spec m A N Av i p G j r HA HN Hi Hi' Hj ltac:(lia))
      as (G1 & E1 & He1 & Hn1 & Hn1').
    destruct (IH G1) as (G' & E' & He' & Hn' & Hn'').
    { intros i' p' j' r' H. apply (Hl i' p' j' r'). right; exact H. }
    exists G'. cbn [fold_out fst snd]. rewrite E1. cbn [bind]. split; [exact E' |].
    split; [| split].
    + intros x y. rewrite He', He1. split.
      * intros [[H | H] | (i' & p' & j' & r' & Hin & H)].
        -- left; exact H.
        -- right. exists i, p, j, r. split; [left; reflexivity | exact H].
        -- right. exists i', p', j', r'. split; [right; exact Hin | exact H].
      * intros [H | (i' & p' & j' & r' & [Heq | Hin] & H)].
        -- left; left; exact H.
        -- injection Heq as <- <- <- <-. left; right; exact H.
        -- right. exists i', p', j', r'. split; assumption.
    + intros x H. apply Hn', Hn1, H.
    + intros x H. destruct (Hn'' x H) as [H1 | (i' & p' & j' & r' & Hin & H1)].
      * destruct (Hn1' x H1) as [H2 | H2]; [left; exact H2 |].
        right. exists i, p, j, r. split; [left; reflexivity | exact H2].
      * right. exists i', p', j', r'. split; [right; exact Hin | exact H1].
Qed.

Lemma in_row_major ps rs i p j r :
  In ((i, p), (j, r)) (row_major ps rs) <->
  ((i < List.length ps)%nat /\ nth i ps "" = p) /\
  ((j < List.length rs)%nat /\ nth j rs "" = r).
Proof.
  unfold row_major. rewrite in_prod_iff, !in_enumerate.
  rewrite !(nth_error_Some_nth _ _ _ ""). reflexivity.
Qed.

Lemma build_graph_spec (ps rs : list string) (A N : list (list Z)) (Av : list Z) :
  rectangular (List.length rs) A -> List.length A = List.length ps ->
  rectangular (List.length rs) N -> List.length N = List.length ps ->
  (List.length rs <= List.length Av)%nat ->
  exists G,
    build_graph ps rs (Mat A) (Mat N) Av = Ret G /\
    (forall u v,
       has_edge G u v <->
       exists i j, (i < List.length ps)%nat /\ (j < List.length rs)%nat /\
         ((u = nth i ps "" /\ v = nth j rs "" /\ waits_for A N Av i j) \/
          (u = nth j rs "" /\ v = nth i ps "" /\ holds A i j))) /\
    (forall u, has_node G u <-> In u ps \/ In u rs).
Proof.
  intros HA HlA HN HlN HAv. rewrite build_graph_row_major.
  destruct (fold_edge_steps (List.length rs) A N Av HA HN HAv (row_major ps rs)
              (nodes_only ps rs)) as (G & E & He & Hn & Hn').
  { intros i p j r H. apply in_row_major in H. lia. }
  exists G. split; [exact E |]. split.
  - intros u v. rewrite He. split.
    + intros [H | (i & p & j & r & Hin & H)];
        [exfalso; exact (nodes_only_has_edge ps rs u v H) |].
      apply in_row_major in Hin. destruct Hin as [[Hi <-] [Hj <-]].
      exists i, j. split; [exact Hi | split; [exact Hj | exact H]].
    + intros (i & j & Hi & Hj & H). right.
      exists i, (nth i ps ""), j, (nth j rs "").
      split; [apply in_row_major; auto | exact H].
  - intros u. split.
    + intros H. destruct (Hn' u H) as [H1 | (i & p & j & r & Hin & H1)].
      * apply nodes_only_has_node; exact H1.
      * apply in_row_major in Hin. destruct Hin as [[Hi <-] [Hj <-]].
        destruct H1 as [-> | ->]; [left | right]; apply nth_In; assumption.
    + intros H. apply Hn. apply nodes_only_has_node; exact H.
Qed.

(** ** No deadlock while every resource has a free unit *)

Lemma np_all_zero_positive Av j :
  (j < List.length Av)%nat -> 0 < nth j Av 0 -> np_all_zero Av = false.
Proof.
  intros Hj Hpos. destruct (np_all_zero Av) eqn:E; [| reflexivity].
  apply np_all_zero_spec in E. rewrite Forall_forall in E.
  specialize (E (nth j Av 0) (nth_In Av 0 Hj)). lia.
Qed.

(** X11.  When every resource has at least one available unit and no process
    shares its name with a resource, no process waits, the graph has only
    resource -> process edges, and [detect_deadlock] reports no deadlock
    (given that [find_cycle] only reports closed walks of the graph). *)
Theorem no_deadlock_when_every_resource_is_available
  (find_cycle : DiGraph -> outcome (list edge)) (ps rs : list string)
  (A M : list (list Z)) (Av : list Z) :
  find_cycle_contract find_cycle ->
  A <> [] -> List.length A = List.length ps -> rectangular (List.length rs) A ->
  List.length M = List.length ps -> rectangular (List.length rs) M ->
  List.length Av = List.length rs -> rs <> [] ->
  (forall j, (j < List.length rs)%nat -> 0 < nth j Av 0) ->
  (forall p, In p ps -> ~ In p rs) ->
  detect_deadlock find_cycle ps rs A M Av = Ret (false, []).
Proof.
  intros Hfc HAne HlA HA HlM HM HlAv Hrs Hpos Hdisj.
  assert (HMne : M <> []).
  { intros ->. destruct A; [congruence |]. destruct ps; discriminate. }
  unfold detect_deadlock.
  rewrite (np_array2_rect _ A HAne HA), (np_array2_rect _ M HMne HM). cbn [bind].
  rewrite (np_sub_shaped (List.length rs)) by (auto; congruence). cbn [bind].
  assert (Hm : (0 < List.length rs)%nat) by (destruct rs; [congruence | simpl; lia]).
  rewrite (np_all_zero_positive Av 0%nat) by (try apply Hpos; lia). cbn [bind].
  destruct (build_graph_spec ps rs A (mat_sub64 M A) Av) as (G & EG & He & _); auto.
  { apply mat_sub64_rect; assumption. }
  { rewrite mat_sub64_length; congruence. }
  { lia. }
  rewrite EG. cbn [bind].
  assert (Hedge : forall u v, has_edge G u v -> In u rs /\ In v ps).
  { intros u v H. apply He in H.
    destruct H as (i & j & Hi & Hj & [(_ & _ & _ & _ & Hz) | (-> & -> & _)]).
    - specialize (Hpos j Hj). lia.
    - split; apply nth_In; assumption. }
  destruct (Hfc G) as [(c & Ec & Hne & Hin & Hch & Hclose) | Ec]; rewrite Ec;
    [| reflexivity].
  exfalso.
  destruct c as [| e1 [| e2 c']]; [congruence | |].
  - destruct (Hedge _ _ (Hin e1 (or_introl eq_refl))) as [Hu Hv].
    specialize (Hclose e1 e1 eq_refl eq_refl).
    rewrite Hclose in Hv. exact (Hdisj _ Hv Hu).
  - destruct (Hedge _ _ (Hin e1 (or_introl eq_refl))) as [_ Hv].
    destruct (Hedge _ _ (Hin e2 (or_intror (or_introl eq_refl)))) as [Hu _].
    destruct Hch as [Heq _]. rewrite Heq in Hv. exact (Hdisj _ Hv Hu).
Qed.

(** * The request handler *)

Lemma classify_terminates need al idx : terminates (classify need al idx).
Proof.
  induction idx as [| i idx IH]; simpl; [discriminate |].
  apply bind_terminates; [apply getrow_terminates | intros need_i _].
  apply bind_terminates.
  - destruct (np_all_zero need_i); [discriminate |].
    apply bind_terminates; [apply getrow_terminates | intros a_i _].
    destruct (np_any_positive a_i); discriminate.
  - intros state _. apply bind_terminates; [exact IH | intros; discriminate].
Qed.

Lemma all_processes_need_terminates need idx : terminates (all_processes_need need idx).
Proof.
  induction idx as [| i idx IH]; simpl; [discriminate |].
  apply bind_terminates; [apply getrow_terminates | intros row _].
  destruct (np_all_zero row); [discriminate | exact IH].
Qed.

Lemma fold_out_terminates {S X : Type} (body : S -> X -> outcome S) :
  (forall st x, terminates (body st x)) ->
  forall xs st, terminates (fold_out body st xs).
Proof.
  intros Hb xs; induction xs as [| x xs IH]; intros st; simpl; [discriminate |].
  apply bind_terminates; [apply Hb | intros; apply IH].
Qed.

Lemma edge_step_terminates al nd av i p G jr : terminates (edge_step al nd av i p G jr).
Proof.
  destruct jr as [j r]. unfold edge_step.
  apply bind_terminates; [apply getitem2_terminates | intros n_ij _].
  apply bind_terminates.
  - destruct (0 <? n_ij); [| discriminate].
    apply bind_terminates; [apply getitem2_terminates | intros a_ij _].
    destruct (a_ij =? 0); [| discriminate].
    apply bind_terminates; [apply getitem_terminates | intros; discriminate].
  - intros waits _.
    apply bind_terminates; [apply getitem2_terminates | intros; discriminate].
Qed.

Lemma build_graph_terminates ps rs al nd av : terminates (build_graph ps rs al nd av).
Proof.
  unfold build_graph. apply fold_out_terminates. intros G ip.
  apply fold_out_terminates. intros G' jr. apply edge_step_terminates.
Qed.

Lemma detect_deadlock_terminates find_cycle ps rs A M Av :
  (forall G, find_cycle G <> OutOfFuel) ->
  terminates (detect_deadlock find_cycle ps rs A M Av).
Proof.
  intros Hfc. unfold detect_deadlock.
  apply bind_terminates; [apply np_array2_terminates | intros a _].
  apply bind_terminates; [apply np_array2_terminates | intros mx _].
  apply bind_terminates; [apply np_sub_terminates | intros need _].
  apply bind_terminates.
  - destruct (np_all_zero Av); [apply all_processes_need_terminates | discriminate].
  - intros starved _. destruct starved; [discriminate |].
    apply bind_terminates; [apply build_graph_terminates | intros G _].
    specialize (Hfc G). unfold terminates.
    destruct (find_cycle G) as [c | [| | |] |]; try discriminate. congruence.
Qed.

(** X12.  No exception escapes [simulate]: whatever the five fields are, it
    answers with a rejection, a report or a server error (provided
    [find_cycle] itself comes back). *)
Theorem simulate_always_responds (emsg : exn -> string)
  (find_cycle : DiGraph -> outcome (list edge)) (ps rs : list string)
  (A M : list (list Z)) (Av : list Z) :
  (forall G, find_cycle G <> OutOfFuel) ->
  exists r, simulate emsg find_cycle ps rs A M Av = Ret r.
Proof.
  intros Hfc. unfold simulate.
  match goal with |- context [try_except ?c _] => set (body := c) end.
  assert (Hterm : terminates body).
  { unfold body.
    destruct (validate_input_answers emsg ps rs A M Av) as (ok & msg & -> & _).
    cbn [bind]. destruct (negb ok); [discriminate |].
    apply bind_terminates; [apply np_array2_terminates | intros a _].
    apply bind_terminates; [apply np_array2_terminates | intros mx _].
    apply bind_terminates;
      [apply broadcast_terminates; intros; discriminate | intros tot _].
    apply bind_terminates; [apply np_sub_terminates | intros need _].
    apply bind_terminates; [apply classify_terminates | intros states _].
    apply bind_terminates; [apply is_safe_state_terminates | intros [safe sq] _].
    apply bind_terminates; [apply detect_deadlock_terminates; exact Hfc |].
    intros [dl cyc] _. discriminate. }
  destruct body as [r | e |]; simpl.
  - exists r; reflexivity.
  - eexists; reflexivity.
  - exfalso. apply Hterm. reflexivity.
Qed.

(** X13.  [simulate] answers with a rejection (status 400) exactly when the
    validator rejects the input, and the rejection carries the validator's
    message. *)
Theorem simulate_rejects_iff_invalid (emsg : exn -> string)
  (find_cycle : DiGraph -> outcome (list edge)) (ps rs : list string)
  (A M : list (list Z)) (Av : list Z) (msg : string) :
  simulate emsg find_cycle ps rs A M Av = Ret (Rejected msg) <->
  validate_input emsg ps rs A M Av = Ret (false, msg).
Proof.
  unfold simulate. split.
  - intros H.
    match type of H with try_except ?c _ = _ => destruct c as [r | e |] eqn:E end;
      simpl in H; try discriminate.
    injection H as ->.
    inv_bind E. destruct a as [ok em]. destruct ok; simpl in E.
    + exfalso. inv_bind E. inv_bind E. inv_bind E. inv_bind E. inv_bind E.
      inv_bind E. destruct a4 as [safe sq]. inv_bind E. destruct a4 as [dl cyc].
      discriminate.
    + injection E as ->. exact E0.
  - intros H. rewrite H. reflexivity.
Qed.

(** ** What [detect_deadlock] can answer *)

Lemma all_processes_need_returns N : forall idx,
  (forall i, In i idx -> (i < List.length N)%nat) ->
  exists b, all_processes_need (Mat N) idx = Ret b.
Proof.
  induction idx as [| i idx IH]; intros H; simpl; [eexists; reflexivity |].
  rewrite (getitem_nth N i []) by (apply H; left; reflexivity). cbn [bind].
  destruct (np_all_zero (nth i N [])); [eexists; reflexivity |].
  apply IH. intros k Hk; apply H; right; exact Hk.
Qed.

Lemma detect_deadlock_cases (find_cycle : DiGraph -> outcome (list edge))
  (ps rs : list string) (A M : list (list Z)) (Av : list Z) :
  find_cycle_contract find_cycle ->
  A <> [] -> List.length A = List.length ps -> rectangular (List.length rs) A ->
  List.length M = List.length ps -> rectangular (List.length rs) M ->
  List.length Av = List.length rs ->
  detect_deadlock find_cycle ps rs A M Av = Ret (true, starvation_cycle ps) \/
  (exists G c,
     build_graph ps rs (Mat A) (Mat (mat_sub64 M A)) Av = Ret G /\
     closed_walk G c /\
     detect_deadlock find_cycle ps rs A M Av = Ret (true, c)) \/
  detect_deadlock find_cycle ps rs A M Av = Ret (false, []).
Proof.
  intros Hfc HAne HlA HA HlM HM HlAv.
  assert (HMne : M <> []).
  { intros ->. destruct A; [congruence |]. destruct ps; discriminate. }
  assert (HN : rectangular (List.length rs) (mat_sub64 M A))
    by (apply mat_sub64_rect; assumption).
  assert (HlN : List.length (mat_sub64 M A) = List.length ps)
    by (rewrite mat_sub64_length; congruence).
  unfold detect_deadlock.
  rewrite (np_array2_rect _ A HAne HA), (np_array2_rect _ M HMne HM). cbn [bind].
  rewrite (np_sub_shaped (List.length rs)) by (auto; congruence). cbn [bind].
  destruct (build_graph_spec ps rs A (mat_sub64 M A) Av HA HlA HN HlN) as (G & EG & _);
    [lia |].
  assert (Hgeneral :
    (G0 <- build_graph ps rs (Mat A) (Mat (mat_sub64 M A)) Av ;;
     match find_cycle G0 with
     | Ret cycle => Ret (true, cycle)
     | Raise NetworkXNoCycle => Ret (false, [])
     | Raise e => Raise e
     | OutOfFuel => OutOfFuel
     end) = Ret (false, []) \/
    exists c, closed_walk G c /\
      (G0 <- build_graph ps rs (Mat A) (Mat (mat_sub64 M A)) Av ;;
       match find_cycle G0 with
       | Ret cycle => Ret (true, cycle)
       | Raise NetworkXNoCycle => Ret (false, [])
       | Raise e => Raise e
       | OutOfFuel => OutOfFuel
       end) = Ret (true, c)).
  { rewrite EG. cbn [bind].
    destruct (Hfc G) as [(c & Ec & Hc) | Ec]; rewrite Ec.
    - right. exists c. split; [exact Hc | reflexivity].
    - left. reflexivity. }
  destruct (np_all_zero Av).
  - destruct (all_processes_need_returns (mat_sub64 M A) (seq 0 (List.length ps)))
      as (b & Eb).
    { intros i Hi. apply in_seq in Hi. lia. }
    rewrite Eb. cbn [bind]. destruct b.
    + left. reflexivity.
    + destruct Hgeneral as [H | (c & Hc & H)].
      * right; right. exact H.
      * right; left. exists G, c. auto.
  - cbn [bind]. destruct Hgeneral as [H | (c & Hc & H)].
    + right; right. exact H.
    + right; left. exists G, c. auto.
Qed.

(** ** The report *)

Lemma np_sum_axis0_length m A :
  A <> [] -> rectangular m A -> List.length (np_sum_axis0 (Mat A)) = m.
Proof.
  intros HAne HA. simpl.
  rewrite <- (rectangular_unique_nonempty m A HAne HA).
  assert (H : forall rows acc, rectangular m rows -> List.length acc = m ->
            List.length (fold_left
              (fun acc row => map (fun p => add64 (fst p) (snd p)) (combine acc row))
              rows acc) = m).
  { induction rows as [| r rows IH]; intros acc Hr Hacc; simpl; [exact Hacc |].
    inversion Hr; subst. apply IH; [assumption |].
    rewrite length_map, length_combine. lia. }
  apply H; [exact HA | apply repeat_length].
Qed.

Lemma classify_returns A N : forall idx,
  (forall i, In i idx -> (i < List.length N)%nat /\ (i < List.length A)%nat) ->
  exists states, classify (Mat N) (Mat A) idx = Ret states /\
                 List.length states = List.length idx.
Proof.
  induction idx as [| i idx IH]; intros H; simpl; [exists []; auto |].
  destruct (H i (or_introl eq_refl)) as [HiN HiA].
  rewrite (getitem_nth N i [] HiN). cbn [bind].
  destruct IH as (states & E & Hlen). { intros k Hk; apply H; right; exact Hk. }
  destruct (np_all_zero (nth i N [])); cbn [bind].
  - rewrite E. cbn [bind]. eexists. split; [reflexivity | simpl; congruence].
  - rewrite (getitem_nth A i [] HiA). cbn [bind].
    destruct (np_any_positive (nth i A [])); cbn [bind]; rewrite E; cbn [bind];
      eexists; (split; [reflexivity | simpl; congruence]).
Qed.

Lemma is_safe_state_returns ps rs A M Av :
  A <> [] -> List.length A = List.length ps -> rectangular (List.length rs) A ->
  List.length M = List.length ps -> rectangular (List.length rs) M ->
  List.length Av = List.length rs ->
  exists safe sq,
    is_safe_state ps rs A M Av = Ret (safe, sq) /\ (safe = false -> sq = []).
Proof.
  intros HAne HlA HA HlM HM HlAv.
  destruct (outcome_cases (is_safe_state ps rs A M Av)) as [[safe sq] H].
  - apply is_safe_state_terminates.
  - intros e. rewrite is_safe_state_shaped by (auto; congruence).
    apply safe_loop_no_raise; auto.
    + apply mat_sub64_rect; assumption.
    + rewrite mat_sub64_length; congruence.
    + simpl. apply repeat_length.
  - exists safe, sq. split; [exact H |].
    apply is_safe_state_fuel_result in H.
    destruct H as [[-> _] | [_ ->]]; [discriminate | reflexivity].
Qed.

Lemma simulate_report (emsg : exn -> string)
  (find_cycle : DiGraph -> outcome (list edge)) (ps rs : list string)
  (A M : list (list Z)) (Av : list Z) :
  find_cycle_contract find_cycle ->
  validate_input emsg ps rs A M Av = Ret (true, "") ->
  rectangular (List.length rs) M -> List.length Av = List.length rs ->
  exists safe sq deadlock cycle states,
    is_safe_state ps rs A M Av = Ret (safe, sq) /\
    detect_deadlock find_cycle ps rs A M Av = Ret (deadlock, cycle) /\
    List.length states = List.length ps /\
    simulate emsg find_cycle ps rs A M Av
    = Ret (Report safe sq deadlock cycle
             (mk_metrics states (vec_add64 (np_sum_axis0 (Mat A)) Av)
                (np_sum_axis0 (Mat A)) Av)).
Proof.
  intros Hfc Hv HM HlAv. pose proof Hv as Hacc.
  apply validate_input_accepts in Hacc.
  destruct Hacc as (_ & HAne & HA & HlA & _ & HlM & _ & _).
  assert (HMne : M <> []).
  { intros ->. destruct A; [congruence |]. destruct ps; discriminate. }
  destruct (is_safe_state_returns ps rs A M Av HAne HlA HA HlM HM HlAv)
    as (safe & sq & Hsafe & Hsq).
  assert (Hdl : exists deadlock cycle,
            detect_deadlock find_cycle ps rs A M Av = Ret (deadlock, cycle) /\
            (deadlock = false -> cycle = [])).
  { destruct (detect_deadlock_cases find_cycle ps rs A M Av Hfc HAne HlA HA HlM HM HlAv)
      as [H | [(G & c & _ & _ & H) | H]].
    - eexists _, _. split; [exact H | discriminate].
    - eexists _, _. split; [exact H | discriminate].
    - eexists _, _. split; [exact H | reflexivity]. }
  destruct Hdl as (deadlock & cycle & Hdl & Hcyc).
  destruct (classify_returns A (mat_sub64 M A) (seq 0 (List.length ps)))
    as (states & Hst & Hlen).
  { intros i Hi. apply in_seq in Hi. rewrite mat_sub64_length by congruence. lia. }
  rewrite length_seq in Hlen.
  exists safe, sq, deadlock, cycle, states.
  split; [exact Hsafe | split; [exact Hdl | split; [exact Hlen |]]].
  unfold simulate. rewrite Hv. cbn [bind negb].
  rewrite (np_array2_rect _ A HAne HA), (np_array2_rect _ M HMne HM). cbn [bind].
  rewrite broadcast1_same
    by (rewrite (np_sum_axis0_length (List.length rs)); auto).
  cbn [bind]. fold (vec_add64 (np_sum_axis0 (Mat A)) Av).
  rewrite (np_sub_shaped (List.length rs)) by (auto; congruence). cbn [bind].
  rewrite Hst. cbn [bind]. rewrite Hsafe. cbn [bind]. rewrite Hdl. cbn [bind try_except].
  replace (if safe then sq else []) with sq
    by (destruct safe; [reflexivity | apply Hsq; reflexivity]).
  replace (if deadlock then cycle else []) with cycle
    by (destruct deadlock; [reflexivity | apply Hcyc; reflexivity]).
  reflexivity.
Qed.

Lemma map_out_pure {X C : Type} (g : X -> C) (xs : list X) :
  map_out (fun x => Ret (g x)) xs = Ret (map g xs).
Proof.
  induction xs as [| x xs IH]; simpl; [reflexivity | rewrite IH; reflexivity].
Qed.

Lemma broadcast1_raises f x y e : broadcast1 f x y = Raise e -> e = ValueError.
Proof.
  unfold broadcast1, broadcast.
  destruct (Nat.eqb _ _); [rewrite zip_with_pure; discriminate |].
  destruct x as [| x0 [| x1 x']].
  - destruct y as [| y0 [| y1 y']]; simpl; try congruence; discriminate.
  - rewrite (map_out_pure (f x0)). discriminate.
  - destruct y as [| y0 [| y1 y']]; try congruence.
    rewrite (map_out_pure (fun x => f x y0)). discriminate.
Qed.

Lemma broadcast1_mismatch f x y :
  List.length x <> List.length y -> List.length x <> 1%nat -> List.length y <> 1%nat ->
  broadcast1 f x y = Raise ValueError.
Proof.
  intros Hne Hx Hy. unfold broadcast1, broadcast.
  destruct (Nat.eqb_spec (List.length x) (List.length y)); [contradiction |].
  destruct x as [| x0 [| x1 x']]; destruct y as [| y0 [| y1 y']]; simpl in *;
    try congruence; reflexivity.
Qed.

Lemma simulate_wide_max_demand (emsg : exn -> string)
  (find_cycle : DiGraph -> outcome (list edge)) (ps rs : list string)
  (A M : list (list Z)) (Av : list Z) (c : nat) :
  validate_input emsg ps rs A M Av = Ret (true, "") ->
  rectangular c M -> c <> List.length rs -> c <> 1%nat -> List.length rs <> 1%nat ->
  simulate emsg find_cycle ps rs A M Av
  = Ret (ServerError ("Server error: " ++ emsg ValueError)%string).
Proof.
  intros Hv HM Hc Hc1 Hm1. pose proof Hv as Hacc.
  apply validate_input_accepts in Hacc.
  destruct Hacc as (_ & HAne & HA & HlA & _ & HlM & _ & _).
  assert (HMne : M <> []).
  { intros ->. destruct A; [congruence |]. destruct ps; discriminate. }
  unfold simulate. rewrite Hv. cbn [bind negb].
  rewrite (np_array2_rect _ A HAne HA), (np_array2_rect _ M HMne HM). cbn [bind].
  assert (Hsub : np_sub (Mat M) (Mat A) = Raise ValueError).
  { unfold np_sub, broadcast2, broadcast. simpl as_rows.
    rewrite HlM, <- HlA, Nat.eqb_refl.
    destruct M as [| x M']; [congruence |]. destruct A as [| y A']; [congruence |].
    inversion HM; inversion HA; subst. cbn [zip_with].
    rewrite broadcast1_mismatch by congruence. reflexivity. }
  destruct (broadcast1 add64 (np_sum_axis0 (Mat A)) Av) as [tot | e |] eqn:Et;
    cbn [bind].
  - rewrite Hsub. reflexivity.
  - apply broadcast1_raises in Et. subst e. reflexivity.
  - exfalso. revert Et. apply broadcast_terminates. intros; discriminate.
Qed.

(** ** The totals per resource *)

Lemma col_sum_nonneg rows j : nonneg_matrix rows -> 0 <= col_sum rows j.
Proof.
  induction rows as [| r rows IH]; intros H; simpl; [lia |].
  inversion H as [| ? ? Hr Hrows]; subst.
  specialize (IH Hrows).
  assert (0 <= nth j r 0).
  { destruct (Nat.lt_ge_cases j (List.length r)) as [Hj | Hj].
    - rewrite Forall_forall in Hr. apply Hr. apply nth_In; exact Hj.
    - rewrite nth_overflow by exact Hj. lia. }
  lia.
Qed.

Lemma sum_over_map_S f l : sum_over f (map S l) = sum_over (fun i => f (S i)) l.
Proof. induction l as [| x l IH]; simpl; [reflexivity | rewrite IH; reflexivity]. Qed.

Lemma held_col_sum A j : held A (seq 0 (List.length A)) j = col_sum A j.
Proof.
  unfold held. induction A as [| a A IH]; simpl; [reflexivity |].
  rewrite <- seq_shift, sum_over_map_S. unfold entry at 1. simpl.
  f_equal. exact IH.
Qed.

Lemma col_sum_zero_iff rows j :
  nonneg_matrix rows ->
  (col_sum rows j = 0 <-> forall i, (i < List.length rows)%nat -> entry rows i j = 0).
Proof.
  induction rows as [| r rows IH]; intros H; simpl.
  - split; [intros _ i Hi; lia | reflexivity].
  - inversion H as [| ? ? Hr Hrows]; subst.
    pose proof (col_sum_nonneg rows j Hrows) as Hs.
    pose proof (entry_nonneg (r :: rows) 0 j H) as He. unfold entry in He; simpl in He.
    split.
    + intros Hz i Hi. destruct i as [| i].
      * unfold entry; simpl. lia.
      * unfold entry; simpl. apply (proj1 (IH Hrows)); lia.
    + intros Hall.
      assert (E0 : nth j r 0 = 0) by (apply (Hall 0%nat); lia).
      assert (Es : col_sum rows j = 0).
      { apply (proj2 (IH Hrows)). intros i Hi. apply (Hall (S i)). lia. }
      lia.
Qed.

Lemma fold_sum_spec m : forall rows acc,
  rectangular m rows -> List.length acc = m -> nonneg_matrix rows ->
  (forall j, (j < m)%nat -> 0 <= nth j acc 0 /\ nth j acc 0 + col_sum rows j <= int64_max) ->
  forall j, (j < m)%nat ->
    nth j (fold_left (fun acc row => map (fun p => add64 (fst p) (snd p)) (combine acc row))
             rows acc) 0
    = nth j acc 0 + col_sum rows j.
Proof.
  induction rows as [| r rows IH]; intros acc Hr Hacc Hnn Hb j Hj; simpl; [lia |].
  pose proof (Forall_inv Hr) as Hlr. pose proof (Forall_inv_tail Hr) as Hrows.
  pose proof (Forall_inv Hnn) as Hnr. pose proof (Forall_inv_tail Hnn) as Hnrows.
  simpl in Hlr. fold (vec_add64 acc r).
  assert (Hstep : forall k, (k < m)%nat ->
            nth k (vec_add64 acc r) 0 = nth k acc 0 + nth k r 0 /\ 0 <= nth k r 0).
  { intros k Hk. rewrite nth_vec_add64 by lia.
    destruct (Hb k Hk) as [Hlo Hhi]. simpl in Hhi.
    pose proof (col_sum_nonneg rows k Hnrows).
    assert (0 <= nth k r 0).
    { rewrite Forall_forall in Hnr. apply Hnr. apply nth_In; lia. }
    split; [| assumption].
    unfold add64. apply wrap64_in_range. unfold in_int64, int64_min. lia. }
  rewrite IH; auto.
  - destruct (Hstep j Hj) as [-> _]. lia.
  - rewrite vec_add64_length; lia.
  - intros k Hk. destruct (Hstep k Hk) as [-> Hpos].
    destruct (Hb k Hk) as [Hlo Hhi]. simpl in Hhi. lia.
Qed.

Lemma nth_repeat_zero j k : nth j (repeat 0 k) 0 = 0.
Proof.
  revert j; induction k as [| k IH]; intros [| j]; simpl; auto.
Qed.

(** X17.  For an accepted input of the data model's shape the totals of
    [simulate] are the column sums of the allocation matrix and those sums
    plus the available units.  The divisor of the utilization of a resource
    is never negative, and it is zero exactly when the resource has no
    available unit and no process holds one. *)
Theorem simulate_totals_are_column_sums (emsg : exn -> string) (ps rs : list string)
  (A M : list (list Z)) (Av : list Z) :
  validate_input emsg ps rs A M Av = Ret (true, "") ->
  banker_input ps rs A M Av ->
  exists total_allocated total_resources,
    simulate_totals emsg ps rs A M Av = Ret (Some (total_allocated, total_resources)) /\
    List.length total_allocated = List.length rs /\
    List.length total_resources = List.length rs /\
    forall j, (j < List.length rs)%nat ->
      nth j total_allocated 0 = col_sum A j /\
      nth j total_resources 0 = col_sum A j + nth j Av 0 /\
      0 <= nth j total_resources 0 /\
      (nth j total_resources 0 = 0 <->
       nth j Av 0 = 0 /\ forall i, (i < List.length ps)%nat -> entry A i j = 0).
Proof.
  intros Hv (HlA & HA & HlM & HM & HlAv & HAnn & Hov). pose proof Hv as Hacc.
  apply validate_input_acceptable in Hacc.
  destruct Hacc as (HAne & _ & _ & _ & _ & _ & Hav).
  assert (HMne : M <> []).
  { intros ->. destruct A; [congruence |]. destruct ps; discriminate. }
  assert (Hlen : List.length (np_sum_axis0 (Mat A)) = List.length rs)
    by (apply np_sum_axis0_length; assumption).
  assert (Hbound : forall j, (j < List.length rs)%nat ->
            0 <= nth j Av 0 /\ 0 <= col_sum A j /\ nth j Av 0 + col_sum A j <= int64_max).
  { intros j Hj. destruct (Hov j Hj) as [_ Hhi]. rewrite <- HlA, held_col_sum in Hhi.
    split; [apply Hav; exact Hj | split; [apply col_sum_nonneg; exact HAnn | exact Hhi]]. }
  assert (Hta : forall j, (j < List.length rs)%nat ->
            nth j (np_sum_axis0 (Mat A)) 0 = col_sum A j).
  { intros j Hj. simpl.
    rewrite <- (rectangular_unique_nonempty _ A HAne HA).
    rewrite (fold_sum_spec (List.length rs)); auto.
    - rewrite nth_repeat_zero. lia.
    - apply repeat_length.
    - intros k Hk. rewrite nth_repeat_zero. destruct (Hbound k Hk) as (? & ? & ?). lia. }
  assert (Htr : forall j, (j < List.length rs)%nat ->
            nth j (vec_add64 (np_sum_axis0 (Mat A)) Av) 0 = col_sum A j + nth j Av 0).
  { intros j Hj. rewrite nth_vec_add64 by lia. rewrite Hta by exact Hj.
    unfold add64. apply wrap64_in_range.
    destruct (Hbound j Hj) as (? & ? & ?). unfold in_int64, int64_min. lia. }
  exists (np_sum_axis0 (Mat A)), (vec_add64 (np_sum_axis0 (Mat A)) Av).
  split; [| split; [exact Hlen | split; [rewrite vec_add64_length; lia |]]].
  - unfold simulate_totals. rewrite Hv. cbn [bind negb].
    rewrite (np_array2_rect _ A HAne HA), (np_array2_rect _ M HMne HM). cbn [bind].
    rewrite broadcast1_same by lia. reflexivity.
  - intros j Hj. destruct (Hbound j Hj) as (Hav0 & Hcs & _).
    rewrite Hta, Htr by exact Hj.
    split; [reflexivity | split; [reflexivity | split; [lia |]]].
    rewrite <- HlA. rewrite <- (col_sum_zero_iff A j HAnn). lia.
Qed.

(** ** The state of each process *)

Lemma wrap64_zero z : - 2 ^ 64 < z < 2 ^ 64 -> (wrap64 z = 0 <-> z = 0).
Proof.
  intros Hz. unfold wrap64. split; [| intros ->; reflexivity].
  intros H.
  assert (Hm : (z + 2 ^ 63) mod 2 ^ 64 = 2 ^ 63) by lia.
  destruct (Z.lt_ge_cases (z + 2 ^ 63) 0) as [Hneg | Hpos].
  - rewrite <- (Z.mod_add _ 1) in Hm by lia.
    rewrite Z.mod_small in Hm by lia. lia.
  - destruct (Z.lt_ge_cases (z + 2 ^ 63) (2 ^ 64)) as [Hlt | Hge].
    + rewrite Z.mod_small in Hm by lia. lia.
    + rewrite <- (Z.mod_add _ (-1)) in Hm by lia.
      rewrite Z.mod_small in Hm by lia. lia.
Qed.

Lemma np_all_zero_sub x : forall y,
  List.length x = List.length y -> Forall in_int64 x -> Forall in_int64 y ->
  (np_all_zero (vec_sub64 x y) = true <-> x = y).
Proof.
  induction x as [| a x IH]; intros [| b y] Hl Hx Hy; simpl in Hl; try lia.
  - split; reflexivity.
  - inversion Hx; inversion Hy; subst. unfold np_all_zero, vec_sub64 in *. simpl.
    rewrite andb_true_iff, IH by (auto; lia).
    assert (Hab : (0 =? sub64 a b) = true <-> a = b).
    { rewrite Z.eqb_eq. unfold sub64.
      assert (Hr : - 2 ^ 64 < a - b < 2 ^ 64)
        by (unfold in_int64, int64_min, int64_max in *; lia).
      pose proof (wrap64_zero (a - b) Hr). lia. }
    rewrite Hab. split; [intros [-> ->]; reflexivity | intros E; injection E; auto].
Qed.

Lemma np_any_positive_spec row :
  np_any_positive row = true <->
  exists j, (j < List.length row)%nat /\ 0 < nth j row 0.
Proof.
  unfold np_any_positive. rewrite existsb_exists. split.
  - intros (x & Hx & Hpos). apply Z.ltb_lt in Hpos.
    destruct (In_nth row x 0 Hx) as (j & Hj & <-). exists j; auto.
  - intros (j & Hj & Hpos). exists (nth j row 0).
    split; [apply nth_In; exact Hj | apply Z.ltb_lt; exact Hpos].
Qed.

Lemma classify_nth A N : forall idx,
  (forall i, In i idx -> (i < List.length N)%nat /\ (i < List.length A)%nat) ->
  classify (Mat N) (Mat A) idx
  = Ret (map (fun i => if np_all_zero (nth i N []) then "Complete"
                       else if np_any_positive (nth i A []) then "Running"
                       else "Waiting") idx).
Proof.
  induction idx as [| i idx IH]; intros H; simpl; [reflexivity |].
  destruct (H i (or_introl eq_refl)) as [HiN HiA].
  rewrite (getitem_nth N i [] HiN). cbn [bind].
  rewrite IH by (intros k Hk; apply H; right; exact Hk).
  destruct (np_all_zero (nth i N [])); cbn [bind]; [reflexivity |].
  rewrite (getitem_nth A i [] HiA). cbn [bind].
  destruct (np_any_positive (nth i A [])); reflexivity.
Qed.

(** X18.  The state [simulate] reports for a process: "Complete" exactly
    when its max-demand row equals its allocation row, otherwise "Running"
    exactly when it holds a unit of some resource, otherwise "Waiting". *)
Theorem classify_by_rows (ps rs : list string) (A M : list (list Z)) (i : nat) :
  List.length A = List.length ps -> rectangular (List.length rs) A ->
  List.length M = List.length ps -> rectangular (List.length rs) M ->
  Forall (Forall in_int64) A -> Forall (Forall in_int64) M ->
  (i < List.length ps)%nat ->
  exists states,
    classify (Mat (mat_sub64 M A)) (Mat A) (seq 0 (List.length ps)) = Ret states /\
    List.length states = List.length ps /\
    (nth i states "" = "Complete" <-> nth i M [] = nth i A []) /\
    (nth i states "" = "Running" <->
     nth i M [] <> nth i A [] /\
     exists j, (j < List.length rs)%nat /\ 0 < entry A i j) /\
    (nth i states "" = "Waiting" <->
     nth i M [] <> nth i A [] /\
     forall j, (j < List.length rs)%nat -> entry A i j <= 0).
Proof.
  intros HlA HA HlM HM IA IM Hi.
  eexists. split.
  { apply classify_nth. intros k Hk. apply in_seq in Hk.
    rewrite mat_sub64_length by congruence. lia. }
  split; [rewrite length_map, length_seq; reflexivity |].
  set (f := fun i => if np_all_zero (nth i (mat_sub64 M A) []) then "Complete"
                     else if np_any_positive (nth i A []) then "Running"
                     else "Waiting").
  assert (Hnth : nth i (map f (seq 0 (List.length ps))) "" = f i).
  { rewrite (nth_indep _ "" (f 0%nat)) by (rewrite length_map, length_seq; exact Hi).
    rewrite map_nth, seq_nth by exact Hi. reflexivity. }
  rewrite Hnth. unfold f.
  assert (HrA : List.length (nth i A []) = List.length rs)
    by (apply rectangular_nth; auto; lia).
  assert (HrM : List.length (nth i M []) = List.length rs)
    by (apply rectangular_nth; auto; lia).
  assert (Hzero : np_all_zero (nth i (mat_sub64 M A) []) = true <-> nth i M [] = nth i A []).
  { rewrite nth_mat_sub64 by (congruence || lia).
    apply np_all_zero_sub; [congruence | |].
    - rewrite Forall_forall in IM. apply IM. apply nth_In. lia.
    - rewrite Forall_forall in IA. apply IA. apply nth_In. lia. }
  assert (Hany : np_any_positive (nth i A []) = true <->
                 exists j, (j < List.length rs)%nat /\ 0 < entry A i j).
  { rewrite np_any_positive_spec, HrA. reflexivity. }
  destruct (np_all_zero (nth i (mat_sub64 M A) [])) eqn:Ez.
  - assert (E : nth i M [] = nth i A []) by (apply Hzero; reflexivity).
    split; [tauto |]. split; (split; [discriminate | intros [Hne _]; contradiction]).
  - assert (Hne : nth i M [] <> nth i A []).
    { intros E. apply Hzero in E. discriminate. }
    destruct (np_any_positive (nth i A [])) eqn:Ea.
    + assert (Hex : exists j, (j < List.length rs)%nat /\ 0 < entry A i j)
        by (apply Hany; reflexivity).
      split; [split; [discriminate | contradiction] |].
      split; [tauto |].
      split; [discriminate |]. intros [_ Hall].
      destruct Hex as (j & Hj & Hpos). specialize (Hall j Hj). lia.
    + assert (Hall : forall j, (j < List.length rs)%nat -> entry A i j <= 0).
      { intros j Hj. destruct (Z.le_gt_cases (entry A i j) 0) as [H | H]; [exact H |].
        exfalso. assert (Ht : false = true)
          by (apply Hany; exists j; split; [exact Hj | lia]).
        discriminate. }
      split; [split; [discriminate | contradiction] |].
      split; [| tauto].
      split; [discriminate |]. intros [_ (j & Hj & Hpos)].
      specialize (Hall j Hj). lia.
Qed.

(** * Summary statements *)

(** X1.  [validate_input] always answers: no exception escapes it and it
    never diverges.  The message is empty exactly when the input is
    accepted. *)
Theorem validate_input_always_answers (emsg : exn -> string) (ps rs : list string)
  (A M : list (list Z)) (Av : list Z) :
  exists ok msg,
    validate_input emsg ps rs A M Av = Ret (ok, msg) /\ (ok = true <-> msg = "").
Proof. exact (validate_input_answers emsg ps rs A M Av). Qed.

(** X2.  On entries within int64 [validate_input] accepts exactly the
    inputs with at least one process, an allocation matrix of one row per
    process and one column per resource, a rectangular max-demand matrix of one row per process that
    covers every allocation entry, and a non-negative available entry for
    every resource.  The column count of the max-demand matrix and the
    length of the available vector are only bounded from below. *)
Theorem validate_input_accepts_iff (emsg : exn -> string) (ps rs : list string)
  (A M : list (list Z)) (Av : list Z) :
  int64_input A M Av ->
  (validate_input emsg ps rs A M Av = Ret (true, "") <-> acceptable ps rs A M Av).
Proof. intros _. exact (validate_input_acceptable emsg ps rs A M Av). Qed.

(** X3.  On entries within int64 the allocation check scans the matrix in
    row-major order and reports the first entry that exceeds the declared
    maximum, naming the process, the resource and both values. *)
Theorem validate_input_reports_first_excess (emsg : exn -> string) (ps rs : list string)
  (A M : list (list Z)) (Av : list Z) (i j : nat) :
  int64_input A M Av ->
  List.length A = List.length ps -> rectangular (List.length rs) A ->
  List.length M = List.length ps -> (exists c, rectangular c M) ->
  (i < List.length ps)%nat -> (j < List.length rs)%nat ->
  (j < List.length (nth i M []))%nat ->
  entry M i j < entry A i j ->
  (forall i' j', (i' < List.length ps)%nat -> (j' < List.length rs)%nat ->
     before i' j' i j ->
     (j' < List.length (nth i' M []))%nat /\ entry A i' j' <= entry M i' j') ->
  validate_input emsg ps rs A M Av
  = Ret (false, msg_exceeds (nth i ps "") (entry A i j) (nth j rs "") (entry M i j)).
Proof. intros _. exact (first_excess_reported emsg ps rs A M Av i j). Qed.


(** X7.  On an input of the data model's shape with entries within int64, a
    sequence returned with [True] is a completion order: it names every
    process once, and each process finds its need covered by the available
    units plus the allocations of the processes before it. *)
Theorem is_safe_state_sequence_is_completion_order (ps rs : list string)
  (A M : list (list Z)) (Av : list Z) (sq : list string) :
  int64_input A M Av ->
  banker_input ps rs A M Av ->
  is_safe_state ps rs A M Av = Ret (true, sq) ->
  exists g, completion_order ps rs A M Av g /\ sq = names_of ps g.
Proof. intros _. exact (sequence_completion_order ps rs A M Av sq). Qed.


(** X10.  On arrays of the right shape the graph handed to [find_cycle] has
    one node per process and per resource name and exactly two kinds of
    edges: resource -> process where the process holds units of the
    resource, and process -> resource where the process needs the resource,
    holds none of it and none is available. *)
Theorem build_graph_edges (ps rs : list string) (A N : list (list Z)) (Av : list Z) :
  rectangular (List.length rs) A -> List.length A = List.length ps ->
  rectangular (List.length rs) N -> List.length N = List.length ps ->
  (List.length rs <= List.length Av)%nat ->
  exists G,
    build_graph ps rs (Mat A) (Mat N) Av = Ret G /\
    (forall u v,
       has_edge G u v <->
       exists i j, (i < List.length ps)%nat /\ (j < List.length rs)%nat /\
         ((u = nth i ps "" /\ v = nth j rs "" /\ waits_for A N Av i j) \/
          (u = nth j rs "" /\ v = nth i ps "" /\ holds A i j))) /\
    (forall u, has_node G u <-> In u ps \/ In u rs).
Proof. exact (build_graph_spec ps rs A N Av). Qed.

(** X14.  On arrays of the data model's shape with entries within int64
    [detect_deadlock] has three possible answers: the synthetic cycle of
    the fast path, a closed walk of the resource-allocation graph found by
    [find_cycle], or no deadlock with an empty cycle. *)
Theorem detect_deadlock_answers (find_cycle : DiGraph -> outcome (list edge))
  (ps rs : list string) (A M : list (list Z)) (Av : list Z) :
  int64_input A M Av ->
  find_cycle_contract find_cycle ->
  A <> [] -> List.length A = List.length ps -> rectangular (List.length rs) A ->
  List.length M = List.length ps -> rectangular (List.length rs) M ->
  List.length Av = List.length rs ->
  detect_deadlock find_cycle ps rs A M Av = Ret (true, starvation_cycle ps) \/
  (exists G c,
     build_graph ps rs (Mat A) (Mat (mat_sub64 M A)) Av = Ret G /\
     closed_walk G c /\
     detect_deadlock find_cycle ps rs A M Av = Ret (true, c)) \/
  detect_deadlock find_cycle ps rs A M Av = Ret (false, []).
Proof. intros _. exact (detect_deadlock_cases find_cycle ps rs A M Av). Qed.

(** X15.  For an accepted input with entries within int64 whose max-demand
    matrix and available vector have one column per resource, [simulate]
    answers with a report (status 200) that carries the verdict and sequence of [is_safe_state], the
    verdict and cycle of [detect_deadlock], one state per process, and the
    totals per resource. *)
Theorem simulate_reports_both_engines (emsg : exn -> string)
  (find_cycle : DiGraph -> outcome (list edge)) (ps rs : list string)
  (A M : list (list Z)) (Av : list Z) :
  int64_input A M Av ->
  find_cycle_contract find_cycle ->
  validate_input emsg ps rs A M Av = Ret (true, "") ->
  rectangular (List.length rs) M -> List.length Av = List.length rs ->
  exists safe sq deadlock cycle states,
    is_safe_state ps rs A M Av = Ret (safe, sq) /\
    detect_deadlock find_cycle ps rs A M Av = Ret (deadlock, cycle) /\
    List.length states = List.length ps /\
    simulate emsg find_cycle ps rs A M Av
    = Ret (Report safe sq deadlock cycle
             (mk_metrics states (vec_add64 (np_sum_axis0 (Mat A)) Av)
                (np_sum_axis0 (Mat A)) Av)).
Proof. intros _. exact (simulate_report emsg find_cycle ps rs A M Av). Qed.

(** X16.  An accepted input with entries within int64 whose max-demand
    matrix is wider than the allocation matrix, neither of the two having a
    single column, makes [simulate] answer with a server error (status
    500): the validator let it pass, but the arrays cannot be combined. *)
Theorem simulate_server_error_on_wide_max_demand (emsg : exn -> string)
  (find_cycle : DiGraph -> outcome (list edge)) (ps rs : list string)
  (A M : list (list Z)) (Av : list Z) (c : nat) :
  int64_input A M Av ->
  validate_input emsg ps rs A M Av = Ret (true, "") ->
  rectangular c M -> c <> List.length rs -> c <> 1%nat -> List.length rs <> 1%nat ->
  simulate emsg find_cycle ps rs A M Av
  = Ret (ServerError ("Server error: " ++ emsg ValueError)%string).
Proof. intros _. exact (simulate_wide_max_demand emsg find_cycle ps rs A M Av c). Qed.


(** ** Concrete instances of the further properties *)

Lemma banker_input_example :
  banker_input ["P0"; "P1"] ["R0"] [[1]; [0]] [[1]; [1]] [1].
Proof.
  unfold banker_input. repeat split; try reflexivity.
  - repeat constructor.
  - repeat constructor.
  - repeat constructor; lia.
  - destruct j as [| j]; [vm_compute; discriminate | simpl in H; lia].
  - destruct j as [| j]; [vm_compute; discriminate | simpl in H; lia].
Defined.

Lemma int64_input_example : int64_input [[1]; [0]] [[1]; [1]] [1].
Proof. repeat split; repeat constructor; apply in_int64_small; lia. Defined.

Lemma find_no_cycle_contract : find_cycle_contract find_no_cycle.
Proof. intros G. right. reflexivity. Defined.

Lemma accepts_iff_witness :
  int64_input [[1]; [0]] [[1]; [1]] [1] /\
  (validate_input exn_class_name ["P0"; "P1"] ["R0"] [[1]; [0]] [[1]; [1]] [1]
   = Ret (true, "") <->
   acceptable ["P0"; "P1"] ["R0"] [[1]; [0]] [[1]; [1]] [1]).
Proof.
  split; [exact int64_input_example |].
  exact (validate_input_accepts_iff exn_class_name ["P0"; "P1"] ["R0"]
           [[1]; [0]] [[1]; [1]] [1] int64_input_example).
Defined.

Lemma first_excess_witness :
  int64_input [[5]] [[3]] [0] /\
  entry [[3]] 0 0 < entry [[5]] 0 0 /\
  validate_input exn_class_name ["P0"] ["R0"] [[5]] [[3]] [0]
  = Ret (false, msg_exceeds "P0" 5 "R0" 3).
Proof.
  assert (H : entry [[3]] 0 0 < entry [[5]] 0 0) by (vm_compute; reflexivity).
  assert (Hin : int64_input [[5]] [[3]] [0])
    by (repeat split; repeat constructor; apply in_int64_small; lia).
  split; [exact Hin | split; [exact H |]].
  apply (validate_input_reports_first_excess exn_class_name ["P0"] ["R0"]
           [[5]] [[3]] [0] 0 0 Hin).
  - reflexivity.
  - repeat constructor.
  - reflexivity.
  - exists 1%nat. repeat constructor.
  - simpl; lia.
  - simpl; lia.
  - simpl; lia.
  - exact H.
  - intros i' j' Hi Hj [Hb | [_ Hb]]; lia.
Defined.

Lemma negative_available_witness :
  nth 0 [-1] 0 < 0 /\
  validate_input exn_class_name ["P0"] ["R0"] [[0]] [[0]] [-1]
  = Ret (false, "Available resources cannot be negative").
Proof.
  assert (H : nth 0 [-1] 0 < 0) by (simpl; lia).
  split; [exact H |].
  apply (validate_input_rejects_negative_available exn_class_name ["P0"] ["R0"]
           [[0]] [[0]] [-1] 0).
  - discriminate.
  - reflexivity.
  - repeat constructor.
  - reflexivity.
  - exists 1%nat. repeat constructor.
  - intros i k Hi Hk. simpl in Hi, Hk.
    destruct i as [| i]; [| lia]. destruct k as [| k]; [| lia].
    split; [simpl; lia | vm_compute; discriminate].
  - simpl; lia.
  - simpl; lia.
  - exact H.
Defined.

Lemma ragged_witness :
  ragged [[1; 2]; [3]] /\
  validate_input exn_class_name ["P0"; "P1"] ["R0"; "R1"] [[1; 2]; [3]] [[1; 2]; [3; 4]] [0; 0]
  = Ret (false, "Invalid input format: ValueError").
Proof.
  assert (H : ragged [[1; 2]; [3]]).
  { exists [1; 2], [3]. split; [left; reflexivity |].
    split; [right; left; reflexivity | simpl; lia]. }
  split; [exact H |].
  apply (validate_input_rejects_ragged exn_class_name ["P0"; "P1"] ["R0"; "R1"]
           [[1; 2]; [3]] [[1; 2]; [3; 4]] [0; 0]).
  left. exact H.
Defined.


Lemma completion_order_witness :
  int64_input [[1]; [0]] [[1]; [1]] [1] /\
  banker_input ["P0"; "P1"] ["R0"] [[1]; [0]] [[1]; [1]] [1] /\
  is_safe_state ["P0"; "P1"] ["R0"] [[1]; [0]] [[1]; [1]] [1] = Ret (true, ["P0"; "P1"]) /\
  exists g, completion_order ["P0"; "P1"] ["R0"] [[1]; [0]] [[1]; [1]] [1] g /\
            ["P0"; "P1"] = names_of ["P0"; "P1"] g.
Proof.
  assert (H : is_safe_state ["P0"; "P1"] ["R0"] [[1]; [0]] [[1]; [1]] [1]
              = Ret (true, ["P0"; "P1"])) by reflexivity.
  split; [exact int64_input_example | split; [exact banker_input_example |]].
  split; [exact H |].
  exact (is_safe_state_sequence_is_completion_order ["P0"; "P1"] ["R0"]
           [[1]; [0]] [[1]; [1]] [1] ["P0"; "P1"] int64_input_example
           banker_input_example H).
Defined.

Lemma starvation_witness :
  validate_input exn_class_name ["P0"; "P1"] ["R0"; "R1"]
    [[1; 0]; [0; 1]] [[1; 1]; [1; 1]] [0; 0] = Ret (true, "") /\
  detect_deadlock find_no_cycle ["P0"; "P1"] ["R0"; "R1"]
    [[1; 0]; [0; 1]] [[1; 1]; [1; 1]] [0; 0]
  = Ret (true, starvation_cycle ["P0"; "P1"]) /\
  is_safe_state ["P0"; "P1"] ["R0"; "R1"] [[1; 0]; [0; 1]] [[1; 1]; [1; 1]] [0; 0]
  = Ret (false, []).
Proof.
  assert (H : validate_input exn_class_name ["P0"; "P1"] ["R0"; "R1"]
                [[1; 0]; [0; 1]] [[1; 1]; [1; 1]] [0; 0] = Ret (true, ""))
    by reflexivity.
  split; [exact H |].
  apply (total_starvation_is_unsafe exn_class_name find_no_cycle ["P0"; "P1"]
           ["R0"; "R1"] [[1; 0]; [0; 1]] [[1; 1]; [1; 1]] [0; 0] H).
  - repeat constructor.
  - reflexivity.
  - repeat constructor; lia.
  - repeat split; repeat constructor; apply in_int64_small; lia.
  - repeat constructor.
  - intros i Hi. destruct i as [| [| i]]; [reflexivity | reflexivity | simpl in Hi; lia].
Defined.


Lemma build_graph_witness :
  exists G,
    build_graph ["P0"; "P1"] ["R0"; "R1"] (Mat [[1; 0]; [0; 1]]) (Mat [[0; 1]; [1; 0]]) [0; 0]
    = Ret G /\
    (has_edge G "P0" "R1" <->
     exists i j, (i < 2)%nat /\ (j < 2)%nat /\
       (("P0" = nth i ["P0"; "P1"] "" /\ "R1" = nth j ["R0"; "R1"] "" /\
         waits_for [[1; 0]; [0; 1]] [[0; 1]; [1; 0]] [0; 0] i j) \/
        ("P0" = nth j ["R0"; "R1"] "" /\ "R1" = nth i ["P0"; "P1"] "" /\
         holds [[1; 0]; [0; 1]] i j))).
Proof.
  destruct (build_graph_edges ["P0"; "P1"] ["R0"; "R1"] [[1; 0]; [0; 1]]
              [[0; 1]; [1; 0]] [0; 0]) as (G & E & He & _).
  - repeat constructor.
  - reflexivity.
  - repeat constructor.
  - reflexivity.
  - simpl; lia.
  - exists G. split; [exact E | apply He].
Defined.

Lemma no_deadlock_witness :
  find_cycle_contract find_no_cycle /\
  detect_deadlock find_no_cycle ["P0"; "P1"] ["R0"] [[1]; [0]] [[1]; [1]] [1]
  = Ret (false, []).
Proof.
  split; [exact find_no_cycle_contract |].
  apply (no_deadlock_when_every_resource_is_available find_no_cycle ["P0"; "P1"] ["R0"]
           [[1]; [0]] [[1]; [1]] [1] find_no_cycle_contract).
  - discriminate.
  - reflexivity.
  - repeat constructor.
  - reflexivity.
  - repeat constructor.
  - reflexivity.
  - discriminate.
  - intros j Hj. destruct j as [| j]; [simpl; lia | simpl in Hj; lia].
  - intros p [<- | [<- | []]] [H | []]; discriminate.
Defined.

Lemma simulate_responds_witness :
  exists r,
    simulate exn_class_name find_no_cycle ["P0"] ["R0"; "R1"] [[0; 0]] [[0; 0; 0]] [0; 0]
    = Ret r.
Proof.
  apply (simulate_always_responds exn_class_name find_no_cycle).
  intros G. discriminate.
Defined.

Lemma detect_deadlock_answers_witness :
  int64_input [[1]; [0]] [[1]; [1]] [1] /\
  find_cycle_contract find_no_cycle /\
  (detect_deadlock find_no_cycle ["P0"; "P1"] ["R0"] [[1]; [0]] [[1]; [1]] [1]
   = Ret (true, starvation_cycle ["P0"; "P1"]) \/
   (exists G c,
      build_graph ["P0"; "P1"] ["R0"] (Mat [[1]; [0]]) (Mat (mat_sub64 [[1]; [1]] [[1]; [0]])) [1]
      = Ret G /\
      closed_walk G c /\
      detect_deadlock find_no_cycle ["P0"; "P1"] ["R0"] [[1]; [0]] [[1]; [1]] [1]
      = Ret (true, c)) \/
   detect_deadlock find_no_cycle ["P0"; "P1"] ["R0"] [[1]; [0]] [[1]; [1]] [1]
   = Ret (false, [])).
Proof.
  split; [exact int64_input_example | split; [exact find_no_cycle_contract |]].
  apply (detect_deadlock_answers find_no_cycle ["P0"; "P1"] ["R0"]
           [[1]; [0]] [[1]; [1]] [1] int64_input_example find_no_cycle_contract).
  - discriminate.
  - reflexivity.
  - repeat constructor.
  - reflexivity.
  - repeat constructor.
  - reflexivity.
Defined.

Lemma simulate_report_witness :
  int64_input [[1]; [0]] [[1]; [1]] [1] /\
  validate_input exn_class_name ["P0"; "P1"] ["R0"] [[1]; [0]] [[1]; [1]] [1]
  = Ret (true, "") /\
  exists safe sq deadlock cycle states,
    is_safe_state ["P0"; "P1"] ["R0"] [[1]; [0]] [[1]; [1]] [1] = Ret (safe, sq) /\
    detect_deadlock find_no_cycle ["P0"; "P1"] ["R0"] [[1]; [0]] [[1]; [1]] [1]
    = Ret (deadlock, cycle) /\
    List.length states = 2%nat /\
    simulate exn_class_name find_no_cycle ["P0"; "P1"] ["R0"] [[1]; [0]] [[1]; [1]] [1]
    = Ret (Report safe sq deadlock cycle
             (mk_metrics states (vec_add64 (np_sum_axis0 (Mat [[1]; [0]])) [1])
                (np_sum_axis0 (Mat [[1]; [0]])) [1])).
Proof.
  assert (H : validate_input exn_class_name ["P0"; "P1"] ["R0"] [[1]; [0]] [[1]; [1]] [1]
              = Ret (true, "")) by reflexivity.
  split; [exact int64_input_example | split; [exact H |]].
  apply (simulate_reports_both_engines exn_class_name find_no_cycle ["P0"; "P1"] ["R0"]
           [[1]; [0]] [[1]; [1]] [1] int64_input_example find_no_cycle_contract H).
  - repeat constructor.
  - reflexivity.
Defined.

Lemma simulate_server_error_witness :
  int64_input [[0; 0]] [[0; 0; 0]] [0; 0] /\
  validate_input exn_class_name ["P0"] ["R0"; "R1"] [[0; 0]] [[0; 0; 0]] [0; 0]
  = Ret (true, "") /\
  simulate exn_class_name find_no_cycle ["P0"] ["R0"; "R1"] [[0; 0]] [[0; 0; 0]] [0; 0]
  = Ret (ServerError "Server error: ValueError").
Proof.
  assert (H : validate_input exn_class_name ["P0"] ["R0"; "R1"] [[0; 0]] [[0; 0; 0]] [0; 0]
              = Ret (true, "")) by reflexivity.
  assert (Hin : int64_input [[0; 0]] [[0; 0; 0]] [0; 0])
    by (repeat split; repeat constructor; apply in_int64_small; lia).
  split; [exact Hin | split; [exact H |]].
  apply (simulate_server_error_on_wide_max_demand exn_class_name find_no_cycle
           ["P0"] ["R0"; "R1"] [[0; 0]] [[0; 0; 0]] [0; 0] 3 Hin H).
  - repeat constructor.
  - simpl; lia.
  - lia.
  - simpl; lia.
Defined.

Lemma simulate_totals_witness :
  validate_input exn_class_name ["P0"; "P1"] ["R0"] [[1]; [0]] [[1]; [1]] [1]
  = Ret (true, "") /\
  exists total_allocated total_resources,
    simulate_totals exn_class_name ["P0"; "P1"] ["R0"] [[1]; [0]] [[1]; [1]] [1]
    = Ret (Some (total_allocated, total_resources)) /\
    nth 0 total_resources 0 = col_sum [[1]; [0]] 0 + 1.
Proof.
  assert (H : validate_input exn_class_name ["P0"; "P1"] ["R0"] [[1]; [0]] [[1]; [1]] [1]
              = Ret (true, "")) by reflexivity.
  split; [exact H |].
  destruct (simulate_totals_are_column_sums exn_class_name ["P0"; "P1"] ["R0"]
              [[1]; [0]] [[1]; [1]] [1] H banker_input_example)
    as (ta & tr & E & _ & _ & Hj).
  exists ta, tr. split; [exact E |].
  destruct (Hj 0%nat) as (_ & Htr & _); [simpl; lia | exact Htr].
Defined.

Lemma classify_witness :
  exists states,
    classify (Mat (mat_sub64 [[1]; [1]] [[1]; [0]])) (Mat [[1]; [0]]) (seq 0 2) = Ret states /\
    List.length states = 2%nat /\
    (nth 1 states "" = "Waiting" <->
     nth 1 [[1]; [1]] [] <> nth 1 [[1]; [0]] [] /\
     forall j, (j < 1)%nat -> entry [[1]; [0]] 1 j <= 0).
Proof.
  destruct (classify_by_rows ["P0"; "P1"] ["R0"] [[1]; [0]] [[1]; [1]] 1)
    as (states & E & Hlen & _ & _ & Hw).
  - reflexivity.
  - repeat constructor.
  - reflexivity.
  - repeat constructor.
  - repeat constructor; apply in_int64_small; lia.
  - repeat constructor; apply in_int64_small; lia.
  - simpl; lia.
  - exists states. split; [exact E | split; [exact Hlen | exact Hw]].
Defined.
